(** * Multi-Agent-Assistant: the remote command client, the supervisor graph,
    the command server and the assistant's route

    A shallow embedding of [src/mcp/client.py] (class [MCPClient]), of
    [src/workflow/graph.py] (class [Workflow]), of [mcp_server/main.py]
    (the safety visitor and the two routes) and of [src/api/routes.py]
    (the [assist] route), with the theorems that settle the specification's
    claims about them and further properties of the code.

    Python values are modelled as the code has them: text as [string],
    decoded JSON as the inductive [json] whose objects are association lists
    in insertion order, the name-to-command dictionary as a [gmap], raised
    exceptions as the [Raise] branch of a result type, and the mutable client
    object together with the HTTP transport as an explicit state. *)

From Stdlib Require Import Ascii String.
From stdpp Require Import base strings gmap list pretty.

Set Warnings "-register-all".

Open Scope string_scope.

(** ** Python text operations *)

Module PyStr.

(** [str.isspace] on one character, for code points below 256. *)
Definition is_space (a : ascii) : bool :=
  let n := nat_of_ascii a in
  (((9 <=? n) && (n <=? 13)) || ((28 <=? n) && (n <=? 32))
   || (n =? 133) || (n =? 160))%nat.

(** [str.lower] on one character, for code points below 256: the ASCII
    capitals and the Latin-1 capitals (all of 192..222 but the
    multiplication sign 215) move up by 32. *)
Definition lower_char (a : ascii) : ascii :=
  let n := nat_of_ascii a in
  if (((65 <=? n) && (n <=? 90))
      || ((192 <=? n) && (n <=? 222) && negb (n =? 215)))%nat
  then ascii_of_nat (n + 32) else a.

Fixpoint lower (s : string) : string :=
  match s with
  | EmptyString => EmptyString
  | String a s' => String (lower_char a) (lower s')
  end.

Fixpoint lstrip (s : string) : string :=
  match s with
  | EmptyString => EmptyString
  | String a s' => if is_space a then lstrip s' else s
  end.

Fixpoint rstrip (s : string) : string :=
  match s with
  | EmptyString => EmptyString
  | String a s' =>
      match rstrip s' with
      | EmptyString => if is_space a then EmptyString else String a EmptyString
      | r => String a r
      end
  end.

(** [s.strip()] with no argument. *)
Definition strip (s : string) : string := rstrip (lstrip s).

(** [pat in s] on text: [pat] occurs in [s] as a substring. *)
Fixpoint contains (pat s : string) : bool :=
  String.prefix pat s ||
  match s with
  | EmptyString => false
  | String _ s' => contains pat s'
  end.

(** [sep.join(parts)]. *)
Fixpoint join (sep : string) (parts : list string) : string :=
  match parts with
  | [] => EmptyString
  | [p] => p
  | p :: rest => p +:+ sep +:+ join sep rest
  end.

(** [s[:n]]. *)
Fixpoint take (n : nat) (s : string) : string :=
  match n, s with
  | S n', String a s' => String a (take n' s')
  | _, _ => EmptyString
  end.

(** No character of [s] is white space. *)
Fixpoint no_space (s : string) : bool :=
  match s with
  | EmptyString => true
  | String a s' => negb (is_space a) && no_space s'
  end.

(** Every character of [s] is an ASCII character. *)
Fixpoint is_ascii (s : string) : bool :=
  match s with
  | EmptyString => true
  | String a s' => (nat_of_ascii a <? 128)%nat && is_ascii s'
  end.

(** [pat] stands in [s] with some text before it and some after. *)
Definition occurs (pat s : string) : Prop :=
  exists pre post, s = pre +:+ pat +:+ post.

End PyStr.

(** ** Python values, exceptions and results *)

Module Py.

(** A value decoded from JSON: [None], [bool], [int], [float] (a decimal
    [m * 10^e]), [str], [list] and [dict].  A [dict] keeps its entries in
    insertion order; each key occurs once, as [json()] decodes it. *)
Inductive json : Type :=
| JNull
| JBool (b : bool)
| JInt (z : Z)
| JFloat (m e : Z)
| JStr (s : string)
| JArr (items : list json)
| JObj (entries : list (string * json)).

Abbreviation dict := (list (string * json)).

(** [d.get(key)]: [None] when the key is absent. *)
Fixpoint dict_get (key : string) (d : dict) : option json :=
  match d with
  | [] => None
  | (k, v) :: d' => if String.eqb k key then Some v else dict_get key d'
  end.

(** [bool(v)], Python's truth value. *)
Definition truthy (v : json) : bool :=
  match v with
  | JNull => false
  | JBool b => b
  | JInt z => negb (z =? 0)%Z
  | JFloat m _ => negb (m =? 0)%Z
  | JStr s => negb (String.eqb s EmptyString)
  | JArr items => match items with [] => false | _ => true end
  | JObj entries => match entries with [] => false | _ => true end
  end.

(** The exception classes the two modules raise, catch or let through.
    All of them derive from [Exception]. *)
Inductive ExnClass : Type :=
| ConnectError            (* httpx.ConnectError *)
| ReadTimeout             (* httpx.ReadTimeout *)
| TransportError          (* any other failure raised by the httpx request *)
| ValueError
| ValidationError         (* pydantic.ValidationError *)
| TypeError
| KeyError
| AttributeError
| MCPError
| CommandNotFoundError    (* a subclass of MCPError *)
| OutputParserException
| GraphRecursionError
| RuntimeError.           (* any other Exception *)

(** A raised exception.  [HTTPStatusError] is what [raise_for_status]
    raises; it carries the response's status code. *)
Inductive Exn : Type :=
| Exc (c : ExnClass) (msg : string)
| HTTPStatusError (status_code : nat).

(** [str(e)].  The wording httpx gives a status error is not reproduced. *)
Definition exn_str (e : Exn) : string :=
  match e with
  | Exc _ msg => msg
  | HTTPStatusError st => "HTTP status " +:+ pretty st
  end.

Definition class_eqb (a b : ExnClass) : bool :=
  match a, b with
  | ConnectError, ConnectError | ReadTimeout, ReadTimeout
  | TransportError, TransportError | ValueError, ValueError
  | ValidationError, ValidationError | TypeError, TypeError
  | KeyError, KeyError | AttributeError, AttributeError
  | MCPError, MCPError | CommandNotFoundError, CommandNotFoundError
  | OutputParserException, OutputParserException
  | GraphRecursionError, GraphRecursionError
  | RuntimeError, RuntimeError => true
  | _, _ => false
  end.

(** [isinstance(e, c)] for one of the classes above. *)
Definition is_class (c : ExnClass) (e : Exn) : bool :=
  match e with
  | Exc c' _ => class_eqb c c'
  | HTTPStatusError _ => false
  end.

(** The outcome of a call: a returned value or a raised exception. *)
Inductive Res (A : Type) : Type :=
| Ret (a : A)
| Raise (e : Exn).
Arguments Ret {A} a.
Arguments Raise {A} e.

Definition res_bind {A B} (r : Res A) (k : A -> Res B) : Res B :=
  match r with
  | Ret a => k a
  | Raise e => Raise e
  end.

(** [[f(x) for x in l]]: the first exception ends the comprehension. *)
Fixpoint res_map {A B} (f : A -> Res B) (l : list A) : Res (list B) :=
  match l with
  | [] => Ret []
  | x :: l' =>
      res_bind (f x) (fun y => res_bind (res_map f l') (fun ys => Ret (y :: ys)))
  end.

End Py.

(** ** The remote command client, [src/mcp/client.py] *)

Module MCP.
Import Py.

(** *** The server and the transport *)

(** What an HTTP request comes back with: the request itself raises (no
    connection, a timeout, ...), or a response arrives with its status code
    and its body.  The body is JSON, or empty ([None]), or other text that
    is not JSON, given by the message of the error that decoding it
    raises. *)
Inductive Reply : Type :=
| NetFail (e : Exn)
| Response (status_code : nat) (body : option json)
| Garbled (status_code : nat) (decode_error : string).

(** The reply is a response with this status code, whatever its body. *)
Definition answered (r : Reply) (status_code : nat) : Prop :=
  match r with
  | NetFail _ => False
  | Response st _ | Garbled st _ => st = status_code
  end.

(** The command server as the client sees it: its reply to the [n]-th
    [GET /commands] (counted from 0) and to the [n]-th [POST /execute] with
    the payload sent. *)
Record Server : Type := {
  on_get : nat -> Reply;
  on_post : nat -> json -> Reply
}.

(** [class Command(BaseModel)]. *)
Record Command : Type := {
  name : string;
  description : string;
  parameters : dict
}.

(** [Command.has_parameters]. *)
Definition has_parameters (cmd : Command) : bool :=
  match dict_get "properties" (parameters cmd) with
  | Some v => truthy v
  | None => false
  end.

(** [Command.model_validate(cmd)] on one element of the decoded catalog:
    [name] and [description] are required text, [parameters] is a dict that
    defaults to the empty one; other keys are ignored. *)
Definition model_validate (cmd : json) : Res Command :=
  match cmd with
  | JObj entries =>
      match dict_get "name" entries, dict_get "description" entries with
      | Some (JStr n), Some (JStr d) =>
          match dict_get "parameters" entries with
          | None => Ret {| name := n; description := d; parameters := [] |}
          | Some (JObj ps) => Ret {| name := n; description := d; parameters := ps |}
          | Some _ => Raise (Exc ValidationError "parameters")
          end
      | _, _ => Raise (Exc ValidationError "name, description")
      end
  | _ => Raise (Exc ValidationError "Command")
  end.

(** The client object's two cache attributes, and what the transport has
    done so far: the number of [GET /commands] requests issued, the payloads
    of the [POST /execute] requests issued (latest last), and the waits
    slept between retries. *)
Record State : Type := {
  _commands : option (list Command);
  _command_map : option (gmap string Command);
  gets : nat;
  posts : list json;
  sleeps : list nat
}.

(** [MCPClient.__init__]: nothing cached, nothing sent. *)
Definition init : State :=
  {| _commands := None; _command_map := None; gets := 0; posts := []; sleeps := [] |}.

(** A method of the client: it may change the state, and returns or raises. *)
Definition M (A : Type) : Type := State -> State * Res A.

Definition ret {A} (a : A) : M A := fun s => (s, Ret a).
Definition raise {A} (e : Exn) : M A := fun s => (s, Raise e).
Definition bind {A B} (m : M A) (k : A -> M B) : M B :=
  fun s => match m s with
           | (s', Ret a) => k a s'
           | (s', Raise e) => (s', Raise e)
           end.
Definition lift {A} (r : Res A) : M A := fun s => (s, r).

Declare Scope client_scope.
Delimit Scope client_scope with client.
Notation "x <- m ;; k" := (bind m (fun x => k))
  (at level 100, m at next level, right associativity) : client_scope.
Notation "m ;;; k" := (bind m (fun _ => k))
  (at level 100, right associativity) : client_scope.
Local Open Scope client_scope.

(** [try: m except ...: h]: [handler e] is the body of the first [except]
    clause that matches [e], [None] when no clause matches. *)
Definition try_except {A} (m : M A) (handler : Exn -> option (M A)) : M A :=
  fun s => match m s with
           | (s', Ret a) => (s', Ret a)
           | (s', Raise e) =>
               match handler e with
               | Some h => h s'
               | None => (s', Raise e)
               end
           end.

(** [response.raise_for_status()]: only a 2xx status is a success. *)
Definition is_success (status_code : nat) : bool :=
  ((200 <=? status_code) && (status_code <=? 299))%nat.

Definition raise_for_status (status_code : nat) : M unit :=
  if is_success status_code then ret tt else raise (HTTPStatusError status_code).

(** What [response.json()] gives on a body: the decoded value, or json's
    [JSONDecodeError], a [ValueError], whose text for an empty body is the
    one below. *)
Definition decoded (body : option json) : Res json :=
  match body with
  | Some j => Ret j
  | None => Raise (Exc ValueError "Expecting value: line 1 column 1 (char 0)")
  end.

(** [response.json()]. *)
Definition response_json (body : Res json) : M json := lift body.

(** [tenacity]'s [wait_exponential(multiplier, min, max)] after the attempt
    numbered [attempt] (from 1), with exponent base 2. *)
Definition wait_exponential (multiplier min max attempt : nat) : nat :=
  Nat.max (Nat.max 0 min) (Nat.min (multiplier * 2 ^ (attempt - 1)) max).

(** [stop_after_attempt(n)]. *)
Definition stop_after_attempt (n attempt : nat) : bool := (n <=? attempt)%nat.

(** [retry_if_exception_type((httpx.ConnectError, httpx.ReadTimeout))]. *)
Definition retry_if_exception_type (e : Exn) : bool :=
  is_class ConnectError e || is_class ReadTimeout e.

(** [parameters or {}]. *)
Definition or_empty (parameters : option dict) : dict :=
  match parameters with
  | Some d => if truthy (JObj d) then d else []
  | None => []
  end.

(** [{cmd.name: cmd for cmd in commands}]: a later command of the same
    name replaces an earlier one. *)
Definition build_map (cmds : list Command) : gmap string Command :=
  foldl (fun m cmd => <[name cmd := cmd]> m) ∅ cmds.

(** *** The argument schema of a synthesized tool *)

(** The Python types [json_type_to_py_type] produces: [str], [float],
    [int], [bool], [List], [Dict], [type(None)], [Any], [Optional[t]] and
    [Union[ts]]. *)
Inductive PyType : Type :=
| TStr | TFloat | TInt | TBool | TList | TDict | TNone | TAny
| TOptional (t : PyType)
| TUnion (ts : list PyType).

(** [t == type(None)].  [typing] reduces [Optional[type(None)]] and a
    [Union] of nothing but [type(None)] to [type(None)] itself. *)
Fixpoint is_NoneType (t : PyType) : bool :=
  match t with
  | TNone => true
  | TOptional t' => is_NoneType t'
  | TUnion ts =>
      match ts with
      | [] => false
      | _ => forallb is_NoneType ts
      end
  | _ => false
  end.

(** [types.remove(type(None))]: the first occurrence goes. *)
Fixpoint remove_NoneType (types : list PyType) : list PyType :=
  match types with
  | [] => []
  | t :: types' => if is_NoneType t then types' else t :: remove_NoneType types'
  end.

(** [mapping.get(json_type, Any)]. *)
Definition mapping (json_type : string) : PyType :=
  if String.eqb json_type "string" then TStr
  else if String.eqb json_type "number" then TFloat
  else if String.eqb json_type "integer" then TInt
  else if String.eqb json_type "boolean" then TBool
  else if String.eqb json_type "array" then TList
  else if String.eqb json_type "object" then TDict
  else if String.eqb json_type "null" then TNone
  else TAny.

(** The helper [json_type_to_py_type] of [get_tools]. *)
Fixpoint json_type_to_py_type (json_type : json) : PyType :=
  match json_type with
  | JStr s => mapping s
  | JArr items =>
      let types := map json_type_to_py_type items in
      if existsb is_NoneType types then
        match remove_NoneType types with
        | [t] => TOptional t
        | [] => TAny
        | types' => TUnion types'
        end
      else
        match types with
        | [] => TAny
        | _ => TUnion types
        end
  | _ => TAny
  end.

(** The [default] argument handed to [Field]: none at all (the required branch),
    the ellipsis (what [field_info.get] falls back to), or a declared value. *)
Inductive DefaultArg : Type :=
| NoDefault
| Ellipsis
| DefaultValue (v : json).

(** One entry of [fields]: the annotation and the [Field(...)] built for
    it.  [description] is a parameter of [Field]; [enum] is not, so
    pydantic keeps it among the extra entries of the field's JSON schema. *)
Record FieldInfo : Type := {
  annotation : PyType;
  field_default : DefaultArg;
  field_description : option json;
  field_enum : option json
}.

(** pydantic's [FieldInfo.is_required]: a field is required unless it was
    given a default value; the ellipsis stands for no default. *)
Definition is_required (f : FieldInfo) : bool :=
  match field_default f with
  | DefaultValue _ => false
  | NoDefault | Ellipsis => true
  end.

(** [StructuredTool]: name, description and [args_schema], the fields of
    the pydantic model made by [create_model].  Its function is
    [tool_func] below at [tool_name]. *)
Record StructuredTool : Type := {
  tool_name : string;
  tool_description : string;
  args_schema : list (string * FieldInfo)
}.

Definition hashable (v : json) : bool :=
  match v with
  | JArr _ | JObj _ => false
  | _ => true
  end.

Fixpoint chars (s : string) : list string :=
  match s with
  | EmptyString => []
  | String a s' => String a EmptyString :: chars s'
  end.

Fixpoint texts (items : list json) : list string :=
  match items with
  | [] => []
  | JStr s :: items' => s :: texts items'
  | _ :: items' => texts items'
  end.

(** [set(cmd.parameters.get("required", []))], as the texts it holds:
    only they can equal a field name. *)
Definition required_set (params : dict) : Res (list string) :=
  match dict_get "required" params with
  | None => Ret []
  | Some (JArr items) =>
      if forallb hashable items then Ret (texts items)
      else Raise (Exc TypeError "unhashable type")
  | Some (JStr s) => Ret (chars s)
  | Some (JObj entries) => Ret (map fst entries)
  | Some _ => Raise (Exc TypeError "object is not iterable")
  end.

(** [field_name in required]. *)
Definition in_required (field_name : string) (required : list string) : bool :=
  existsb (String.eqb field_name) required.

(** [json_type_to_py_type(field_info.get("type", "string"))]. *)
Definition py_type_of (field_info : dict) : PyType :=
  json_type_to_py_type
    (match dict_get "type" field_info with
     | Some t => t
     | None => JStr "string"
     end).

(** The body of the loop over [properties.items()]: the entry of [fields]
    for one declared parameter. *)
Definition make_field (required : list string) (field_name : string)
    (field_info : json) : Res (string * FieldInfo) :=
  match field_info with
  | JObj info =>
      Ret (field_name,
           {| annotation := py_type_of info;
              field_default :=
                if in_required field_name required then NoDefault
                else match dict_get "default" info with
                     | Some v => DefaultValue v
                     | None => Ellipsis
                     end;
              field_description := dict_get "description" info;
              field_enum := dict_get "enum" info |})
  | _ => Raise (Exc AttributeError "object has no attribute 'get'")
  end.

(** The fields of [schema_class] for one command.  Field names are taken
    to be names [create_model] accepts. *)
Definition schema_fields (cmd : Command) : Res (list (string * FieldInfo)) :=
  if negb (has_parameters cmd) then Ret []
  else
    res_bind (required_set (parameters cmd)) (fun required =>
      match dict_get "properties" (parameters cmd) with
      | Some (JObj properties) =>
          res_map (fun kv => make_field required (fst kv) (snd kv)) properties
      | _ => Raise (Exc AttributeError "object has no attribute 'items'")
      end).

(** One turn of the loop of [get_tools]: the tool for one command. *)
Definition make_tool (cmd : Command) : Res StructuredTool :=
  res_bind (schema_fields cmd) (fun fields =>
    Ret {| tool_name := name cmd; tool_description := description cmd;
           args_schema := fields |}).

(** One use of the client by its owner: reading [commands] or
    [command_map], calling [execute_command] or [get_tools], or invoking a
    synthesized tool. *)
Inductive Call : Type :=
| UseCommands
| UseCommandMap
| UseExecute (command_name : string) (params : option dict)
| UseGetTools
| UseInvoke (tool : StructuredTool) (args : dict).

Section Client.
Variable server : Server.

(** [self._http_client.get("/commands")]. *)
Definition http_get : M (nat * Res json) :=
  fun s =>
    let s' := {| _commands := _commands s; _command_map := _command_map s;
                 gets := S (gets s); posts := posts s; sleeps := sleeps s |} in
    match on_get server (gets s) with
    | NetFail e => (s', Raise e)
    | Response st body => (s', Ret (st, decoded body))
    | Garbled st msg => (s', Ret (st, Raise (Exc ValueError msg)))
    end.

(** [self._http_client.post("/execute", json=payload)]. *)
Definition http_post (payload : json) : M (nat * Res json) :=
  fun s =>
    let s' := {| _commands := _commands s; _command_map := _command_map s;
                 gets := gets s; posts := posts s ++ [payload];
                 sleeps := sleeps s |} in
    match on_post server (length (posts s)) payload with
    | NetFail e => (s', Raise e)
    | Response st body => (s', Ret (st, decoded body))
    | Garbled st msg => (s', Ret (st, Raise (Exc ValueError msg)))
    end.

(** [time.sleep(seconds)] between two attempts. *)
Definition sleep (seconds : nat) : M unit :=
  fun s =>
    ({| _commands := _commands s; _command_map := _command_map s;
        gets := gets s; posts := posts s; sleeps := sleeps s ++ [seconds] |},
     Ret tt).

(** The state between two attempts: only the sleep is recorded. *)
Definition slept (seconds : nat) (s : State) : State :=
  fst (sleep seconds s).

(** The two assignments that end the [try] block of [_load_commands]. *)
Definition store_commands (cmds : list Command) : M unit :=
  fun s =>
    ({| _commands := Some cmds; _command_map := None;
        gets := gets s; posts := posts s; sleeps := sleeps s |}, Ret tt).

Definition store_command_map (m : gmap string Command) : M unit :=
  fun s =>
    ({| _commands := _commands s; _command_map := Some m;
        gets := gets s; posts := posts s; sleeps := sleeps s |}, Ret tt).

Definition read {A} (f : State -> A) : M A := fun s => (s, Ret (f s)).

(** The body of [_load_commands], one attempt. *)
Definition load_commands_once : M unit :=
  try_except
    (response <- http_get ;;
     raise_for_status (fst response) ;;;
     raw_commands <- response_json (snd response) ;;
     match raw_commands with
     | JArr items =>
         cmds <- lift (res_map model_validate items) ;;
         store_commands cmds
     | _ => raise (Exc ValueError "Expected list of commands from server")
     end)
    (fun e =>
       match e with
       | HTTPStatusError st =>
           Some (raise (Exc MCPError ("Failed to fetch commands: " +:+ pretty st)))
       | Exc ValidationError _ | Exc ValueError _ =>
           Some (raise (Exc MCPError "Invalid command schema received from server"))
       | _ => None
       end).

(** [tenacity]'s [@retry(stop, wait, retry, reraise=True)] around a
    method: [stop attempt] says whether the attempt just made was the last
    one allowed, [wait attempt] how long to sleep after it, [retry e] whether
    the failure [e] is one to retry.  [attempt] is the number of the attempt
    being made, from 1; [fuel] bounds the attempts still to make. *)
Fixpoint retrying {A} (stop : nat -> bool) (wait : nat -> nat)
    (retry : Exn -> bool) (fuel attempt : nat) (body : M A) : M A :=
  fun s =>
    match body s with
    | (s', Ret a) => (s', Ret a)
    | (s', Raise e) =>
        if retry e then
          if stop attempt then (s', Raise e)
          else
            match fuel with
            | O => (s', Raise e)
            | S fuel' =>
                bind (sleep (wait attempt))
                     (fun _ => retrying stop wait retry fuel' (S attempt) body) s'
            end
        else (s', Raise e)
    end.

(** How one attempt of the fetch ends on a reply: a failed request
    raises, and it is the failure itself when that is one the decorator
    retries; a response of any body is a status error, a success or a bad
    schema. *)
Definition attempt_outcome (reply : Reply) (r : Res unit) : Prop :=
  match reply with
  | NetFail e =>
      exists e', r = Raise e' /\ (retry_if_exception_type e = true -> e' = e)
  | Response st _ | Garbled st _ =>
      (is_success st = false ->
       r = Raise (Exc MCPError ("Failed to fetch commands: " +:+ pretty st)))
      /\ (is_success st = true ->
          r = Ret tt
          \/ r = Raise (Exc MCPError "Invalid command schema received from server"))
  end.

(** A call of the fetch that started in [s] ended with its attempt number
    [n] on the reply given: [n] requests went out, a wait of 2 lies between
    two of them, and the attempt's outcome is the call's. *)
Definition ended_at (call : State * Res unit) (s : State) (n : nat)
    (reply : Reply) : Prop :=
  gets (fst call) = gets s + n
  /\ sleeps (fst call) = (sleeps s ++ repeat 2 (n - 1))%list
  /\ attempt_outcome reply (snd call).

(** [MCPClient._load_commands], decorated with [stop_after_attempt(3)],
    [wait_exponential(multiplier=1, min=2, max=10)] and
    [retry_if_exception_type((httpx.ConnectError, httpx.ReadTimeout))]. *)
Definition _load_commands : M unit :=
  retrying (stop_after_attempt 3) (wait_exponential 1 2 10)
    retry_if_exception_type 3 1 load_commands_once.

(** The [commands] property. *)
Definition commands : M (option (list Command)) :=
  cached <- read _commands ;;
  (match cached with
   | None => _load_commands
   | Some _ => ret tt
   end) ;;;
  read _commands.

(** The [command_map] property. *)
Definition command_map : M (gmap string Command) :=
  cached <- read _command_map ;;
  match cached with
  | None =>
      cmds <- commands ;;
      match cmds with
      | Some l => store_command_map (build_map l) ;;; ret (build_map l)
      | None => raise (Exc TypeError "'NoneType' object is not iterable")
      end
  | Some m => ret m
  end.

(** [response.json()["result"]]. *)
Definition result_of (body : Res json) : M json :=
  j <- response_json body ;;
  match j with
  | JObj entries =>
      match dict_get "result" entries with
      | Some r => ret r
      | None => raise (Exc KeyError "'result'")
      end
  | _ => raise (Exc TypeError "object is not subscriptable")
  end.

(** [MCPClient.execute_command(command_name, parameters=None)]. *)
Definition execute_command (command_name : string) (params : option dict)
  : M json :=
  m <- command_map ;;
  match m !! command_name with
  | None => raise (Exc CommandNotFoundError ("Command not found: " +:+ command_name))
  | Some _ =>
      let payload :=
        JObj [("command", JStr command_name);
              ("parameters", JObj (or_empty params))] in
      try_except
        (response <- http_post payload ;;
         raise_for_status (fst response) ;;;
         result_of (snd response))
        (fun e =>
           match e with
           | HTTPStatusError st =>
               if (st =? 404)%nat then
                 Some (raise (Exc CommandNotFoundError
                   ("Command execution failed - not found: " +:+ command_name)))
               else
                 Some (raise (Exc MCPError
                   ("Command execution failed: " +:+ pretty st)))
           | _ => None
           end)
  end.

(** *** Synthesized tools *)

(** pydantic's validation of one value against one annotation: the value
    the model then holds, which may be a conversion of the one supplied (the
    number for a text that spells it, where an [int] is expected), or
    nothing when the value is refused.  And Python's [str] on a command
    result. *)
Variable validates : PyType -> json -> option json.
Variable py_str : json -> string.

(** [MCPClient.get_tools]. *)
Definition get_tools : M (list StructuredTool) :=
  cmds <- commands ;;
  match cmds with
  | Some l => lift (res_map make_tool l)
  | None => raise (Exc TypeError "'NoneType' object is not iterable")
  end.

(** [tool_func], as made by [make_tool_func(command_name)], on its keyword
    arguments. *)
Definition tool_func (command_name : string) (kwargs : dict) : M string :=
  result <- execute_command command_name (Some kwargs) ;;
  ret (py_str result).

(** What the validated model holds for one field: a supplied value as
    the annotation's validator gives it back, the declared default of an
    omitted field; nothing when the value is refused or a field without a
    default is omitted.  Nothing looks at [field_enum]. *)
Definition field_value (args : dict) (fld : string * FieldInfo) : option json :=
  match dict_get (fst fld) args with
  | Some v => validates (annotation (snd fld)) v
  | None =>
      match field_default (snd fld) with
      | DefaultValue d => Some d
      | NoDefault | Ellipsis => None
      end
  end.

(** The two field names langchain-core never fills from a default. *)
Definition synthetic_name (k : string) : bool :=
  String.eqb k "args" || String.eqb k "kwargs".

(** The keyword arguments that [_parse_input] of langchain-core (1.0)
    makes of a validated input: in the order of the model's fields, the
    model's value of every field the caller supplied and the default of
    every omitted field, but not of one named [args] or [kwargs]; keys of
    the input that name no field are dropped.  Nothing comes back when some
    field has no value. *)
Fixpoint handed_on (args : dict) (schema : list (string * FieldInfo))
  : option dict :=
  match schema with
  | [] => Some []
  | fld :: schema' =>
      match field_value args fld, handed_on args schema' with
      | Some v, Some rest =>
          match dict_get (fst fld) args with
          | Some _ => Some ((fst fld, v) :: rest)
          | None =>
              if synthetic_name (fst fld) then Some rest
              else Some ((fst fld, v) :: rest)
          end
      | _, _ => None
      end
  end.

(** [args_schema.model_validate(tool_input)] as the tool's [run] calls
    it, and the keyword arguments made of the model.  The text of pydantic's
    error is not reproduced. *)
Definition validate_args (schema : list (string * FieldInfo)) (args : dict)
  : Res dict :=
  match handed_on args schema with
  | Some kwargs => Ret kwargs
  | None => Raise (Exc ValidationError "validation error")
  end.

(** [tool.invoke(args)]: validation first, then the function. *)
Definition invoke (tool : StructuredTool) (args : dict) : M string :=
  kwargs <- lift (validate_args (args_schema tool) args) ;;
  tool_func (tool_name tool) kwargs.

(** The state a use leaves behind, whether it returns or raises. *)
Definition perform (c : Call) (s : State) : State :=
  match c with
  | UseCommands => fst (commands s)
  | UseCommandMap => fst (command_map s)
  | UseExecute n params => fst (execute_command n params s)
  | UseGetTools => fst (get_tools s)
  | UseInvoke tool args => fst (invoke tool args s)
  end.

(** A lifetime of uses, in order. *)
Definition perform_all (calls : list Call) (s : State) : State :=
  foldl (fun s c => perform c s) s calls.

End Client.

(** The catalog is loaded: [_commands] holds it, and [_command_map] is
    either not built yet or the dictionary built from it. *)
Definition populated (s : State) (cmds : list Command) : Prop :=
  _commands s = Some cmds /\
  (_command_map s = None \/ _command_map s = Some (build_map cmds)).

End MCP.

(** ** The supervisor graph, [src/workflow/graph.py] *)

Module Graph.
Import Py PyStr.

(** [class Agent(str, Enum)] and its values. *)
Inductive Agent : Type := RESEARCHER | DEVELOPER | TESTER | FINISH.

Definition value (a : Agent) : string :=
  match a with
  | RESEARCHER => "researcher"
  | DEVELOPER => "developer"
  | TESTER => "tester"
  | FINISH => "finish"
  end.

(** [class AgentState(TypedDict)]. *)
Record AgentState : Type := {
  query : string;
  steps : list string;
  current_task : string;
  result : string
}.

Definition SUPERVISOR_NODE : string := "supervisor".
Definition MAX_ITERATIONS : nat := 20.

(** langgraph's [END] and the default [recursion_limit] of [invoke]. *)
Definition END : string := "__end__".
Definition recursion_limit : nat := 25.

Definition newline : string := String (ascii_of_nat 10) EmptyString.

(** The language model, as the graph meets it: what the supervisor's chain
    answers at a given superstep to a query and the joined trace, and what
    the named agent's [act] answers to a query.  Either may raise. *)
Record Oracle : Type := {
  route_answer : nat -> string -> string -> Res string;
  agent_answer : nat -> string -> string -> Res string
}.

(** The [if]/[elif] chain of [_supervisor_node] on the stripped, lowered
    answer. *)
Definition next_agent_of (raw_next_agent : string) : string :=
  if contains "researcher" raw_next_agent then value RESEARCHER
  else if contains "developer" raw_next_agent then value DEVELOPER
  else if contains "tester" raw_next_agent then value TESTER
  else if contains "finish" raw_next_agent then value FINISH
  else value RESEARCHER.

(** [Workflow._supervisor_node], given what [chain.invoke] came back with;
    the state returned is the input state with the node's update applied. *)
Definition _supervisor_node (answer : Res string) (state : AgentState)
  : Res AgentState :=
  match answer with
  | Ret text =>
      let raw_next_agent := lower (strip text) in
      let next_agent := next_agent_of raw_next_agent in
      Ret {| query := query state;
             steps := steps state ++ ["Routed to " +:+ next_agent];
             current_task := next_agent;
             result := result state |}
  | Raise e =>
      if is_class OutputParserException e then
        Ret {| query := query state;
               steps := steps state ++ ["Fallback to researcher due to parsing error"];
               current_task := value RESEARCHER;
               result := result state |}
      else Raise e
  end.

(** [result[:100] + "..." if len(result) > 100 else result].  [len] and
    the slice count characters, one [ascii] each here; what is stated of
    lengths below is stated for text in ASCII. *)
Definition truncated (result : string) : string :=
  if (100 <? String.length result)%nat then take 100 result +:+ "..." else result.

(** The [node] made by [Workflow._agent_node(agent, name)], given what
    [agent.act] came back with. *)
Definition agent_node (name : string) (answer : Res string) (state : AgentState)
  : AgentState :=
  match answer with
  | Ret res =>
      {| query := query state;
         steps := steps state ++ [name +:+ " result: " +:+ truncated res];
         current_task := current_task state;
         result := res |}
  | Raise e =>
      let error_msg := "Error in " +:+ name +:+ ": " +:+ exn_str e in
      {| query := query state;
         steps := steps state ++ [error_msg];
         current_task := current_task state;
         result := error_msg |}
  end.

(** [path_map] of [_build_graph]: the three agents map to themselves,
    ["finish"] maps to [END]. *)
Definition path_map : list (string * string) :=
  [(value RESEARCHER, value RESEARCHER);
   (value DEVELOPER, value DEVELOPER);
   (value TESTER, value TESTER);
   (value FINISH, END)].

Fixpoint path_get (key : string) (m : list (string * string)) : option string :=
  match m with
  | [] => None
  | (k, v) :: m' => if String.eqb k key then Some v else path_get key m'
  end.

(** The function [route] of [_build_graph]. *)
Definition route (state : AgentState) : string :=
  let task := current_task state in
  if String.eqb task (value FINISH) then END
  else if (MAX_ITERATIONS <? length (steps state))%nat then END
  else match path_get task path_map with
       | Some node => node
       | None => value RESEARCHER
       end.

(** [add_conditional_edges(SUPERVISOR_NODE, route, path_map)]: langgraph
    takes the destination to be [path_map[r]] for the value [r] that
    [route] returns, a plain dictionary index that raises [KeyError] on a
    key the map does not hold. *)
Definition branch_destination (r : string) : Res string :=
  match path_get r path_map with
  | Some node => Ret node
  | None => Raise (Exc KeyError ("'" +:+ r +:+ "'"))
  end.

Section Workflow.
Variable oracle : Oracle.

(** The compiled graph at work: from [node] with [state], at superstep
    [tick], with [fuel] supersteps left before langgraph gives up.  The
    result is the state reached when the run stops and how it stops: at
    [END], or with an exception.  The supervisor is followed by the
    conditional edge, an agent by the edge back to the supervisor. *)
Fixpoint drive (fuel tick : nat) (node : string) (state : AgentState)
  : AgentState * Res unit :=
  match fuel with
  | O => (state, Raise (Exc GraphRecursionError "Recursion limit reached"))
  | S fuel' =>
      if String.eqb node SUPERVISOR_NODE then
        match _supervisor_node
                (route_answer oracle tick (query state)
                   (join newline (steps state))) state with
        | Raise e => (state, Raise e)
        | Ret state' =>
            match branch_destination (route state') with
            | Raise e => (state', Raise e)
            | Ret dest =>
                if String.eqb dest END then (state', Ret tt)
                else drive fuel' (S tick) dest state'
            end
        end
      else
        drive fuel' (S tick) SUPERVISOR_NODE
          (agent_node node (agent_answer oracle tick node (query state)) state)
  end.

(** [initial_state] of [run]. *)
Definition initial_state (q : string) : AgentState :=
  {| query := q; steps := []; current_task := EmptyString;
     result := EmptyString |}.

(** [self.graph.invoke(initial_state)]. *)
Definition invoke (state : AgentState) : Res AgentState :=
  match drive recursion_limit 0 SUPERVISOR_NODE state with
  | (state', Ret _) => Ret state'
  | (_, Raise e) => Raise e
  end.

(** [Workflow.run(query)]: the [try] returns the final state's [result],
    the [except Exception] returns the error text. *)
Definition run (q : string) : Res string :=
  match invoke (initial_state q) with
  | Ret result_state => Ret (result result_state)
  | Raise e => Ret ("Error during workflow execution: " +:+ exn_str e)
  end.

End Workflow.

End Graph.
(** ** The command server, [mcp_server/main.py] *)

Module CommandServer.
Import Py MCP.

(** A parsed program as [SafetyVisitor] tells its nodes apart: the two
    import statements, a call with its callee followed by its arguments and
    keywords, a name, and any other node with its child nodes in field
    order. *)
Inductive Ast : Type :=
| Import
| ImportFrom
| Call (func : Ast) (rest : list Ast)
| Name (id : string)
| Node (children : list Ast).

(** [node.func.id in {'exec', 'eval', 'compile'}]. *)
Definition banned (id : string) : bool :=
  String.eqb id "exec" || String.eqb id "eval" || String.eqb id "compile".

(** The interpreter's stack, as the visitor meets it: for a node reached
    through the nodes that follow it in the list (its parent first), whether
    the calls the visitor makes for that node, before it goes into the node's
    children, exceed the recursion limit, and then the text of the
    [RecursionError].  How deep the limit lies depends on the interpreter and
    on the calls the handler itself stands on. *)
Definition Stack : Type := list Ast -> option string.

(** A stack that is never exhausted. *)
Definition deep_stack : Stack := fun _ => None.

Section Visitor.
Variable overflow : Stack.

(** [SafetyVisitor.visit] on a node reached through [path]: when the stack
    is exhausted [RecursionError], a [RuntimeError], is raised; otherwise
    [visit_Import] and [visit_ImportFrom] raise, [visit_Call] raises on a
    banned callee name and otherwise goes on with [generic_visit], which
    visits the children in order; every other node gets [generic_visit]. *)
Fixpoint visit (path : list Ast) (node : Ast) : Res unit :=
  let generic_visit :=
    fix generic_visit (children : list Ast) : Res unit :=
      match children with
      | [] => Ret tt
      | child :: children' =>
          res_bind (visit (node :: path) child)
                   (fun _ => generic_visit children')
      end in
  match overflow (node :: path) with
  | Some msg => Raise (Exc RuntimeError msg)
  | None =>
      match node with
      | Import | ImportFrom => Raise (Exc ValueError "Imports are not allowed")
      | Call func rest =>
          match func with
          | Name id =>
              if banned id
              then Raise (Exc ValueError
                            ("Call to '" +:+ id +:+ "' is not allowed"))
              else generic_visit (func :: rest)
          | _ => generic_visit (func :: rest)
          end
      | Name _ => Ret tt
      | Node children => generic_visit children
      end
  end.

(** [generic_visit] on the children of a node reached through [path], by
    itself. *)
Fixpoint visit_all (path : list Ast) (children : list Ast) : Res unit :=
  match children with
  | [] => Ret tt
  | child :: children' =>
      res_bind (visit path child) (fun _ => visit_all path children')
  end.

End Visitor.

(** The tree holds what the visitor is there to refuse: an import statement,
    or a call whose callee is one of the banned names, at any depth. *)
Inductive Forbidden : Ast -> Prop :=
| forbidden_import : Forbidden Import
| forbidden_import_from : Forbidden ImportFrom
| forbidden_call (id : string) (rest : list Ast) :
    banned id = true -> Forbidden (Call (Name id) rest)
| forbidden_in_callee (func : Ast) (rest : list Ast) :
    Forbidden func -> Forbidden (Call func rest)
| forbidden_in_argument (func arg : Ast) (rest : list Ast) :
    In arg rest -> Forbidden arg -> Forbidden (Call func rest)
| forbidden_in_child (child : Ast) (children : list Ast) :
    In child children -> Forbidden child -> Forbidden (Node children).

(** How the handlers tell failures apart: [except (SyntaxError, ValueError)]
    against [except Exception]. *)
Inductive FailureKind : Type := SyntaxFailure | ValueFailure | OtherFailure.

Inductive Outcome (A : Type) : Type :=
| Done (a : A)
| Failed (kind : FailureKind) (msg : string).
Arguments Done {A} a.
Arguments Failed {A} kind msg.

(** What [exec] of a compiled program does: how it ends, with the text it
    printed into the capture buffer or with a failure, and whether the
    program itself assigned [sys.stdout], which it can reach through the
    builtins it is given, and then whether what it left there is something
    other than the process's own stream. *)
Record Run : Type := {
  ended : Outcome string;
  stream_set : option bool
}.

(** What the handler calls out to: the search wrapper's [run],
    [ast.parse], the stack the visitor runs on, [compile] on a checked tree,
    and [exec] of the compiled code under the safe builtins.  A failure is an
    exception of class [Exception] with its text. *)
Record Host : Type := {
  search_run : json -> Outcome string;
  ast_parse : json -> Outcome Ast;
  stack : Stack;
  compile_tree : Ast -> Outcome unit;
  exec_code : Ast -> Run
}.

(** [raise HTTPException(status, detail)] as the response FastAPI sends. *)
Definition http_exception (status_code : nat) (detail : string) : Reply :=
  Response status_code (Some (JObj [("detail", JStr detail)])).

(** [return {"result": text}]. *)
Definition result_reply (text : string) : Reply :=
  Response 200 (Some (JObj [("result", JStr text)])).

(** The two [except] clauses of the [code_execution] branch. *)
Definition code_failure (kind : FailureKind) (msg : string) : Reply :=
  match kind with
  | SyntaxFailure | ValueFailure => http_exception 400 ("Invalid code: " +:+ msg)
  | OtherFailure => http_exception 500 msg
  end.

(** The clause an exception of the visitor falls to. *)
Definition kind_of (e : Exn) : FailureKind :=
  if is_class ValueError e then ValueFailure else OtherFailure.

(** [get_commands]. *)
Definition get_commands : json :=
  JArr [JObj [("name", JStr "web_search");
              ("description", JStr "Search the web using DuckDuckGo");
              ("parameters",
               JObj [("properties",
                      JObj [("query", JObj [("type", JStr "string");
                                            ("description", JStr "Search query")])]);
                     ("required", JArr [JStr "query"])])];
        JObj [("name", JStr "code_execution");
              ("description", JStr "Execute Python code safely");
              ("parameters",
               JObj [("properties",
                      JObj [("code", JObj [("type", JStr "string");
                                           ("description",
                                            JStr "Python code to execute")])]);
                     ("required", JArr [JStr "code"])])]].

Section Server.
Variable host : Host.

(** [execute(req)] on a validated request.  The flag says whether
    [sys.stdout] is something other than the process's own stream; the
    handler saves the current stream before [exec] and puts it back on the
    line after it, which a raising [exec] skips: the stream is then the
    capture buffer, or what the program itself left there. *)
Definition execute (redirected : bool) (command : string) (params : dict)
  : Reply * bool :=
  if String.eqb command "web_search" then
    match dict_get "query" params with
    | None => (http_exception 400 "Missing 'query' parameter", redirected)
    | Some q =>
        match search_run host q with
        | Done results => (result_reply results, redirected)
        | Failed _ msg => (http_exception 500 msg, redirected)
        end
    end
  else if String.eqb command "code_execution" then
    match dict_get "code" params with
    | None => (http_exception 400 "Missing 'code' parameter", redirected)
    | Some code =>
        match ast_parse host code with
        | Failed kind msg => (code_failure kind msg, redirected)
        | Done tree =>
            match visit (stack host) [] tree with
            | Raise e => (code_failure (kind_of e) (exn_str e), redirected)
            | Ret _ =>
                match compile_tree host tree with
                | Failed kind msg => (code_failure kind msg, redirected)
                | Done _ =>
                    match ended (exec_code host tree) with
                    | Done out => (result_reply out, redirected)
                    | Failed kind msg =>
                        (code_failure kind msg,
                         match stream_set (exec_code host tree) with
                         | Some kept => kept
                         | None => true
                         end)
                    end
                end
            end
        end
    end
  else (http_exception 404 "Command not found", redirected).

(** The [POST /execute] route: the body must be an [ExecuteRequest], a text
    [command] and a dict [parameters]; FastAPI answers anything else with a
    422 (the list of errors it sends is not reproduced). *)
Definition post_execute (redirected : bool) (payload : json) : Reply * bool :=
  match payload with
  | JObj entries =>
      match dict_get "command" entries, dict_get "parameters" entries with
      | Some (JStr command), Some (JObj params) =>
          execute redirected command params
      | _, _ => (http_exception 422 "Unprocessable Entity", redirected)
      end
  | _ => (http_exception 422 "Unprocessable Entity", redirected)
  end.

(** The requests of a list served one after the other by one process. *)
Fixpoint serve (redirected : bool) (requests : list json)
  : list Reply * bool :=
  match requests with
  | [] => ([], redirected)
  | payload :: later =>
      let (reply, redirected') := post_execute redirected payload in
      let (replies, final) := serve redirected' later in
      (reply :: replies, final)
  end.

(** The server as a client meets it. *)
Definition as_server : Server :=
  {| on_get := fun _ => Response 200 (Some get_commands);
     on_post := fun _ payload => fst (post_execute false payload) |}.

End Server.

(** The request is a [code_execution] whose code passes the parser, the
    visitor and [compile], and raises while it runs, having done to
    [sys.stdout] what [touched] says. *)
Definition fails_running (host : Host) (payload : json)
    (touched : option bool) : Prop :=
  exists entries params code tree kind msg,
    payload = JObj entries
    /\ dict_get "command" entries = Some (JStr "code_execution")
    /\ dict_get "parameters" entries = Some (JObj params)
    /\ dict_get "code" params = Some code
    /\ ast_parse host code = Done tree
    /\ visit (stack host) [] tree = Ret tt
    /\ compile_tree host tree = Done tt
    /\ exec_code host tree = {| ended := Failed kind msg; stream_set := touched |}.

(** The host with another [compile] and another [exec]. *)
Definition with_runner (host : Host) (compile' : Ast -> Outcome unit)
    (exec' : Ast -> Run) : Host :=
  {| search_run := search_run host; ast_parse := ast_parse host;
     stack := stack host; compile_tree := compile'; exec_code := exec' |}.

(** What the visitor does with a tree: it passes it, and then nothing
    forbidden is in it; or it raises [ValueError], and then something is; or
    the stack was exhausted at some node. *)
Definition judged (overflow : Stack) (path : list Ast) (t : Ast) : Prop :=
  (visit overflow path t = Ret tt /\ ~ Forbidden t)
  \/ ((exists msg, visit overflow path t = Raise (Exc ValueError msg))
      /\ Forbidden t)
  \/ (exists msg chain, visit overflow path t = Raise (Exc RuntimeError msg)
                        /\ overflow chain = Some msg).

(** The callee of a call is one of the banned names. *)
Definition callee_banned (func : Ast) : bool :=
  match func with
  | Name id => banned id
  | _ => false
  end.

(** The two commands as the client parses them from [get_commands]. *)
Definition web_search_cmd : Command :=
  {| name := "web_search"; description := "Search the web using DuckDuckGo";
     parameters :=
       [("properties",
         JObj [("query", JObj [("type", JStr "string");
                               ("description", JStr "Search query")])]);
        ("required", JArr [JStr "query"])] |}.

Definition code_execution_cmd : Command :=
  {| name := "code_execution"; description := "Execute Python code safely";
     parameters :=
       [("properties",
         JObj [("code", JObj [("type", JStr "string");
                              ("description", JStr "Python code to execute")])]);
        ("required", JArr [JStr "code"])] |}.

Definition served : list Command := [web_search_cmd; code_execution_cmd].

End CommandServer.

(** ** The assistant's route, [api/routes.py] *)

Module Api.
Import Py MCP.

(** What [workflow.run(request.query)] hands to [await]: the text a plain
    method returns, or an awaitable with what awaiting it gives. *)
Inductive Returned : Type :=
| Plain (text : string)
| Awaitable (outcome : Res string).

(** [await v]. *)
Definition await (v : Returned) : Res string :=
  match v with
  | Plain _ =>
      Raise (Exc TypeError "object str can't be used in 'await' expression")
  | Awaitable outcome => outcome
  end.

(** [result.startswith("Workflow execution failed") or
    "error" in result.lower()]. *)
Definition looks_failed (result : string) : bool :=
  String.prefix "Workflow execution failed" result
  || PyStr.contains "error" (PyStr.lower result).

(** The answer holds the word [error] in some mix of capitals and small
    letters. *)
Definition mentions_error (result : string) : Prop :=
  exists pre w post, result = pre +:+ w +:+ post /\ PyStr.lower w = "error".

(** [AssistResponse(result=result)] as the route sends it. *)
Definition assist_response (result : string) : Reply :=
  Response 200 (Some (JObj [("result", JStr result); ("error", JNull)])).

(** The [HTTPException] of the [except] clause. *)
Definition assist_failure (message query : string) : Reply :=
  Response 500
    (Some (JObj [("detail",
                  JObj [("error", JStr "workflow_execution_failed");
                        ("message", JStr message);
                        ("query", JStr query)])])).

(** [assist(request, workflow)] on a validated request, for a workflow
    whose [run] is the function given. *)
Definition assist (run : string -> Res Returned) (query : string) : Reply :=
  let body :=
    res_bind (res_bind (run query) await) (fun result =>
      if looks_failed result then Raise (Exc ValueError result)
      else Ret result) in
  match body with
  | Ret result => assist_response result
  | Raise exc => assist_failure (exn_str exc) query
  end.

(** The route over the workflow of [get_workflow]: [Workflow.run] is a
    plain method that returns text. *)
Definition assist_workflow (oracle : Graph.Oracle) (query : string) : Reply :=
  assist (fun q => res_bind (Graph.run oracle q) (fun text => Ret (Plain text)))
    query.

End Api.

(** ** Concrete servers and arguments

    The instances at which the general statements are exercised. *)

Module Examples.
Import Py MCP.

(** The value is of the JSON kind the annotation names. *)
Fixpoint same_kind (t : PyType) (v : json) : bool :=
  match t with
  | TStr => match v with JStr _ => true | _ => false end
  | TFloat => match v with JFloat _ _ => true | _ => false end
  | TInt => match v with JInt _ => true | _ => false end
  | TBool => match v with JBool _ => true | _ => false end
  | TList => match v with JArr _ => true | _ => false end
  | TDict => match v with JObj _ => true | _ => false end
  | TNone => match v with JNull => true | _ => false end
  | TAny => true
  | TOptional t' => match v with JNull => true | _ => same_kind t' v end
  | TUnion ts => existsb (fun t' => same_kind t' v) ts
  end.

(** The number a text of decimal digits spells. *)
Fixpoint digits_value (acc : Z) (s : string) : option Z :=
  match s with
  | EmptyString => Some acc
  | String a s' =>
      let n := nat_of_ascii a in
      if ((48 <=? n) && (n <=? 57))%nat
      then digits_value (10 * acc + Z.of_nat (n - 48)) s'
      else None
  end.

Definition int_of_digits (s : string) : option Z :=
  match s with
  | EmptyString => None
  | _ => digits_value 0 s
  end.

(** The validator on decoded JSON arguments: each annotation takes the
    values of its own JSON kind as they are; of pydantic's lax conversions
    between kinds two are included, the number for an [int] given as a text
    of decimal digits and the [float] for an [int]; the others (signs and
    blanks in such a text, 0 and 1 for a [bool], ...) are left out, and no
    example below depends on them.  A [Union] takes a value of the kind of
    one of its members as it is, and otherwise the first conversion. *)
Fixpoint json_validates (t : PyType) (v : json) : option json :=
  match t with
  | TInt =>
      match v with
      | JInt _ => Some v
      | JStr s => option_map JInt (int_of_digits s)
      | _ => None
      end
  | TFloat =>
      match v with
      | JFloat _ _ => Some v
      | JInt z => Some (JFloat z 0)
      | _ => None
      end
  | TOptional t' =>
      match v with
      | JNull => Some v
      | _ => json_validates t' v
      end
  | TUnion ts =>
      if existsb (fun t' => same_kind t' v) ts then Some v
      else
        (fix first (ts : list PyType) : option json :=
           match ts with
           | [] => None
           | t' :: ts' =>
               match json_validates t' v with
               | Some v' => Some v'
               | None => first ts'
               end
           end) ts
  | _ => if same_kind t v then Some v else None
  end.

(** [str] on a result that is text; the examples return nothing else. *)
Definition text_of (v : json) : string :=
  match v with
  | JStr s => s
  | _ => EmptyString
  end.

Definition command_json (n d : string) (params : dict) : json :=
  JObj [("name", JStr n); ("description", JStr d); ("parameters", JObj params)].

(** A command with one required text field that declares an enumeration. *)
Definition choice_info : dict :=
  [("type", JStr "string"); ("enum", JArr [JStr "a"; JStr "b"])].

Definition pick_params : dict :=
  [("properties", JObj [("choice", JObj choice_info)]);
   ("required", JArr [JStr "choice"])].

(** The command of the test fixture, and with it two fields that are not
    required: [limit] declares no default, [lang] declares one. *)
Definition query_info : dict :=
  [("type", JStr "string"); ("description", JStr "Search query")].

Definition search_props : dict :=
  [("query", JObj query_info);
   ("limit", JObj [("type", JStr "integer")]);
   ("lang", JObj [("type", JStr "string"); ("default", JStr "en")])].

Definition search_params : dict :=
  [("properties", JObj search_props); ("required", JArr [JStr "query"])].

Definition pick_cmd : Command :=
  {| name := "pick"; description := "Pick one"; parameters := pick_params |}.

Definition search_cmd : Command :=
  {| name := "web_search"; description := "Search the internet";
     parameters := search_params |}.

(** The tools [get_tools] makes of the two commands. *)
Definition pick_tool : StructuredTool :=
  {| tool_name := "pick"; tool_description := "Pick one";
     args_schema :=
       [("choice", {| annotation := TStr; field_default := NoDefault;
                      field_description := None;
                      field_enum := Some (JArr [JStr "a"; JStr "b"]) |})] |}.

Definition search_tool : StructuredTool :=
  {| tool_name := "web_search"; tool_description := "Search the internet";
     args_schema :=
       [("query", {| annotation := TStr; field_default := NoDefault;
                     field_description := Some (JStr "Search query");
                     field_enum := None |});
        ("limit", {| annotation := TInt; field_default := Ellipsis;
                     field_description := None; field_enum := None |});
        ("lang", {| annotation := TStr; field_default := DefaultValue (JStr "en");
                    field_description := None; field_enum := None |})] |}.

(** A command with one required field of type integer, its tool, and a
    client that holds it. *)
Definition repeat_cmd : Command :=
  {| name := "repeat"; description := "Repeat a step";
     parameters :=
       [("properties", JObj [("times", JObj [("type", JStr "integer")])]);
        ("required", JArr [JStr "times"])] |}.

Definition repeat_tool : StructuredTool :=
  {| tool_name := "repeat"; tool_description := "Repeat a step";
     args_schema :=
       [("times", {| annotation := TInt; field_default := NoDefault;
                     field_description := None; field_enum := None |})] |}.

Definition repeat_state : State :=
  {| _commands := Some [repeat_cmd]; _command_map := None; gets := 1;
     posts := []; sleeps := [] |}.

Definition catalog : json :=
  JArr [command_json "pick" "Pick one" pick_params;
        command_json "web_search" "Search the internet" search_params].

Definition ok_reply : Reply :=
  Response 200 (Some (JObj [("result", JStr "done")])).

(** A server that always answers. *)
Definition good_server : Server :=
  {| on_get := fun _ => Response 200 (Some catalog);
     on_post := fun _ _ => ok_reply |}.

(** A server whose first answer to the catalog request is a 500. *)
Definition recovering_server : Server :=
  {| on_get := fun n => match n with
                        | O => Response 500 None
                        | S _ => Response 200 (Some catalog)
                        end;
     on_post := fun _ _ => ok_reply |}.

(** A server that refuses the first connection and answers the second
    catalog request with a 503. *)
Definition overloaded_server : Server :=
  {| on_get := fun n => match n with
                        | O => NetFail (Exc ConnectError "All connection attempts failed")
                        | S _ => Response 503 None
                        end;
     on_post := fun _ _ => ok_reply |}.

(** A server no connection to which succeeds. *)
Definition refused : Exn := Exc ConnectError "All connection attempts failed".

Definition unreachable_server : Server :=
  {| on_get := fun _ => NetFail refused; on_post := fun _ _ => NetFail refused |}.

(** The client once [good_server]'s catalog is loaded. *)
Definition loaded : State := fst (commands good_server init).

(** A model that always routes to the researcher, whose agents always
    answer. *)
Definition researcher_forever : Graph.Oracle :=
  {| Graph.route_answer := fun _ _ _ => Ret "researcher";
     Graph.agent_answer := fun _ _ _ => Ret "found" |}.




End Examples.

(** ** Further notions about the client *)

Module MCPMore.
Import Py MCP.

(** The cache is coherent: a command dictionary, when one is held, is the
    dictionary of the cached catalog. *)
Definition coherent (s : State) : Prop :=
  match _command_map s with
  | Some m => exists cmds, _commands s = Some cmds /\ m = build_map cmds
  | None => True
  end.

(** pydantic's [cmd.model_dump()] of a [Command], as the test fixture feeds
    it back through the mocked [GET /commands]. *)
Definition model_dump (cmd : Command) : json :=
  JObj [("name", JStr (name cmd));
        ("description", JStr (description cmd));
        ("parameters", JObj (parameters cmd))].

(** The payload [execute_command] builds. *)
Definition payload_of (command_name : string) (params : option dict) : json :=
  JObj [("command", JStr command_name); ("parameters", JObj (or_empty params))].

End MCPMore.

(** ** Further concrete servers, states and models *)

Module MoreExamples.
Import Py MCP MCPMore Examples.

(** A server that delivers the catalog and answers every execute request
    with the given status and body. *)
Definition answering (status_code : nat) (body : option json) : Server :=
  {| on_get := fun _ => Response 200 (Some catalog);
     on_post := fun _ _ => Response status_code body |}.

(** A server that delivers the catalog and answers every execute request
    with the given status and a body that is not JSON, for which decoding
    fails with the message given. *)
Definition garbling (status_code : nat) (decode_error : string) : Server :=
  {| on_get := fun _ => Response 200 (Some catalog);
     on_post := fun _ _ => Garbled status_code decode_error |}.

(** A server whose first catalog request meets a refused connection. *)
Definition flaky_server : Server :=
  {| on_get := fun n => match n with
                        | O => NetFail refused
                        | S _ => Response 200 (Some catalog)
                        end;
     on_post := fun _ _ => ok_reply |}.

(** The records of [catalog], and the description of [lang] in
    [search_props]. *)
Definition catalog_items : list json :=
  [command_json "pick" "Pick one" pick_params;
   command_json "web_search" "Search the internet" search_params].

Definition lang_info : dict := [("type", JStr "string"); ("default", JStr "en")].

(** A command that declares no parameters, and a client that holds it. *)
Definition ping_cmd : Command :=
  {| name := "no_params_command"; description := "Command without parameters";
     parameters := [] |}.

Definition ping_state : State :=
  {| _commands := Some [ping_cmd]; _command_map := None; gets := 1;
     posts := []; sleeps := [] |}.

(** A model whose router fails to parse at once, and one whose router
    breaks. *)
Definition unparsable : Exn := Exc OutputParserException "Invalid output".
Definition broken : Exn := Exc RuntimeError "model unavailable".

Definition parse_failing : Graph.Oracle :=
  {| Graph.route_answer := fun _ _ _ => Raise unparsable;
     Graph.agent_answer := fun _ _ _ => Ret "found" |}.

Definition router_down : Graph.Oracle :=
  {| Graph.route_answer := fun _ _ _ => Raise broken;
     Graph.agent_answer := fun _ _ _ => Ret "found" |}.

(** The state after the supervisor has routed to the developer. *)
Definition routed_to_developer : Graph.AgentState :=
  {| Graph.query := "q"; Graph.steps := ["Routed to developer"];
     Graph.current_task := "developer"; Graph.result := EmptyString |}.

End MoreExamples.

(** ** Concrete programs, a host and a client for the command server *)

Module ServerExamples.
Import Py MCP CommandServer Api.

#[local] Open Scope list_scope.

(** [eval(x)], [print(1)] and [1/0] as modules of one expression
    statement. *)
Definition eval_call : Ast := Node [Node [Call (Name "eval") [Name "x"]]].

Definition printing : Ast := Node [Node [Call (Name "print") [Node []]]].

Definition dividing : Ast := Node [Node [Node [Node []; Node []; Node []]]].

(** [1/0] after the program has put the process's own stream back. *)
Definition restoring : Ast :=
  Node [Node [Node [Node []]]; Node [Node [Node []; Node []; Node []]]].

(** A host that parses these programs and no other, has room on its stack
    for every tree, compiles every tree, and runs every tree but the two
    that divide by zero. *)
Definition small_host : Host :=
  {| search_run := fun q =>
       match q with
       | JStr text => Done ("results for " +:+ text)
       | _ => Failed OtherFailure "unsupported query"
       end;
     ast_parse := fun code =>
       match code with
       | JStr text =>
           if String.eqb text "eval(x)" then Done eval_call
           else if String.eqb text "print(1)" then Done printing
           else if String.eqb text "1/0" then Done dividing
           else if String.eqb text "restore(); 1/0" then Done restoring
           else Failed SyntaxFailure "invalid syntax"
       | _ => Failed OtherFailure "expected str, bytes or AST object"
       end;
     stack := deep_stack;
     compile_tree := fun _ => Done tt;
     exec_code := fun tree =>
       match tree with
       | Node [Node [Node _]] =>
           {| ended := Failed OtherFailure "division by zero";
              stream_set := None |}
       | Node [_; _] =>
           {| ended := Failed OtherFailure "division by zero";
              stream_set := Some false |}
       | _ => {| ended := Done "1"; stream_set := None |}
       end |}.

(** The same host on a stack with room for one node only. *)
Definition shallow_host : Host :=
  {| search_run := search_run small_host; ast_parse := ast_parse small_host;
     stack := fun chain =>
       match chain with
       | [_] => None
       | _ => Some "maximum recursion depth exceeded"
       end;
     compile_tree := compile_tree small_host;
     exec_code := exec_code small_host |}.

(** An [execute] request for the program given. *)
Definition run_request (code : string) : json :=
  JObj [("command", JStr "code_execution");
        ("parameters", JObj [("code", JStr code)])].

(** A client that has fetched the server's catalog. *)
Definition fetched : State :=
  {| _commands := Some served; _command_map := None; gets := 1;
     posts := []; sleeps := [] |}.

(** A workflow whose [run] is awaitable and gives the text. *)
Definition answering_with (text : string) (q : string) : Res Returned :=
  Ret (Awaitable (Ret text)).

End ServerExamples.

(** * Facts about the text operations *)

Module PyStrFacts.
Import PyStr.

Lemma prefix_app (pat post : string) : String.prefix pat (pat +:+ post) = true.
Proof. induction pat as [|a pat IH]; simpl.
  - by destruct post.
  - destruct (ascii_dec a a); [exact IH | congruence].
Qed.

Lemma prefix_split (pat s : string) :
  String.prefix pat s = true -> exists post, s = pat +:+ post.
Proof.
  revert s. induction pat as [|a pat IH]; intros s H.
  - exists s. reflexivity.
  - destruct s as [|b s]; simpl in H; [discriminate|].
    destruct (ascii_dec a b) as [->|]; [|discriminate].
    destruct (IH _ H) as [post ->]. by exists post.
Qed.

Lemma contains_app (pat pre post : string) :
  contains pat (pre +:+ pat +:+ post) = true.
Proof.
  induction pre as [|a pre IH].
  - change (contains pat (pat +:+ post) = true).
    generalize (prefix_app pat post).
    destruct (pat +:+ post); cbn [contains]; by intros ->.
  - simpl. rewrite IH. apply orb_true_r.
Qed.

Lemma contains_split (pat s : string) :
  contains pat s = true -> exists pre post, s = pre +:+ pat +:+ post.
Proof.
  induction s as [|a s IH]; cbn [contains]; intros H.
  - rewrite orb_false_r in H. destruct (prefix_split _ _ H) as [post ->].
    by exists EmptyString, post.
  - apply orb_true_iff in H as [H|H].
    + destruct (prefix_split _ _ H) as [post ->]. by exists EmptyString, post.
    + destruct (IH H) as (pre & post & ->). by exists (String a pre), post.
Qed.

(** [contains] is exactly the occurrence of [pat] with some text before and
    after it. *)
Lemma contains_spec (pat s : string) :
  contains pat s = true <-> occurs pat s.
Proof.
  split; [apply contains_split|]. intros (pre & post & ->). apply contains_app.
Qed.

Lemma lower_app (s t : string) : lower (s +:+ t) = lower s +:+ lower t.
Proof. induction s as [|a s IH]; simpl; [done | by rewrite IH]. Qed.

Lemma no_space_lower_char (a : ascii) :
  is_space (lower_char a) = true -> is_space a = true.
Proof.
  destruct a as [[] [] [] [] [] [] [] []]; vm_compute; congruence.
Qed.

Lemma no_space_lower (s : string) : no_space (lower s) = true -> no_space s = true.
Proof.
  induction s as [|a s IH]; simpl; [done|]. intros H.
  apply andb_true_iff in H as [Ha Hs]. rewrite (IH Hs), andb_true_r.
  destruct (is_space a) eqn:E; [|done].
  destruct a as [[] [] [] [] [] [] [] []]; vm_compute in E; try discriminate;
    vm_compute in Ha; discriminate.
Qed.

(** A word without white space survives [lstrip] wherever it stands. *)
Lemma lstrip_keeps (pre w post : string) :
  w <> EmptyString -> no_space w = true ->
  exists pre', lstrip (pre +:+ w +:+ post) = pre' +:+ w +:+ post.
Proof.
  intros Hw Hn. induction pre as [|a pre IH]; simpl.
  - exists EmptyString. destruct w as [|b w]; [done|]. simpl in *.
    apply andb_true_iff in Hn as [Hb _]. apply negb_true_iff in Hb.
    by rewrite Hb.
  - destruct (is_space a); [exact IH | by exists (String a pre)].
Qed.

Lemma app_cons (a : ascii) (s t : string) : String a s +:+ t = String a (s +:+ t).
Proof. reflexivity. Qed.

Lemma app_empty (t : string) : EmptyString +:+ t = t.
Proof. reflexivity. Qed.

Lemma rstrip_app_word (w post : string) :
  w <> EmptyString -> no_space w = true ->
  exists post', rstrip (w +:+ post) = w +:+ post'.
Proof.
  intros Hw Hn. revert Hw Hn. induction w as [|a w IH]; [done|].
  intros _ Hn. cbn [no_space] in Hn. apply andb_true_iff in Hn as [Ha Hn].
  apply negb_true_iff in Ha. rewrite app_cons. cbn [rstrip].
  destruct w as [|b w].
  - rewrite app_empty. destruct (rstrip post) as [|c r] eqn:E.
    + rewrite Ha. by exists EmptyString.
    + by exists (String c r).
  - assert (String b w <> EmptyString) as Hne by done.
    destruct (IH Hne Hn) as [post' E]. rewrite E, app_cons.
    exists post'. by rewrite !app_cons.
Qed.

Lemma rstrip_keeps (pre w post : string) :
  w <> EmptyString -> no_space w = true ->
  exists post', rstrip (pre +:+ w +:+ post) = pre +:+ w +:+ post'.
Proof.
  intros Hw Hn. induction pre as [|a pre IH].
  - rewrite app_empty. destruct (rstrip_app_word w post Hw Hn) as [post' E].
    exists post'. by rewrite app_empty.
  - destruct IH as [post' E]. rewrite app_cons. cbn [rstrip]. rewrite E.
    exists post'. rewrite app_cons.
    destruct (pre +:+ w +:+ post') eqn:E'; [|done].
    destruct pre; [|done]. destruct w; done.
Qed.

(** So [strip] keeps every occurrence of such a word. *)
Lemma strip_keeps (pre w post : string) :
  w <> EmptyString -> no_space w = true ->
  exists pre' post', strip (pre +:+ w +:+ post) = pre' +:+ w +:+ post'.
Proof.
  intros Hw Hn. unfold strip.
  destruct (lstrip_keeps pre w post Hw Hn) as [pre' ->].
  destruct (rstrip_keeps pre' w post Hw Hn) as [post' ->].
  by exists pre', post'.
Qed.

Lemma contains_false (pat s : string) :
  contains pat s = false <-> ~ occurs pat s.
Proof.
  rewrite <- contains_spec. by destruct (contains pat s).
Qed.

(** A word that lowers to [tok], wherever it stands in the answer and in
    whatever case, is found as [tok] in the stripped, lowered answer. *)
Lemma lowered_word_occurs (tok pre w post : string) :
  tok <> EmptyString -> no_space tok = true -> lower w = tok ->
  occurs tok (lower (strip (pre +:+ w +:+ post))).
Proof.
  intros Hne Hns Hw.
  assert (w <> EmptyString) as Hw1 by (intros ->; by subst tok).
  assert (no_space w = true) as Hw2 by (apply no_space_lower; by rewrite Hw).
  destruct (strip_keeps pre w post Hw1 Hw2) as (pre' & post' & ->).
  rewrite !lower_app, Hw. by exists (lower pre'), (lower post').
Qed.

End PyStrFacts.

Module MCPFacts.
Import Py MCP.

#[local] Arguments _load_commands : simpl never.

Ltac unfold_m :=
  unfold execute_command, command_map, commands, get_tools, invoke, tool_func,
    result_of, response_json, raise_for_status, store_command_map,
    store_commands, http_post, http_get, sleep, read, lift, try_except,
    bind, ret, raise.

Lemma foldl_insert_lookup (cmds : list Command) (m : gmap string Command) (n : string) :
  foldl (fun m cmd => <[name cmd := cmd]> m) m cmds !! n = None <->
  m !! n = None /\ forall c, In c cmds -> name c <> n.
Proof.
  revert m. induction cmds as [|c cmds IH]; intros m; simpl.
  - split; [intros Hm; split; [done | intros ? []] | by intros [Hm _]].
  - rewrite IH. split.
    + intros [Hm Hall]. apply lookup_insert_None in Hm as [Hm Hne].
      split; [done|]. intros c' [<-|Hin]; [done | by apply Hall].
    + intros [Hm Hall]. split.
      * apply lookup_insert_None. split; [done | apply Hall; by left].
      * intros c' Hin. apply Hall. by right.
Qed.

Lemma build_map_absent (cmds : list Command) (n : string) :
  build_map cmds !! n = None <-> forall c, In c cmds -> name c <> n.
Proof.
  unfold build_map. rewrite foldl_insert_lookup, lookup_empty.
  split; [by intros [_ Hall] | by intros Hall].
Qed.

Lemma build_map_known (cmds : list Command) (c : Command) :
  In c cmds -> is_Some (build_map cmds !! name c).
Proof.
  intros Hin. destruct (build_map cmds !! name c) eqn:E; [by eexists|].
  destruct (build_map_absent cmds (name c)) as [Habs _].
  by destruct (Habs E c Hin).
Qed.

(** [parameters or {}] is the dictionary itself when one is given. *)
Lemma or_empty_some (params : dict) : or_empty (Some params) = params.
Proof. by destruct params. Qed.

Lemma model_validate_raises (cmd : json) (e : Exn) :
  model_validate cmd = Raise e -> is_class ValidationError e = true.
Proof.
  unfold model_validate. intros H.
  repeat (match type of H with
          | context [match ?x with _ => _ end] => destruct x
          end; try discriminate);
    by inversion H.
Qed.

Lemma catalog_validate_raises (items : list json) (e : Exn) :
  res_map model_validate items = Raise e -> is_class ValidationError e = true.
Proof.
  induction items as [|cmd items IH]; cbn; [done|].
  destruct (model_validate cmd) eqn:E; cbn.
  - destruct (res_map model_validate items); cbn; [done|].
    intros [= <-]. by apply IH.
  - intros [= <-]. by apply model_validate_raises in E.
Qed.

Section Facts.
Variable server : Server.

Lemma commands_cached (s : State) (l : list Command) :
  _commands s = Some l -> commands server s = (s, Ret (Some l)).
Proof. intros H. unfold_m. rewrite H. cbn. by rewrite H. Qed.

Lemma command_map_populated (s : State) (cmds : list Command) :
  populated s cmds ->
  exists s', command_map server s = (s', Ret (build_map cmds))
    /\ gets s' = gets s /\ posts s' = posts s /\ sleeps s' = sleeps s
    /\ _commands s' = _commands s.
Proof.
  intros [Hc [Hm|Hm]]; unfold_m; rewrite Hm; cbn.
  - rewrite Hc. cbn. rewrite Hc. cbn. eauto 10.
  - eauto 10.
Qed.

(** The execute request of [execute_command], once the command is known:
    whatever the server answers, exactly the one payload is posted. *)
Lemma execute_known (s : State) (cmds : list Command) (c : Command)
    (n : string) (params : option dict) :
  populated s cmds -> build_map cmds !! n = Some c ->
  let s' := fst (execute_command server n params s) in
  posts s' = (posts s ++
    [JObj [("command", JStr n); ("parameters", JObj (or_empty params))]])%list
  /\ gets s' = gets s /\ sleeps s' = sleeps s.
Proof.
  intros Hpop Hn.
  destruct (command_map_populated s cmds Hpop) as (s1 & E & Hg & Hp & Hs & _).
  unfold execute_command, bind. rewrite E, Hn.
  unfold_m. cbn.
  destruct (on_post server _ _) as [e|st body|st msg]; cbn.
  - destruct e as [k msg|st]; cbn; [|destruct (st =? 404)%nat; cbn];
      by rewrite Hg, Hp, Hs.
  - destruct (is_success st); cbn.
    + destruct body as [[]|]; cbn; rewrite ?Hg, ?Hp, ?Hs; try done.
      destruct (dict_get "result" _); cbn; by rewrite ?Hg, ?Hp, ?Hs.
    + destruct (st =? 404)%nat; cbn; by rewrite Hg, Hp, Hs.
  - destruct (is_success st); cbn; [|destruct (st =? 404)%nat; cbn];
      by rewrite Hg, Hp, Hs.
Qed.

(** C4.  For a client whose catalog is loaded and a name no command of the
    catalog carries, [execute_command] raises [CommandNotFoundError] and
    issues no request: neither an execute request nor a catalog fetch. *)
Theorem execute_unknown_command (s : State) (cmds : list Command)
    (n : string) (params : option dict) :
  populated s cmds ->
  (forall c, In c cmds -> name c <> n) ->
  snd (execute_command server n params s)
    = Raise (Exc CommandNotFoundError ("Command not found: " +:+ n))
  /\ posts (fst (execute_command server n params s)) = posts s
  /\ gets (fst (execute_command server n params s)) = gets s.
Proof.
  intros Hpop Habs. apply build_map_absent in Habs.
  destruct (command_map_populated s cmds Hpop) as (s1 & E & Hg & Hp & _).
  unfold execute_command, bind. rewrite E, Habs. by cbn.
Qed.

(** C10.  For a known command name, [execute_command] called with the
    parameters omitted or [None] posts the payload whose [parameters] is
    the empty object; and whatever the parameters are, the posted
    [parameters] is an object. *)
Theorem execute_without_parameters (s : State) (cmds : list Command)
    (c : Command) :
  populated s cmds -> In c cmds ->
  posts (fst (execute_command server (name c) None s))
    = (posts s ++
         [JObj [("command", JStr (name c)); ("parameters", JObj [])]])%list
  /\ forall params, exists d,
       posts (fst (execute_command server (name c) params s))
       = (posts s ++
            [JObj [("command", JStr (name c)); ("parameters", JObj d)]])%list.
Proof.
  intros Hpop Hin. destruct (build_map_known cmds c Hin) as [c' Hc'].
  split.
  - by destruct (execute_known s cmds c' (name c) None Hpop Hc') as [-> _].
  - intros params. exists (or_empty params).
    by destruct (execute_known s cmds c' (name c) params Hpop Hc') as [-> _].
Qed.

(** *** The catalog fetch and its retries *)

(** One attempt issues exactly one request, posts nothing and does not
    sleep. *)
Lemma load_once_net (s : State) :
  gets (fst (load_commands_once server s)) = S (gets s)
  /\ posts (fst (load_commands_once server s)) = posts s
  /\ sleeps (fst (load_commands_once server s)) = sleeps s.
Proof.
  unfold load_commands_once. unfold_m. cbn.
  destruct (on_get server (gets s)) as [e|st body|st msg]; cbn.
  - by destruct e as [[] msg|st]; cbn.
  - destruct (is_success st); cbn; [|done].
    destruct body as [[]|]; cbn; try done.
    by destruct (res_map model_validate items) as [cmds|[[] msg|st']]; cbn.
  - by destruct (is_success st); cbn.
Qed.

(** An attempt the server answers never ends in a failure that is
    retried: it succeeds or raises [MCPError]. *)
Lemma load_once_response (s : State) (st : nat) (body : option json) :
  on_get server (gets s) = Response st body ->
  (is_success st = false ->
     snd (load_commands_once server s)
     = Raise (Exc MCPError ("Failed to fetch commands: " +:+ pretty st)))
  /\ (is_success st = true ->
       snd (load_commands_once server s) = Ret tt
       \/ snd (load_commands_once server s)
          = Raise (Exc MCPError "Invalid command schema received from server")).
Proof.
  intros E. unfold load_commands_once. unfold_m. cbn. rewrite E. cbn.
  destruct (is_success st); cbn; split; try done; intros _.
  destruct body as [[]|]; cbn; eauto.
  destruct (res_map model_validate items) as [cmds|e] eqn:Ev; cbn; eauto.
  apply catalog_validate_raises in Ev.
  destruct e as [[] msg|st']; try discriminate. cbn. eauto.
Qed.

(** The same for an answer of any body. *)
Lemma load_once_answered (s : State) (st : nat) :
  answered (on_get server (gets s)) st ->
  (is_success st = false ->
     snd (load_commands_once server s)
     = Raise (Exc MCPError ("Failed to fetch commands: " +:+ pretty st)))
  /\ (is_success st = true ->
       snd (load_commands_once server s) = Ret tt
       \/ snd (load_commands_once server s)
          = Raise (Exc MCPError "Invalid command schema received from server")).
Proof.
  destruct (on_get server (gets s)) as [e|st' body|st' msg] eqn:E; cbn;
    [done| |]; intros <-.
  - by apply (load_once_response s st' body).
  - unfold load_commands_once. unfold_m. cbn. rewrite E. cbn.
    destruct (is_success st'); cbn; split; try done; intros _. by right.
Qed.

Lemma load_once_netfail (s : State) (e : Exn) :
  on_get server (gets s) = NetFail e ->
  retry_if_exception_type e = true ->
  snd (load_commands_once server s) = Raise e.
Proof.
  intros E Hr. unfold load_commands_once. unfold_m. cbn. rewrite E. cbn.
  by destruct e as [[] msg|st].
Qed.

(** A failure of the request that is not one of the two retried classes
    leaves the attempt with a failure that is not retried either. *)
Lemma load_once_not_retried (s : State) (e : Exn) :
  on_get server (gets s) = NetFail e ->
  retry_if_exception_type e = false ->
  exists e', snd (load_commands_once server s) = Raise e'
             /\ retry_if_exception_type e' = false.
Proof.
  intros E Hr. unfold load_commands_once. unfold_m. cbn. rewrite E. cbn.
  destruct e as [[] msg|st]; cbn; try discriminate; eauto.
Qed.

Lemma slept_net (seconds : nat) (s : State) :
  gets (slept seconds s) = gets s /\ posts (slept seconds s) = posts s
  /\ sleeps (slept seconds s) = (sleeps s ++ [seconds])%list
  /\ _commands (slept seconds s) = _commands s.
Proof. done. Qed.

(** The decorated method, unrolled by its first attempt. *)
Lemma load_commands_unroll (s : State) :
  _load_commands server s =
  match load_commands_once server s with
  | (s1, Ret a) => (s1, Ret a)
  | (s1, Raise e1) =>
      if retry_if_exception_type e1 then
        match load_commands_once server (slept 2 s1) with
        | (s2, Ret a) => (s2, Ret a)
        | (s2, Raise e2) =>
            if retry_if_exception_type e2 then
              match load_commands_once server (slept 2 s2) with
              | (s3, Ret a) => (s3, Ret a)
              | (s3, Raise e3) => (s3, Raise e3)
              end
            else (s2, Raise e2)
        end
      else (s1, Raise e1)
  end.
Proof.
  unfold _load_commands. cbn.
  destruct (load_commands_once server s) as [s1 [a|e1]]; [done|].
  destruct (retry_if_exception_type e1); [|done].
  unfold bind, sleep, slept; cbn.
  destruct (load_commands_once server _) as [s2 [a|e2]]; [done|].
  destruct (retry_if_exception_type e2); [|done].
  destruct (load_commands_once server _) as [s3 [a|e3]]; [done|].
  by destruct (retry_if_exception_type e3).
Qed.

(** The decorated method issues between one and three requests, and
    posts nothing. *)
Lemma load_commands_net (s : State) :
  gets s < gets (fst (_load_commands server s)) <= gets s + 3
  /\ posts (fst (_load_commands server s)) = posts s.
Proof.
  rewrite load_commands_unroll.
  pose proof (load_once_net s) as (G1 & P1 & _).
  destruct (load_commands_once server s) as [s1 [a|e1]]; cbn [fst snd] in *; [split; [lia|done]|].
  destruct (retry_if_exception_type e1); cbn [fst snd]; [|split; [lia|done]].
  pose proof (load_once_net (slept 2 s1)) as (G2 & P2 & _).
  change (gets (slept 2 s1)) with (gets s1) in G2.
  change (posts (slept 2 s1)) with (posts s1) in P2.
  destruct (load_commands_once server (slept 2 s1)) as [s2 [a|e2]];
    cbn [fst snd] in *; [split; [lia|congruence]|].
  destruct (retry_if_exception_type e2); cbn [fst snd]; [|split; [lia|congruence]].
  pose proof (load_once_net (slept 2 s2)) as (G3 & P3 & _).
  change (gets (slept 2 s2)) with (gets s2) in G3.
  change (posts (slept 2 s2)) with (posts s2) in P3.
  destruct (load_commands_once server (slept 2 s2)) as [s3 [a|e3]];
    cbn [fst snd] in *; split; (lia || congruence).
Qed.

Lemma load_once_stores (s s' : State) :
  load_commands_once server s = (s', Ret tt) -> _commands s' <> None.
Proof.
  unfold load_commands_once. unfold_m. cbn.
  destruct (on_get server (gets s)) as [e|st body|st msg]; cbn.
  - by destruct e as [[] msg|st]; cbn.
  - destruct (is_success st); cbn; [|done].
    destruct body as [[]|]; cbn; try done.
    destruct (res_map model_validate items) as [cmds|[[] msg|st']]; cbn;
      try done.
    by intros [= <-].
  - by destruct (is_success st); cbn.
Qed.

Lemma load_commands_stores (s s' : State) :
  _load_commands server s = (s', Ret tt) -> _commands s' <> None.
Proof.
  rewrite load_commands_unroll.
  destruct (load_commands_once server s) as [s1 [[]|e1]] eqn:E1.
  { intros [= <-]. by eapply load_once_stores. }
  destruct (retry_if_exception_type e1); [|done].
  destruct (load_commands_once server (slept 2 s1)) as [s2 [[]|e2]] eqn:E2.
  { intros [= <-]. by eapply load_once_stores. }
  destruct (retry_if_exception_type e2); [|done].
  destruct (load_commands_once server (slept 2 s2)) as [s3 [[]|e3]] eqn:E3;
    [|done].
  intros [= <-]. by eapply load_once_stores.
Qed.

(** Building the dictionary posts nothing, whatever the state. *)
Lemma command_map_posts (s : State) :
  posts (fst (command_map server s)) = posts s.
Proof.
  unfold command_map, commands. unfold_m.
  destruct (_command_map s); cbn; [done|].
  destruct (_commands s) eqn:Ec; cbn.
  - by rewrite Ec.
  - pose proof (load_commands_net s) as [_ P].
    destruct (_load_commands server s) as [s1 [[]|e]]; cbn in *; [|done].
    by destruct (_commands s1).
Qed.

(** [execute_command] posts at most once, whatever the state and the
    server's answer. *)
Lemma execute_posts_bound (s : State) (n : string) (params : option dict) :
  length (posts (fst (execute_command server n params s)))
  <= S (length (posts s)).
Proof.
  pose proof (command_map_posts s) as P.
  unfold execute_command, bind.
  destruct (command_map server s) as [s1 [m|e]]; cbn [fst] in *;
    [|rewrite P; lia].
  destruct (m !! n); [|unfold raise; cbn; rewrite P; lia].
  unfold_m. cbn.
  assert (length (posts s1 ++ [JObj [("command", JStr n);
            ("parameters", JObj (or_empty params))]]) = S (length (posts s)))
    as L by (rewrite length_app, P; cbn; lia).
  destruct (on_post server _ _) as [e|st body|st msg]; cbn.
  - destruct e as [k msg|st]; cbn; [|destruct (st =? 404)%nat; cbn];
      by rewrite L.
  - destruct (is_success st); cbn.
    + destruct body as [[]|]; cbn; rewrite ?L; try done.
      destruct (dict_get "result" _); cbn; by rewrite ?L.
    + destruct (st =? 404)%nat; cbn; by rewrite L.
  - destruct (is_success st); cbn; [|destruct (st =? 404)%nat; cbn];
      by rewrite L.
Qed.

Lemma wait_exponential_bounds (attempt : nat) :
  2 <= wait_exponential 1 2 10 attempt <= 10.
Proof. unfold wait_exponential. lia. Qed.

Lemma wait_exponential_capped (attempt : nat) :
  5 <= attempt -> wait_exponential 1 2 10 attempt = 10.
Proof.
  intros H. unfold wait_exponential.
  assert (2 ^ 4 <= 2 ^ (attempt - 1)) as Hp
    by (apply Nat.pow_le_mono_r; lia).
  change (2 ^ 4) with 16 in Hp. lia.
Qed.

(** What one attempt makes of the reply to its request. *)
Lemma load_once_outcome (s : State) :
  attempt_outcome (on_get server (gets s)) (snd (load_commands_once server s)).
Proof.
  destruct (on_get server (gets s)) as [e|st body|st msg] eqn:E;
    cbn [attempt_outcome].
  - destruct (retry_if_exception_type e) eqn:Hr.
    + exists e. split; [by apply load_once_netfail | done].
    + destruct (load_once_not_retried s e E Hr) as (e' & He' & _).
      exists e'. split; [done | by intros].
  - apply (load_once_answered s st). by rewrite E.
  - apply (load_once_answered s st). by rewrite E.
Qed.

(** An attempt whose request does not fail in one of the two retried
    ways does not end in a failure that is retried. *)
Lemma load_once_final (s : State) (e' : Exn) :
  (forall e, on_get server (gets s) = NetFail e ->
             retry_if_exception_type e = false) ->
  snd (load_commands_once server s) = Raise e' ->
  retry_if_exception_type e' = false.
Proof.
  intros Hfinal He'.
  destruct (on_get server (gets s)) as [e|st body|st msg] eqn:E.
  - destruct (load_once_not_retried s e E (Hfinal e eq_refl)) as (e2 & He2 & Hr).
    congruence.
  - assert (answered (on_get server (gets s)) st) as Ha by (by rewrite E).
    destruct (load_once_answered s st Ha) as [Hbad Hok].
    destruct (is_success st);
      [destruct (Hok eq_refl) as [H|H] | pose proof (Hbad eq_refl) as H];
      rewrite H in He'; try done; by injection He' as <-.
  - assert (answered (on_get server (gets s)) st) as Ha by (by rewrite E).
    destruct (load_once_answered s st Ha) as [Hbad Hok].
    destruct (is_success st);
      [destruct (Hok eq_refl) as [H|H] | pose proof (Hbad eq_refl) as H];
      rewrite H in He'; try done; by injection He' as <-.
Qed.

(** C6.  The retry policy.  Only the catalog fetch is retried, and only
    when the request itself fails with a connection error or a read
    timeout: an answer of any status or shape, and any other failure, end
    the call at that attempt, be it the first, the second or the third.
    There are at most three attempts; when all three fail the third failure
    is raised as it is, after waits of 2 and 2 time units.  The wait after
    an attempt starts at 2, doubles from the third attempt on and is held at
    10 from the fifth; it always lies between 2 and 10.  The execute call is
    never repeated: one call posts at most one request. *)
Theorem retry_policy (s : State) :
  (gets s < gets (fst (_load_commands server s)) <= gets s + 3)
  /\ (forall st body, on_get server (gets s) = Response st body ->
        gets (fst (_load_commands server s)) = S (gets s)
        /\ sleeps (fst (_load_commands server s)) = sleeps s
        /\ (is_success st = false ->
              snd (_load_commands server s)
              = Raise (Exc MCPError ("Failed to fetch commands: " +:+ pretty st)))
        /\ (is_success st = true ->
              snd (_load_commands server s) = Ret tt
              \/ snd (_load_commands server s)
                 = Raise (Exc MCPError "Invalid command schema received from server")))
  /\ (forall e, on_get server (gets s) = NetFail e ->
        retry_if_exception_type e = false ->
        gets (fst (_load_commands server s)) = S (gets s)
        /\ sleeps (fst (_load_commands server s)) = sleeps s
        /\ exists e', snd (_load_commands server s) = Raise e')
  /\ (forall e1 e2 e3,
        on_get server (gets s) = NetFail e1 ->
        on_get server (S (gets s)) = NetFail e2 ->
        on_get server (S (S (gets s))) = NetFail e3 ->
        retry_if_exception_type e1 = true ->
        retry_if_exception_type e2 = true ->
        retry_if_exception_type e3 = true ->
        snd (_load_commands server s) = Raise e3
        /\ gets (fst (_load_commands server s)) = gets s + 3
        /\ sleeps (fst (_load_commands server s)) = (sleeps s ++ [2; 2])%list)
  /\ (wait_exponential 1 2 10 1 = 2
      /\ wait_exponential 1 2 10 3 = 4
      /\ wait_exponential 1 2 10 4 = 8
      /\ (forall attempt, 5 <= attempt -> wait_exponential 1 2 10 attempt = 10)
      /\ forall attempt, 2 <= wait_exponential 1 2 10 attempt <= 10)
  /\ (forall n params,
        length (posts (fst (execute_command server n params s)))
        <= S (length (posts s)))
  /\ (forall n reply,
        n < 3 ->
        (forall i, i < n ->
           exists e, on_get server (gets s + i) = NetFail e
                     /\ retry_if_exception_type e = true) ->
        on_get server (gets s + n) = reply ->
        (n = 2 \/ forall e, reply = NetFail e ->
                            retry_if_exception_type e = false) ->
        ended_at (_load_commands server s) s (S n) reply).
Proof.
  split; [apply load_commands_net|].
  split; [|split; [|split; [|split; [|split; [apply execute_posts_bound|]]]]];
    cycle 4.
  { intros n reply Hn Hbefore Hreply Hlast.
    rewrite load_commands_unroll.
    pose proof (load_once_net s) as (G1 & _ & S1).
    pose proof (load_once_outcome s) as O1.
    pose proof (load_once_final s) as F1.
    destruct (load_commands_once server s) as [s1 [[]|e1]] eqn:E1;
      cbn [fst snd] in *.
    { destruct n as [|n].
      - rewrite Nat.add_0_r in Hreply. rewrite Hreply in O1.
        unfold ended_at; cbn [fst snd repeat Nat.sub];
        repeat split; [lia | by rewrite S1, app_nil_r | done].
      - destruct (Hbefore 0) as (e & He & Hr); [lia|].
        rewrite Nat.add_0_r in He. rewrite He in O1.
        by destruct O1 as (e' & [=] & _). }
    destruct n as [|n].
    { rewrite Nat.add_0_r in Hreply. rewrite Hreply in O1, F1.
      destruct Hlast as [?|Hlast]; [lia|].
      rewrite (F1 e1 Hlast eq_refl). cbn [fst snd].
      unfold ended_at; cbn [fst snd repeat Nat.sub];
        repeat split; [lia | by rewrite S1, app_nil_r | done]. }
    destruct (Hbefore 0) as (e & He & Hr); [lia|].
    rewrite Nat.add_0_r in He. rewrite He in O1.
    destruct O1 as (e' & [= <-] & He1). rewrite (He1 Hr), Hr.
    assert (gets (slept 2 s1) = gets s + 1) as Gs1
      by (change (gets (slept 2 s1)) with (gets s1); lia).
    assert (sleeps (slept 2 s1) = (sleeps s ++ [2])%list) as Ss1
      by (change (sleeps (slept 2 s1)) with (sleeps s1 ++ [2])%list;
          by rewrite S1).
    pose proof (load_once_net (slept 2 s1)) as (G2 & _ & S2).
    pose proof (load_once_outcome (slept 2 s1)) as O2.
    pose proof (load_once_final (slept 2 s1)) as F2.
    rewrite Gs1 in O2, F2.
    destruct (load_commands_once server (slept 2 s1)) as [s2 [[]|e2]] eqn:E2;
      cbn [fst snd] in *.
    { destruct n as [|n].
      - rewrite Hreply in O2.
        unfold ended_at; cbn [fst snd repeat Nat.sub];
        repeat split; [lia | by rewrite S2, Ss1 | done].
      - destruct (Hbefore 1) as (e0 & He0 & Hr0); [lia|].
        rewrite He0 in O2. by destruct O2 as (e' & [=] & _). }
    destruct n as [|n].
    { rewrite Hreply in O2, F2.
      destruct Hlast as [?|Hlast]; [lia|].
      rewrite (F2 e2 Hlast eq_refl). cbn [fst snd].
      unfold ended_at; cbn [fst snd repeat Nat.sub];
        repeat split; [lia | by rewrite S2, Ss1 | done]. }
    destruct (Hbefore 1) as (e0 & He0 & Hr0); [lia|].
    rewrite He0 in O2.
    destruct O2 as (e' & [= <-] & He2). rewrite (He2 Hr0), Hr0.
    assert (n = 0) as -> by lia.
    assert (gets (slept 2 s2) = gets s + 2) as Gs2
      by (change (gets (slept 2 s2)) with (gets s2); lia).
    assert (sleeps (slept 2 s2) = (sleeps s ++ [2; 2])%list) as Ss2
      by (change (sleeps (slept 2 s2)) with (sleeps s2 ++ [2])%list;
          by rewrite S2, Ss1, <- app_assoc).
    pose proof (load_once_net (slept 2 s2)) as (G3 & _ & S3).
    pose proof (load_once_outcome (slept 2 s2)) as O3.
    rewrite Gs2, Hreply in O3.
    destruct (load_commands_once server (slept 2 s2)) as [s3 [[]|e3]] eqn:E3;
      cbn [fst snd] in *;
      (unfold ended_at; cbn [fst snd repeat Nat.sub];
       repeat split; [lia | by rewrite S3, Ss2 | done]). }
  - intros st body E.
    destruct (load_once_response s st body E) as [Hbad Hok].
    pose proof (load_once_net s) as (G & _ & Sl).
    rewrite load_commands_unroll.
    destruct (load_commands_once server s) as [s1 [[]|e1]]; cbn [fst snd] in *.
    + by repeat (split; [done|]).
    + assert (retry_if_exception_type e1 = false) as ->.
      { destruct (is_success st); [destruct (Hok eq_refl) as [?|[= ->]]
                                  | specialize (Hbad eq_refl) as [= ->]]; done. }
      cbn [fst snd]. by repeat (split; [done|]).
  - intros e E Hr.
    destruct (load_once_not_retried s e E Hr) as (e' & He' & Hr').
    pose proof (load_once_net s) as (G & _ & Sl).
    rewrite load_commands_unroll.
    destruct (load_commands_once server s) as [s1 [[]|e1]]; cbn [fst snd] in *;
      [done|].
    injection He' as ->. rewrite Hr'. cbn [fst snd]. eauto.
  - intros e1 e2 e3 E1 E2 E3 R1 R2 R3.
    pose proof (load_once_netfail s e1 E1 R1) as H1.
    pose proof (load_once_net s) as (G1 & _ & S1).
    rewrite load_commands_unroll.
    destruct (load_commands_once server s) as [s1 [[]|e1']]; cbn [fst snd] in *;
      [done|].
    injection H1 as ->. rewrite R1.
    assert (gets (slept 2 s1) = S (gets s)) as Gs1 by done.
    rewrite <- Gs1 in E2.
    pose proof (load_once_netfail _ e2 E2 R2) as H2.
    pose proof (load_once_net (slept 2 s1)) as (G2 & _ & S2).
    destruct (load_commands_once server (slept 2 s1)) as [s2 [[]|e2']];
      cbn [fst snd] in *; [done|].
    injection H2 as ->. rewrite R2.
    assert (gets (slept 2 s2) = S (S (gets s))) as Gs2
      by (change (gets (slept 2 s2)) with (gets s2); by rewrite G2, Gs1).
    rewrite <- Gs2 in E3.
    pose proof (load_once_netfail _ e3 E3 R3) as H3.
    pose proof (load_once_net (slept 2 s2)) as (G3 & _ & S3).
    destruct (load_commands_once server (slept 2 s2)) as [s3 [[]|e3']];
      cbn [fst snd] in *; [done|].
    injection H3 as ->. repeat split.
    + rewrite G3, Gs2. lia.
    + rewrite S3. change (sleeps (slept 2 s2)) with (sleeps s2 ++ [2])%list.
      rewrite S2. change (sleeps (slept 2 s1)) with (sleeps s1 ++ [2])%list.
      by rewrite S1, <- app_assoc.
  - repeat (split; [done|]).
    split; [apply wait_exponential_capped | apply wait_exponential_bounds].
Qed.

(** *** The cache *)

Lemma command_map_cached (s : State) (l : list Command) :
  _commands s = Some l ->
  exists s1 m, command_map server s = (s1, Ret m)
    /\ gets s1 = gets s /\ _commands s1 = Some l.
Proof.
  intros Hc. unfold command_map, commands. unfold_m.
  destruct (_command_map s) as [m|]; cbn; [by eauto|].
  rewrite Hc. cbn. rewrite Hc. cbn. eauto 10.
Qed.

Lemma execute_cached (s : State) (l : list Command) (n : string)
    (params : option dict) :
  _commands s = Some l ->
  gets (fst (execute_command server n params s)) = gets s
  /\ _commands (fst (execute_command server n params s)) = Some l.
Proof.
  intros Hc.
  destruct (command_map_cached s l Hc) as (s1 & m & E & Hg & Hc1).
  unfold execute_command, bind. rewrite E.
  destruct (m !! n); [|by unfold raise; cbn].
  unfold_m. cbn.
  destruct (on_post server _ _) as [e|st body|st msg]; cbn.
  - by destruct e as [k msg|st]; cbn; [|destruct (st =? 404)%nat; cbn].
  - destruct (is_success st); cbn.
    + destruct body as [[]|]; cbn; try done.
      by destruct (dict_get "result" _); cbn.
    + by destruct (st =? 404)%nat; cbn.
  - by destruct (is_success st); cbn; [|destruct (st =? 404)%nat; cbn].
Qed.
End Facts.

Section ToolFacts.
Variable server : Server.
Variable validates : PyType -> json -> option json.
Variable py_str : json -> string.

(** Once the catalog is cached, no use of the client fetches it again. *)
Lemma perform_cached (c : Call) (s : State) (l : list Command) :
  _commands s = Some l ->
  gets (perform server validates py_str c s) = gets s
  /\ _commands (perform server validates py_str c s) = Some l.
Proof.
  intros Hc. destruct c as [| |n params| |tool args]; cbn [perform].
  - by rewrite (commands_cached server s l Hc).
  - by destruct (command_map_cached server s l Hc) as (s1 & m & -> & ? & ?).
  - by apply execute_cached.
  - unfold get_tools, bind. rewrite (commands_cached server s l Hc).
    by unfold lift.
  - unfold invoke, tool_func, bind, lift.
    destruct (validate_args validates (args_schema tool) args) as [kw|e];
      [|done].
    destruct (execute_cached server s l (tool_name tool) (Some kw) Hc)
      as [Hg Hc'].
    by destruct (execute_command server (tool_name tool) (Some kw) s)
      as [s1 [r|e]].
Qed.

Lemma perform_all_cached (calls : list Call) (s : State) (l : list Command) :
  _commands s = Some l ->
  gets (perform_all server validates py_str calls s) = gets s
  /\ _commands (perform_all server validates py_str calls s) = Some l.
Proof.
  revert s. induction calls as [|c calls IH]; intros s Hc; [done|].
  change (perform_all server validates py_str (c :: calls) s)
    with (perform_all server validates py_str calls
            (perform server validates py_str c s)).
  destruct (perform_cached c s l Hc) as [Hg Hc'].
  destruct (IH _ Hc') as [Hg' Hc'']. split; [congruence | done].
Qed.

(** C5, as the code has it.  A read of [commands] that returns has
    filled the cache; and from a state whose cache is filled, no sequence
    of uses of the client issues another catalog request or changes the
    cached catalog. *)
Theorem no_fetch_once_cached (calls : list Call) (s : State) :
  (forall r, snd (commands server s) = Ret r ->
     _commands (fst (commands server s)) <> None)
  /\ (_commands s <> None ->
      gets (perform_all server validates py_str calls s) = gets s
      /\ _commands (perform_all server validates py_str calls s) = _commands s).
Proof.
  split.
  - intros r. unfold commands. unfold_m.
    destruct (_commands s) eqn:Hc; cbn; [by rewrite Hc|].
    destruct (_load_commands server s) as [s1 [[]|e]] eqn:E; cbn; [|done].
    intros _. by eapply load_commands_stores.
  - destruct (_commands s) as [l|] eqn:Hc; [intros _|done].
    destruct (perform_all_cached calls s l Hc) as [Hg Hc'].
    by rewrite Hc'.
Qed.

(** *** Synthesized tools *)

Lemma res_map_In {A B} (f : A -> Res B) (l : list A) (ys : list B) (x : A) :
  res_map f l = Ret ys -> In x l -> exists y, f x = Ret y /\ In y ys.
Proof.
  revert ys. induction l as [|a l IH]; intros ys; cbn; [done|].
  destruct (f a) as [b|e] eqn:Ea; cbn; [|done].
  destruct (res_map f l) as [bs|e]; cbn; [|done].
  intros [= <-] [->|Hin].
  - exists b. split; [done | by left].
  - destruct (IH bs eq_refl Hin) as (y & Hy & Hin'). exists y.
    split; [done | by right].
Qed.

(** The field built for a declared parameter is among the fields of the
    tool's schema. *)
Lemma declared_field (cmd : Command) (tool : StructuredTool) (props : dict)
    (required : list string) (f : string) (info : json) :
  make_tool cmd = Ret tool ->
  dict_get "properties" (parameters cmd) = Some (JObj props) ->
  required_set (parameters cmd) = Ret required ->
  In (f, info) props ->
  exists fi, make_field required f info = Ret (f, fi)
             /\ In (f, fi) (args_schema tool).
Proof.
  intros Hm Hp Hr Hin. unfold make_tool, schema_fields, has_parameters in Hm.
  rewrite Hp, Hr in Hm. cbn in Hm.
  destruct props as [|p props]; [destruct Hin|]. cbn [negb] in Hm.
  cbv iota in Hm.
  destruct (res_map _ (p :: props)) as [fields|e] eqn:E; [|done].
  cbn in Hm. injection Hm as <-. cbn [args_schema].
  destruct (res_map_In _ _ _ (f, info) E Hin) as ([f' fi] & Hy & Hin').
  cbn [fst snd] in Hy. exists fi.
  assert (f' = f) as ->; [|done].
  unfold make_field in Hy. destruct info; try done. by injection Hy.
Qed.

Lemma validate_args_rejects (schema : list (string * FieldInfo)) (args : dict)
    (fld : string * FieldInfo) :
  In fld schema -> field_value validates args fld = None ->
  validate_args validates schema args
  = Raise (Exc ValidationError "validation error").
Proof.
  intros Hin Hrej. unfold validate_args.
  assert (handed_on validates args schema = None) as ->; [|done].
  induction schema as [|fld' schema IH]; [destruct Hin|].
  cbn [handed_on]. destruct Hin as [->|Hin].
  - by rewrite Hrej.
  - rewrite (IH Hin). by destruct (field_value validates args fld').
Qed.

(** Validation succeeds exactly when every field has a value. *)
Lemma validate_args_accepts (schema : list (string * FieldInfo)) (args : dict) :
  (forall fld, In fld schema -> field_value validates args fld <> None) ->
  exists kwargs, validate_args validates schema args = Ret kwargs.
Proof.
  intros Hall. unfold validate_args.
  assert (exists kwargs, handed_on validates args schema = Some kwargs)
    as [kwargs ->]; [|by eexists].
  induction schema as [|fld schema IH]; [by eexists|].
  cbn [handed_on].
  destruct (field_value validates args fld) as [v|] eqn:Ev;
    [|by destruct (Hall fld (or_introl eq_refl))].
  destruct IH as [rest ->]; [intros fld' Hin; apply Hall; by right|].
  destruct (dict_get (fst fld) args); [by eexists|].
  destruct (synthetic_name (fst fld)); by eexists.
Qed.

Lemma validate_args_values (schema : list (string * FieldInfo)) (args kwargs : dict)
    (fld : string * FieldInfo) :
  validate_args validates schema args = Ret kwargs ->
  In fld schema -> field_value validates args fld <> None.
Proof.
  intros Hv Hin Hnone.
  by rewrite (validate_args_rejects schema args fld Hin Hnone) in Hv.
Qed.

Lemma names_unique {B} (l : list (string * B)) (k : string) (a b : B) :
  NoDup (map fst l) -> In (k, a) l -> In (k, b) l -> a = b.
Proof.
  induction l as [|[k0 v0] l IH]; [done|]. cbn [map fst].
  intros Hnd. apply NoDup_cons in Hnd as [Hk0 Hnd].
  assert (forall v, In (k0, v) l -> False) as Hno.
  { intros v Hin. apply Hk0. rewrite list_elem_of_In. apply in_map_iff.
    by exists (k0, v). }
  intros [Ha|Ha] [Hb|Hb].
  - congruence.
  - assert (k0 = k) as -> by congruence. by destruct (Hno b).
  - assert (k0 = k) as -> by congruence. by destruct (Hno a).
  - by apply IH.
Qed.

(** What the keyword arguments hold under a name: nothing for a name that
    is no field, and for a field its value, unless the field was omitted and
    is called [args] or [kwargs]. *)
Lemma handed_on_get (schema : list (string * FieldInfo)) (args kwargs : dict)
    (k : string) :
  validate_args validates schema args = Ret kwargs ->
  NoDup (map fst schema) ->
  (~ In k (map fst schema) -> dict_get k kwargs = None)
  /\ (forall fi, In (k, fi) schema ->
        dict_get k kwargs
        = match dict_get k args with
          | Some _ => field_value validates args (k, fi)
          | None =>
              if synthetic_name k then None
              else field_value validates args (k, fi)
          end).
Proof.
  unfold validate_args.
  destruct (handed_on validates args schema) as [kw|] eqn:E; [|done].
  intros [= <-]. revert kw E.
  induction schema as [|[k0 fi0] schema IH]; intros kw E Hnd.
  - injection E as <-. split; [done | by intros fi []].
  - cbn [handed_on fst snd] in E. cbn [map fst] in Hnd.
    apply NoDup_cons in Hnd as [Hk0 Hnd].
    destruct (field_value validates args (k0, fi0)) as [v|] eqn:Ev; [|done].
    destruct (handed_on validates args schema) as [rest|] eqn:Er; [|done].
    destruct (IH rest eq_refl Hnd) as [IHout IHin].
    assert (forall fi, In (k, fi) schema -> In k (map fst schema)) as Hname.
    { intros fi Hin. apply in_map_iff. by exists (k, fi). }
    destruct (String.eqb k0 k) eqn:Hk.
    + apply String.eqb_eq in Hk. subst k0.
      assert (dict_get k kw
              = match dict_get k args with
                | Some _ => Some v
                | None => if synthetic_name k then None else Some v
                end) as Hget.
      { destruct (dict_get k args);
          [|destruct (synthetic_name k)]; injection E as <-; cbn [dict_get];
          rewrite ?String.eqb_refl; try done.
        apply IHout. by rewrite <- list_elem_of_In. }
      split.
      * intros Hout. destruct Hout. by left.
      * intros fi [[= <-]|Hin].
        -- rewrite Hget, Ev. by destruct (dict_get k args).
        -- destruct Hk0. rewrite list_elem_of_In. by apply (Hname fi).
    + assert (dict_get k kw = dict_get k rest) as ->.
      { destruct (dict_get k0 args);
          [|destruct (synthetic_name k0)]; injection E as <-; cbn [dict_get];
          by rewrite ?Hk. }
      apply String.eqb_neq in Hk. split.
      * intros Hout. apply IHout. intros Hin. apply Hout. by right.
      * intros fi [[= ? ?]|Hin]; [done | by apply IHin].
Qed.

(** The names of a schema are the names of the declared properties. *)
Lemma schema_names (required : list string) (props : dict)
    (fields : list (string * FieldInfo)) :
  res_map (fun kv => make_field required (fst kv) (snd kv)) props = Ret fields ->
  map fst fields = map fst props.
Proof.
  revert fields. induction props as [|[k info] props IH]; intros fields;
    cbn [res_map fst snd].
  - by intros [= <-].
  - destruct (make_field required k info) as [[k' fi]|e] eqn:Ef; [|done].
    cbn [res_bind].
    destruct (res_map _ props) as [rest|e]; [|done]. cbn [res_bind].
    intros [= <-]. cbn [map fst]. rewrite (IH rest eq_refl).
    unfold make_field in Ef. destruct info; try done. by injection Ef as <- _.
Qed.

Lemma tool_names (cmd : Command) (tool : StructuredTool) (props : dict) :
  make_tool cmd = Ret tool ->
  dict_get "properties" (parameters cmd) = Some (JObj props) ->
  tool_name tool = name cmd
  /\ (props <> [] -> map fst (args_schema tool) = map fst props).
Proof.
  intros Hm Hp. unfold make_tool, schema_fields, has_parameters in Hm.
  rewrite Hp in Hm. cbn [truthy] in Hm.
  destruct props as [|p props].
  - cbn in Hm. injection Hm as <-. by split.
  - cbn [negb] in Hm. cbv iota in Hm.
    destruct (required_set (parameters cmd)) as [required|e]; [|done].
    cbn [res_bind] in Hm.
    destruct (res_map _ (p :: props)) as [fields|e] eqn:E; [|done].
    cbn in Hm. injection Hm as <-. cbn [tool_name args_schema].
    split; [done|]. intros _. by apply (schema_names required).
Qed.

(** What a synthesized tool posts once its arguments are validated. *)
Lemma invoke_posts (cmds : list Command) (cmd : Command)
    (tool : StructuredTool) (args kwargs : dict) (s : State) :
  populated s cmds -> In cmd cmds -> tool_name tool = name cmd ->
  validate_args validates (args_schema tool) args = Ret kwargs ->
  posts (fst (invoke server validates py_str tool args s))
  = (posts s ++ [JObj [("command", JStr (name cmd));
                       ("parameters", JObj kwargs)]])%list.
Proof.
  intros Hpop Hin Hname Hv.
  destruct (build_map_known cmds cmd Hin) as [c' Hc'].
  unfold invoke, bind, lift. rewrite Hv, Hname. unfold tool_func, bind.
  pose proof (execute_known server s cmds c' (name cmd) (Some kwargs) Hpop Hc')
    as [Hp _].
  destruct (execute_command server (name cmd) (Some kwargs) s) as [s1 [r|e]];
    unfold ret; cbn [fst] in *; rewrite Hp; by destruct kwargs.
Qed.

(** Arguments that differ from accepted ones at one field only, and give
    that field a value too, are accepted; the keyword arguments differ at
    that field only. *)
Lemma field_replaced (schema : list (string * FieldInfo)) (f : string)
    (fi : FieldInfo) (args args' kwargs : dict) (v : json) :
  NoDup (map fst schema) -> In (f, fi) schema ->
  field_value validates args' (f, fi) = Some v ->
  (forall k, k <> f -> dict_get k args' = dict_get k args) ->
  validate_args validates schema args = Ret kwargs ->
  exists kwargs',
    validate_args validates schema args' = Ret kwargs'
    /\ dict_get f kwargs'
       = match dict_get f args' with
         | Some _ => Some v
         | None => if synthetic_name f then None else Some v
         end
    /\ (forall k, k <> f -> dict_get k kwargs' = dict_get k kwargs).
Proof.
  intros Hnd Hsch Hv Hsame Hval.
  assert (forall fld, In fld schema -> fst fld <> f ->
            field_value validates args' fld = field_value validates args fld)
    as Hother.
  { intros fld _ Hne. unfold field_value. by rewrite (Hsame _ Hne). }
  destruct (validate_args_accepts schema args') as [kwargs' Hval'].
  { intros [k fi'] Hin'. destruct (decide (k = f)) as [->|Hne].
    - rewrite (names_unique schema f fi' fi Hnd Hin' Hsch). by rewrite Hv.
    - rewrite (Hother _ Hin' Hne).
      by apply (validate_args_values schema args kwargs). }
  exists kwargs'. split; [done|]. split.
  - destruct (handed_on_get _ _ _ f Hval' Hnd) as [_ Hget].
    rewrite (Hget _ Hsch), Hv. by destruct (dict_get f args').
  - intros k Hne.
    destruct (handed_on_get _ _ _ k Hval' Hnd) as [Hout' Hget'].
    destruct (handed_on_get _ _ _ k Hval Hnd) as [Hout Hget].
    destruct (in_dec string_dec k (map fst schema)) as [Hk|Hk].
    + apply in_map_iff in Hk as ([k' fi'] & <- & Hin'). cbn [fst] in *.
      rewrite (Hget' _ Hin'), (Hget _ Hin'), (Hsame _ Hne).
      by rewrite (Hother _ Hin' Hne).
    + by rewrite (Hout' Hk), (Hout Hk).
Qed.

(** C3, as the code has it.  A tool built from a command with a required
    field: invoked without the field, or with a value that the validation
    of the field's type refuses, it raises the validation error and leaves
    the client and the transport as they were, so no execute request is
    issued.  A value that the validation converts is not refused: the tool
    hands on the converted value, and that is what is posted. *)
Theorem required_field_validated (cmd : Command) (tool : StructuredTool)
    (props info : dict) (required : list string) (f : string)
    (args : dict) (s : State) :
  make_tool cmd = Ret tool ->
  dict_get "properties" (parameters cmd) = Some (JObj props) ->
  required_set (parameters cmd) = Ret required ->
  NoDup (map fst props) ->
  In (f, JObj info) props ->
  in_required f required = true ->
  ((dict_get f args = None
    \/ exists v, dict_get f args = Some v
                 /\ validates (py_type_of info) v = None) ->
   invoke server validates py_str tool args s
     = (s, Raise (Exc ValidationError "validation error"))
   /\ posts (fst (invoke server validates py_str tool args s)) = posts s)
  /\ (forall v v' kwargs cmds,
        dict_get f args = Some v ->
        validates (py_type_of info) v = Some v' ->
        validate_args validates (args_schema tool) args = Ret kwargs ->
        populated s cmds -> In cmd cmds ->
        dict_get f kwargs = Some v'
        /\ posts (fst (invoke server validates py_str tool args s))
           = (posts s ++ [JObj [("command", JStr (name cmd));
                                ("parameters", JObj kwargs)]])%list).
Proof.
  intros Hm Hp Hr Hnd Hin Hreq.
  destruct (declared_field cmd tool props required f (JObj info) Hm Hp Hr Hin)
    as (fi & Hfi & Hsch).
  cbn in Hfi. rewrite Hreq in Hfi. injection Hfi as <-.
  destruct (tool_names cmd tool props Hm Hp) as [Hname Hnames].
  split.
  - intros Hargs.
    assert (invoke server validates py_str tool args s
            = (s, Raise (Exc ValidationError "validation error"))) as ->;
      [|done].
    unfold invoke, bind, lift.
    rewrite (validate_args_rejects _ _ _ Hsch); [done|].
    unfold field_value. cbn [fst snd annotation field_default].
    destruct Hargs as [->|(v & -> & Hv)]; [done | exact Hv].
  - intros v v' kwargs cmds Ha Hv Hval Hpop Hcmd. split.
    + assert (NoDup (map fst (args_schema tool))) as Hnd'.
      { rewrite Hnames; [done|]. intros ->. destruct Hin. }
      destruct (handed_on_get _ _ _ f Hval Hnd') as [_ Hget].
      rewrite (Hget _ Hsch), Ha. unfold field_value.
      cbn [fst snd annotation]. by rewrite Ha.
    + by apply (invoke_posts cmds).
Qed.

(** A field that is not required and declares no default still has to be
    supplied: the ellipsis handed to [Field] as its default means that
    there is none. *)
Lemma optional_without_default_rejected (cmd : Command) (tool : StructuredTool)
    (props info : dict) (required : list string) (f : string)
    (args : dict) (s : State) :
  make_tool cmd = Ret tool ->
  dict_get "properties" (parameters cmd) = Some (JObj props) ->
  required_set (parameters cmd) = Ret required ->
  In (f, JObj info) props ->
  in_required f required = false ->
  dict_get "default" info = None ->
  dict_get f args = None ->
  invoke server validates py_str tool args s
    = (s, Raise (Exc ValidationError "validation error")).
Proof.
  intros Hm Hp Hr Hin Hreq Hdef Hargs.
  destruct (declared_field cmd tool props required f (JObj info) Hm Hp Hr Hin)
    as (fi & Hfi & Hsch).
  cbn in Hfi. rewrite Hreq, Hdef in Hfi. injection Hfi as <-.
  unfold invoke, bind, lift.
  rewrite (validate_args_rejects _ _ _ Hsch); [done|].
  unfold field_value. cbn [fst snd field_default]. by rewrite Hargs.
Qed.

(** C1, as the code has it.  For a tool built from a command that
    declares a text field with an enumeration, the enumeration is kept as
    an annotation of the field and is no rule of the validation: whenever
    the tool accepts arguments that give the field one text, it accepts the
    arguments that give it any other text in its place, in the enumeration
    or not, hands that text on, changes nothing else, and posts it. *)
Theorem enum_kept_not_enforced (cmd : Command) (tool : StructuredTool)
    (props info : dict) (required : list string) (f : string) (enum : json) :
  make_tool cmd = Ret tool ->
  dict_get "properties" (parameters cmd) = Some (JObj props) ->
  required_set (parameters cmd) = Ret required ->
  NoDup (map fst props) ->
  In (f, JObj info) props ->
  dict_get "type" info = Some (JStr "string") ->
  dict_get "enum" info = Some enum ->
  (forall text, validates TStr (JStr text) = Some (JStr text)) ->
  (exists fi, In (f, fi) (args_schema tool) /\ field_enum fi = Some enum)
  /\ forall args args' text other kwargs,
       dict_get f args = Some (JStr text) ->
       dict_get f args' = Some (JStr other) ->
       (forall k, k <> f -> dict_get k args' = dict_get k args) ->
       validate_args validates (args_schema tool) args = Ret kwargs ->
       exists kwargs',
         validate_args validates (args_schema tool) args' = Ret kwargs'
         /\ dict_get f kwargs' = Some (JStr other)
         /\ (forall k, k <> f -> dict_get k kwargs' = dict_get k kwargs)
         /\ forall s cmds, populated s cmds -> In cmd cmds ->
              posts (fst (invoke server validates py_str tool args' s))
              = (posts s ++ [JObj [("command", JStr (name cmd));
                                   ("parameters", JObj kwargs')]])%list.
Proof.
  intros Hm Hp Hr Hnd Hin Hty Hen Hstr.
  destruct (declared_field cmd tool props required f (JObj info) Hm Hp Hr Hin)
    as (fi & Hfi & Hsch).
  cbn in Hfi. injection Hfi as Hfi.
  destruct (tool_names cmd tool props Hm Hp) as [Hname Hnames].
  assert (NoDup (map fst (args_schema tool))) as Hnd'.
  { rewrite Hnames; [done|]. intros ->. destruct Hin. }
  assert (annotation fi = TStr) as Hann
    by (rewrite <- Hfi; cbn [annotation]; unfold py_type_of; by rewrite Hty).
  split; [exists fi; split; [done | by rewrite <- Hfi]|].
  intros args args' text other kwargs Ha Ha' Hsame Hval.
  destruct (field_replaced (args_schema tool) f fi args args' kwargs
              (JStr other) Hnd' Hsch) as (kwargs' & Hval' & Hget & Hrest);
    [|done|done|].
  { unfold field_value. cbn [fst snd]. by rewrite Ha', Hann, Hstr. }
  rewrite Ha' in Hget.
  exists kwargs'. split; [done|]. split; [done|]. split; [done|].
  intros s cmds Hpop Hcmd. by apply (invoke_posts cmds).
Qed.
End ToolFacts.

(** *** The statements at concrete servers *)

Import Examples.

Lemma loaded_populated : populated loaded [pick_cmd; search_cmd].
Proof. split; [reflexivity | left; reflexivity]. Defined.

Lemma tools_of_catalog :
  snd (get_tools good_server init) = Ret [pick_tool; search_tool].
Proof. reflexivity. Qed.

(** C1, refuted as stated: the tool whose field [choice] declares the
    enumeration [a, b], invoked with [c], passes validation and the execute
    request goes out with [c]. *)
Lemma enum_outside_value_accepted :
  make_tool pick_cmd = Ret pick_tool
  /\ validate_args json_validates (args_schema pick_tool) [("choice", JStr "c")]
     = Ret [("choice", JStr "c")]
  /\ snd (invoke good_server json_validates text_of pick_tool
            [("choice", JStr "c")] loaded) = Ret "done"
  /\ posts (fst (invoke good_server json_validates text_of pick_tool
                   [("choice", JStr "c")] loaded))
     = [JObj [("command", JStr "pick");
              ("parameters", JObj [("choice", JStr "c")])]].
Proof. repeat split; reflexivity. Qed.

Lemma pick_in_loaded : In pick_cmd [pick_cmd; search_cmd].
Proof. by left. Qed.

Lemma enum_kept_not_enforced_witness :
  make_tool pick_cmd = Ret pick_tool
  /\ NoDup (map fst [("choice", JObj choice_info)])
  /\ In ("choice", JObj choice_info) [("choice", JObj choice_info)]
  /\ (forall text, json_validates TStr (JStr text) = Some (JStr text))
  /\ (forall k, k <> "choice" ->
        dict_get k [("choice", JStr "c")] = dict_get k [("choice", JStr "a")])
  /\ validate_args json_validates (args_schema pick_tool) [("choice", JStr "a")]
     = Ret [("choice", JStr "a")]
  /\ exists kwargs',
       validate_args json_validates (args_schema pick_tool)
         [("choice", JStr "c")] = Ret kwargs'
       /\ dict_get "choice" kwargs' = Some (JStr "c")
       /\ (forall k, k <> "choice" ->
             dict_get k kwargs' = dict_get k [("choice", JStr "a")])
       /\ forall s cmds, populated s cmds -> In pick_cmd cmds ->
            posts (fst (invoke good_server json_validates text_of pick_tool
                          [("choice", JStr "c")] s))
            = (posts s ++ [JObj [("command", JStr (name pick_cmd));
                                 ("parameters", JObj kwargs')]])%list.
Proof.
  assert (NoDup (map fst [("choice", JObj choice_info)])) as Hnd
    by (apply NoDup_singleton).
  assert (In ("choice", JObj choice_info) [("choice", JObj choice_info)])
    as Hin by (left; reflexivity).
  assert (forall text, json_validates TStr (JStr text) = Some (JStr text))
    as Hstr by reflexivity.
  assert (forall k, k <> "choice" ->
            dict_get k [("choice", JStr "c")] = dict_get k [("choice", JStr "a")])
    as Hsame.
  { intros k Hk. cbn [dict_get].
    destruct (String.eqb_spec "choice" k); [congruence | done]. }
  split; [reflexivity|]. split; [exact Hnd|]. split; [exact Hin|].
  split; [exact Hstr|]. split; [exact Hsame|]. split; [reflexivity|].
  exact (proj2 (enum_kept_not_enforced good_server json_validates text_of
                  pick_cmd pick_tool
                  [("choice", JObj choice_info)] choice_info ["choice"] "choice"
                  (JArr [JStr "a"; JStr "b"])
                  eq_refl eq_refl eq_refl Hnd Hin eq_refl eq_refl Hstr)
           [("choice", JStr "a")] [("choice", JStr "c")] "a" "c"
           [("choice", JStr "a")] eq_refl eq_refl Hsame eq_refl).
Defined.

(** C2, at the failing input: [limit] is absent from [required] and
    declares no default, yet the tool invoked without it fails validation
    and nothing is sent; with [limit] supplied, or for [lang], which declares
    a default, the invocation goes through. *)
Lemma optional_field_without_default_is_required :
  make_tool search_cmd = Ret search_tool
  /\ in_required "limit" ["query"] = false
  /\ snd (invoke good_server json_validates text_of search_tool
            [("query", JStr "x")] loaded)
     = Raise (Exc ValidationError "validation error")
  /\ posts (fst (invoke good_server json_validates text_of search_tool
                   [("query", JStr "x")] loaded)) = []
  /\ snd (invoke good_server json_validates text_of search_tool
            [("query", JStr "x"); ("limit", JInt 5)] loaded) = Ret "done".
Proof. repeat split; reflexivity. Qed.

Lemma repeat_populated : populated repeat_state [repeat_cmd].
Proof. split; [reflexivity | left; reflexivity]. Qed.

(** C3, refuted as stated: for the required field [times] of type
    integer the text [5] is a value of the wrong type, yet the tool accepts
    it and the execute request goes out, with the number 5. *)
Lemma number_as_text_accepted :
  make_tool repeat_cmd = Ret repeat_tool
  /\ in_required "times" ["times"] = true
  /\ snd (invoke good_server json_validates text_of repeat_tool
            [("times", JStr "5")] repeat_state) = Ret "done"
  /\ posts (fst (invoke good_server json_validates text_of repeat_tool
                   [("times", JStr "5")] repeat_state))
     = [JObj [("command", JStr "repeat");
              ("parameters", JObj [("times", JInt 5)])]].
Proof. repeat split; reflexivity. Qed.

Lemma required_field_validated_witness :
  make_tool search_cmd = Ret search_tool
  /\ NoDup (map fst search_props)
  /\ In ("query", JObj query_info) search_props
  /\ in_required "query" ["query"] = true
  /\ dict_get "query" [] = None
  /\ invoke good_server json_validates text_of search_tool [] loaded
     = (loaded, Raise (Exc ValidationError "validation error"))
  /\ posts (fst (invoke good_server json_validates text_of search_tool [] loaded))
     = posts loaded
  /\ json_validates (py_type_of query_info) (JArr [JStr "x"]) = None
  /\ invoke good_server json_validates text_of search_tool
       [("query", JArr [JStr "x"]); ("limit", JInt 5)] loaded
     = (loaded, Raise (Exc ValidationError "validation error"))
  /\ posts (fst (invoke good_server json_validates text_of search_tool
                   [("query", JArr [JStr "x"]); ("limit", JInt 5)] loaded))
     = posts loaded
  /\ json_validates (py_type_of [("type", JStr "integer")]) (JStr "5")
     = Some (JInt 5)
  /\ dict_get "times" [("times", JInt 5)] = Some (JInt 5)
  /\ posts (fst (invoke good_server json_validates text_of repeat_tool
                   [("times", JStr "5")] repeat_state))
     = (posts repeat_state
        ++ [JObj [("command", JStr (name repeat_cmd));
                  ("parameters", JObj [("times", JInt 5)])]])%list.
Proof.
  assert (NoDup (map fst search_props)) as Hnd.
  { cbn. repeat (apply NoDup_cons_2;
                   [rewrite list_elem_of_In; cbn; intuition discriminate|]).
    apply NoDup_nil_2. }
  assert (In ("query", JObj query_info) search_props) as Hin
    by (left; reflexivity).
  destruct (proj1 (required_field_validated good_server json_validates
                     text_of search_cmd search_tool search_props query_info
                     ["query"] "query" [] loaded
                     eq_refl eq_refl eq_refl Hnd Hin eq_refl)
              (or_introl eq_refl)) as [Imissing Pmissing].
  destruct (proj1 (required_field_validated good_server json_validates
                     text_of search_cmd search_tool search_props query_info
                     ["query"] "query"
                     [("query", JArr [JStr "x"]); ("limit", JInt 5)] loaded
                     eq_refl eq_refl eq_refl Hnd Hin eq_refl)
              (or_intror (ex_intro _ (JArr [JStr "x"])
                            (conj eq_refl eq_refl)))) as [Irefused Prefused].
  destruct (proj2 (required_field_validated good_server json_validates
                     text_of repeat_cmd repeat_tool
                     [("times", JObj [("type", JStr "integer")])]
                     [("type", JStr "integer")] ["times"] "times"
                     [("times", JStr "5")] repeat_state
                     eq_refl eq_refl eq_refl (NoDup_singleton _)
                     (or_introl eq_refl) eq_refl)
              (JStr "5") (JInt 5) [("times", JInt 5)] [repeat_cmd]
              eq_refl eq_refl eq_refl repeat_populated (or_introl eq_refl))
    as [Gconverted Pconverted].
  split; [reflexivity|]. split; [exact Hnd|]. split; [exact Hin|].
  split; [reflexivity|]. split; [reflexivity|].
  split; [exact Imissing|]. split; [exact Pmissing|]. split; [reflexivity|].
  split; [exact Irefused|]. split; [exact Prefused|]. split; [reflexivity|].
  split; [exact Gconverted | exact Pconverted].
Defined.

Lemma unknown_name_absent :
  forall c, In c [pick_cmd; search_cmd] -> name c <> "magic_nonexistent".
Proof. intros c [<-|[<-|[]]]; discriminate. Defined.

Lemma execute_unknown_command_witness :
  populated loaded [pick_cmd; search_cmd]
  /\ (forall c, In c [pick_cmd; search_cmd] -> name c <> "magic_nonexistent")
  /\ snd (execute_command good_server "magic_nonexistent" None loaded)
     = Raise (Exc CommandNotFoundError "Command not found: magic_nonexistent")
  /\ posts (fst (execute_command good_server "magic_nonexistent" None loaded))
     = posts loaded
  /\ gets (fst (execute_command good_server "magic_nonexistent" None loaded))
     = gets loaded.
Proof.
  split; [exact loaded_populated|]. split; [exact unknown_name_absent|].
  exact (execute_unknown_command good_server loaded [pick_cmd; search_cmd]
           "magic_nonexistent" None loaded_populated unknown_name_absent).
Defined.

Lemma execute_without_parameters_witness :
  populated loaded [pick_cmd; search_cmd]
  /\ In pick_cmd [pick_cmd; search_cmd]
  /\ posts (fst (execute_command good_server "pick" None loaded))
     = (posts loaded ++
          [JObj [("command", JStr "pick"); ("parameters", JObj [])]])%list
  /\ forall params, exists d,
       posts (fst (execute_command good_server "pick" params loaded))
       = (posts loaded ++
            [JObj [("command", JStr "pick"); ("parameters", JObj d)]])%list.
Proof.
  assert (In pick_cmd [pick_cmd; search_cmd]) as Hin by (left; reflexivity).
  split; [exact loaded_populated|]. split; [exact Hin|].
  exact (execute_without_parameters good_server loaded [pick_cmd; search_cmd]
           pick_cmd loaded_populated Hin).
Defined.

(** C5, refuted as stated: a client whose first catalog request is
    answered with a 500 issues a second one at the next read; and one read
    against a server that cannot be reached issues three. *)
Lemma catalog_fetched_again :
  gets (perform_all recovering_server json_validates text_of
          [UseCommands; UseCommands] init) = 2
  /\ gets (perform_all unreachable_server json_validates text_of
             [UseCommands] init) = 3.
Proof. split; reflexivity. Qed.

Lemma no_fetch_once_cached_witness :
  _commands loaded <> None
  /\ gets (perform_all good_server json_validates text_of
             [UseCommands; UseExecute "pick" None; UseGetTools; UseCommandMap;
              UseInvoke pick_tool [("choice", JStr "a")]] loaded)
     = gets loaded.
Proof.
  assert (_commands loaded <> None) as H by discriminate.
  split; [exact H|].
  exact (proj1 (proj2 (no_fetch_once_cached good_server json_validates text_of
                         [UseCommands; UseExecute "pick" None; UseGetTools;
                          UseCommandMap; UseInvoke pick_tool [("choice", JStr "a")]]
                         loaded) H)).
Defined.

Lemma retry_policy_witness :
  on_get unreachable_server 0 = NetFail refused
  /\ retry_if_exception_type refused = true
  /\ snd (_load_commands unreachable_server init) = Raise refused
  /\ gets (fst (_load_commands unreachable_server init)) = 0 + 3
  /\ sleeps (fst (_load_commands unreachable_server init)) = [2; 2]
  /\ (forall i, i < 1 ->
        exists e, on_get overloaded_server (gets init + i) = NetFail e
                  /\ retry_if_exception_type e = true)
  /\ on_get overloaded_server (gets init + 1) = Response 503 None
  /\ ended_at (_load_commands overloaded_server init) init 2 (Response 503 None).
Proof.
  assert (forall i, i < 1 ->
            exists e, on_get overloaded_server (gets init + i) = NetFail e
                      /\ retry_if_exception_type e = true) as Hfirst.
  { intros i Hi. assert (i = 0) as -> by lia. by exists refused. }
  assert (1 = 2 \/ forall e, Response 503 None = NetFail e ->
                             retry_if_exception_type e = false) as Hlast
    by (right; intros e; discriminate).
  split; [reflexivity|]. split; [reflexivity|].
  split; [|split; [|split; [|split; [exact Hfirst|split; [reflexivity|]]]]].
  - exact (proj1 (proj1 (proj2 (proj2 (proj2 (retry_policy unreachable_server
             init)))) refused refused refused eq_refl eq_refl eq_refl
             eq_refl eq_refl eq_refl)).
  - exact (proj1 (proj2 (proj1 (proj2 (proj2 (proj2 (retry_policy
             unreachable_server init)))) refused refused refused
             eq_refl eq_refl eq_refl eq_refl eq_refl eq_refl))).
  - exact (proj2 (proj2 (proj1 (proj2 (proj2 (proj2 (retry_policy
             unreachable_server init)))) refused refused refused
             eq_refl eq_refl eq_refl eq_refl eq_refl eq_refl))).
  - exact (proj2 (proj2 (proj2 (proj2 (proj2 (proj2 (retry_policy
             overloaded_server init))))))
             1 (Response 503 None) (le_S 2 2 (le_n 2)) Hfirst eq_refl Hlast).
Defined.
End MCPFacts.

(** * Further facts about the client *)

Module MCPMoreFacts.
Import Py MCP MCPMore MCPFacts.

#[local] Arguments _load_commands : simpl never.
#[local] Arguments mapping : simpl never.

(** ** The command dictionary *)

Lemma foldl_insert_sound (cmds : list Command) (m : gmap string Command)
    (n : string) (c : Command) :
  foldl (fun m cmd => <[name cmd := cmd]> m) m cmds !! n = Some c ->
  (In c cmds /\ name c = n) \/ m !! n = Some c.
Proof.
  revert m. induction cmds as [|c0 cmds IH]; intros m; cbn; [by right|].
  intros H. destruct (IH _ H) as [[Hin Hn]|Hm].
  - left. split; [by right | done].
  - destruct (decide (name c0 = n)) as [<-|Hne].
    + rewrite lookup_insert_eq in Hm. injection Hm as <-. left.
      split; [by left | done].
    + rewrite lookup_insert_ne in Hm by done. by right.
Qed.

(** Every entry of the dictionary is a command of the catalog filed under
    its own name, and of two commands with one name the later one is the one
    found. *)
Theorem command_map_entries (cmds : list Command) (n : string) (c : Command) :
  (build_map cmds !! n = Some c -> In c cmds /\ name c = n)
  /\ build_map (cmds ++ [c]) !! name c = Some c.
Proof.
  split.
  - intros H. destruct (foldl_insert_sound cmds ∅ n c H) as [?|Hm]; [done|].
    by rewrite lookup_empty in Hm.
  - unfold build_map. rewrite foldl_app. cbn. apply lookup_insert_eq.
Qed.

Section More.
Variable server : Server.

(** ** The execute request *)

Lemma execute_known_run (s : State) (cmds : list Command) (c : Command)
    (n : string) (params : option dict) :
  populated s cmds -> build_map cmds !! n = Some c ->
  exists s1,
    gets s1 = gets s /\ posts s1 = posts s /\ sleeps s1 = sleeps s
    /\ snd (execute_command server n params s)
       = snd (try_except
                (bind (http_post server (payload_of n params)) (fun response =>
                 bind (raise_for_status (fst response)) (fun _ =>
                 result_of (snd response))))
                (fun e =>
                   match e with
                   | HTTPStatusError st =>
                       if (st =? 404)%nat then
                         Some (raise (Exc CommandNotFoundError
                           ("Command execution failed - not found: " +:+ n)))
                       else
                         Some (raise (Exc MCPError
                           ("Command execution failed: " +:+ pretty st)))
                   | _ => None
                   end) s1).
Proof.
  intros Hpop Hn.
  destruct (command_map_populated server s cmds Hpop) as (s1 & E & Hg & Hp & Hs & _).
  exists s1. repeat (split; [done|]).
  unfold execute_command. unfold bind at 1. by rewrite E, Hn.
Qed.

(** A known command called with a dictionary of parameters, whose request
    the server answers with a 2xx status and an object holding [result]:
    [execute_command] returns that result, having posted one payload, the
    command's name with the parameters exactly as given. *)
Theorem execute_returns_result (s : State) (cmds : list Command) (c : Command)
    (params : dict) (st : nat) (entries : dict) (r : json) :
  populated s cmds -> In c cmds ->
  on_post server (length (posts s))
    (JObj [("command", JStr (name c)); ("parameters", JObj params)])
    = Response st (Some (JObj entries)) ->
  is_success st = true ->
  dict_get "result" entries = Some r ->
  snd (execute_command server (name c) (Some params) s) = Ret r
  /\ posts (fst (execute_command server (name c) (Some params) s))
     = (posts s ++ [JObj [("command", JStr (name c));
                          ("parameters", JObj params)]])%list.
Proof.
  intros Hpop Hin Hrep Hst Hr.
  destruct (build_map_known cmds c Hin) as [c' Hc'].
  split.
  - destruct (execute_known_run s cmds c' (name c) (Some params) Hpop Hc')
      as (s1 & _ & Hp & _ & ->).
    unfold payload_of. rewrite or_empty_some.
    unfold_m. cbn. rewrite Hp, Hrep. cbn. rewrite Hst. cbn. by rewrite Hr.
  - destruct (execute_known server s cmds c' (name c) (Some params) Hpop Hc')
      as [-> _]. by rewrite or_empty_some.
Qed.

(** A known command whose request the server answers with a status outside
    2xx: a 404 becomes [CommandNotFoundError], any other status becomes
    [MCPError] carrying the status. *)
Theorem execute_status_errors (s : State) (cmds : list Command) (c : Command)
    (params : option dict) (st : nat) (body : option json) :
  populated s cmds -> In c cmds ->
  on_post server (length (posts s)) (payload_of (name c) params)
    = Response st body ->
  is_success st = false ->
  snd (execute_command server (name c) params s)
  = Raise (if (st =? 404)%nat
           then Exc CommandNotFoundError
                  ("Command execution failed - not found: " +:+ name c)
           else Exc MCPError ("Command execution failed: " +:+ pretty st)).
Proof.
  intros Hpop Hin Hrep Hst.
  destruct (build_map_known cmds c Hin) as [c' Hc'].
  destruct (execute_known_run s cmds c' (name c) params Hpop Hc')
    as (s1 & _ & Hp & _ & ->).
  unfold_m. cbn. rewrite Hp, Hrep. cbn. rewrite Hst. cbn.
  by destruct (st =? 404)%nat.
Qed.

(** What is not a status error is not converted: a failure of the request
    itself is raised as it is; a 2xx answer whose body is not JSON raises the
    decoder's [ValueError] with the decoder's own text, which for an empty
    body is the one given; and one that is an object without [result] raises
    [KeyError]. *)
Theorem execute_other_failures_pass (s : State) (cmds : list Command)
    (c : Command) (params : option dict) :
  populated s cmds -> In c cmds ->
  (forall k msg,
     on_post server (length (posts s)) (payload_of (name c) params)
       = NetFail (Exc k msg) ->
     snd (execute_command server (name c) params s) = Raise (Exc k msg))
  /\ (forall st,
        on_post server (length (posts s)) (payload_of (name c) params)
          = Response st None ->
        is_success st = true ->
        snd (execute_command server (name c) params s)
        = Raise (Exc ValueError "Expecting value: line 1 column 1 (char 0)"))
  /\ (forall st msg,
        on_post server (length (posts s)) (payload_of (name c) params)
          = Garbled st msg ->
        is_success st = true ->
        snd (execute_command server (name c) params s)
        = Raise (Exc ValueError msg))
  /\ (forall st entries,
        on_post server (length (posts s)) (payload_of (name c) params)
          = Response st (Some (JObj entries)) ->
        is_success st = true ->
        dict_get "result" entries = None ->
        snd (execute_command server (name c) params s)
        = Raise (Exc KeyError "'result'")).
Proof.
  intros Hpop Hin.
  destruct (build_map_known cmds c Hin) as [c' Hc'].
  destruct (execute_known_run s cmds c' (name c) params Hpop Hc')
    as (s1 & _ & Hp & _ & ->).
  repeat split.
  - intros k msg Hrep. unfold_m. cbn. by rewrite Hp, Hrep.
  - intros st Hrep Hst. unfold_m. cbn. rewrite Hp, Hrep. cbn. by rewrite Hst.
  - intros st msg Hrep Hst. unfold_m. cbn. rewrite Hp, Hrep. cbn.
    by rewrite Hst.
  - intros st entries Hrep Hst Hr. unfold_m. cbn. rewrite Hp, Hrep. cbn.
    rewrite Hst. cbn. by rewrite Hr.
Qed.

(** ** The catalog fetch and the cache *)

(** One attempt either succeeds, leaving a catalog cached and no dictionary,
    or raises, leaving both cache attributes as they were. *)
Lemma load_once_cache (s : State) :
  (snd (load_commands_once server s) = Ret tt
   /\ _commands (fst (load_commands_once server s)) <> None
   /\ _command_map (fst (load_commands_once server s)) = None)
  \/ ((exists e, snd (load_commands_once server s) = Raise e)
      /\ _commands (fst (load_commands_once server s)) = _commands s
      /\ _command_map (fst (load_commands_once server s)) = _command_map s).
Proof.
  unfold load_commands_once. unfold_m. cbn.
  destruct (on_get server (gets s)) as [e|st body|st msg]; cbn.
  - right. destruct e as [[] msg|st]; cbn; eauto.
  - destruct (is_success st); cbn; [|right; eauto].
    destruct body as [[]|]; cbn; try (right; by eauto).
    destruct (res_map model_validate items) as [cmds|[[] msg|st']]; cbn;
      try (right; by eauto).
    by left.
  - right. destruct (is_success st); cbn; eauto.
Qed.

Lemma load_commands_cache (s : State) :
  (snd (_load_commands server s) = Ret tt
   /\ _commands (fst (_load_commands server s)) <> None
   /\ _command_map (fst (_load_commands server s)) = None)
  \/ ((exists e, snd (_load_commands server s) = Raise e)
      /\ _commands (fst (_load_commands server s)) = _commands s
      /\ _command_map (fst (_load_commands server s)) = _command_map s).
Proof.
  rewrite load_commands_unroll.
  pose proof (load_once_cache s) as H1.
  destruct (load_commands_once server s) as [s1 [[]|e1]]; cbn [fst snd] in *;
    [destruct H1 as [H1|[[e' He'] _]]; [by left | done]|].
  destruct H1 as [[? _]|(_ & C1 & M1)]; [done|].
  destruct (retry_if_exception_type e1); cbn [fst snd]; [|right; eauto].
  pose proof (load_once_cache (slept 2 s1)) as H2.
  change (_commands (slept 2 s1)) with (_commands s1) in H2.
  change (_command_map (slept 2 s1)) with (_command_map s1) in H2.
  destruct (load_commands_once server (slept 2 s1)) as [s2 [[]|e2]];
    cbn [fst snd] in *;
    [destruct H2 as [H2|[[e' He'] _]]; [by left | done]|].
  destruct H2 as [[? _]|(_ & C2 & M2)]; [done|].
  destruct (retry_if_exception_type e2); cbn [fst snd];
    [|right; split; [eauto | split; congruence]].
  pose proof (load_once_cache (slept 2 s2)) as H3.
  change (_commands (slept 2 s2)) with (_commands s2) in H3.
  change (_command_map (slept 2 s2)) with (_command_map s2) in H3.
  destruct (load_commands_once server (slept 2 s2)) as [s3 [[]|e3]];
    cbn [fst snd] in *;
    [destruct H3 as [H3|[[e' He'] _]]; [by left | done]|].
  destruct H3 as [[? _]|(_ & C3 & M3)]; [done|].
  right. split; [eauto | split; congruence].
Qed.

(** A catalog fetch that fails caches nothing: whatever the failure and
    however many attempts were made, the cached catalog and the dictionary are
    what they were before the call. *)
Theorem failed_fetch_caches_nothing (s : State) (e : Exn) :
  snd (_load_commands server s) = Raise e ->
  _commands (fst (_load_commands server s)) = _commands s
  /\ _command_map (fst (_load_commands server s)) = _command_map s.
Proof.
  intros H. destruct (load_commands_cache s) as [[H' _]|(_ & C & M)]; [|done].
  by rewrite H in H'.
Qed.

Lemma load_once_success (s : State) (st : nat) (items : list json)
    (cmds : list Command) :
  on_get server (gets s) = Response st (Some (JArr items)) ->
  is_success st = true ->
  res_map model_validate items = Ret cmds ->
  load_commands_once server s
  = ({| _commands := Some cmds; _command_map := None; gets := S (gets s);
        posts := posts s; sleeps := sleeps s |}, Ret tt).
Proof.
  intros Hrep Hst Hv. unfold load_commands_once. unfold_m. cbn.
  rewrite Hrep. cbn. rewrite Hst. cbn. by rewrite Hv.
Qed.

(** A catalog the server delivers at once is cached as parsed: one request,
    no wait, the commands in the order sent, and any dictionary built from an
    earlier catalog is dropped. *)
Theorem fetch_caches_catalog (s : State) (st : nat) (items : list json)
    (cmds : list Command) :
  on_get server (gets s) = Response st (Some (JArr items)) ->
  is_success st = true ->
  res_map model_validate items = Ret cmds ->
  snd (_load_commands server s) = Ret tt
  /\ _commands (fst (_load_commands server s)) = Some cmds
  /\ _command_map (fst (_load_commands server s)) = None
  /\ gets (fst (_load_commands server s)) = S (gets s)
  /\ sleeps (fst (_load_commands server s)) = sleeps s.
Proof.
  intros Hrep Hst Hv. rewrite load_commands_unroll.
  by rewrite (load_once_success s st items cmds Hrep Hst Hv).
Qed.

(** A connection failure followed by an answer: the second attempt's catalog
    is cached after two requests and one wait of 2. *)
Theorem fetch_recovers_on_retry (s : State) (e : Exn) (st : nat)
    (items : list json) (cmds : list Command) :
  on_get server (gets s) = NetFail e ->
  retry_if_exception_type e = true ->
  on_get server (S (gets s)) = Response st (Some (JArr items)) ->
  is_success st = true ->
  res_map model_validate items = Ret cmds ->
  snd (_load_commands server s) = Ret tt
  /\ _commands (fst (_load_commands server s)) = Some cmds
  /\ gets (fst (_load_commands server s)) = S (S (gets s))
  /\ sleeps (fst (_load_commands server s)) = (sleeps s ++ [2])%list.
Proof.
  intros Hfail Hr Hrep Hst Hv. rewrite load_commands_unroll.
  pose proof (load_once_netfail server s e Hfail Hr) as H1.
  pose proof (load_once_net server s) as (G1 & _ & S1).
  destruct (load_commands_once server s) as [s1 [[]|e1]]; cbn [fst snd] in *;
    [done|].
  injection H1 as ->. rewrite Hr.
  assert (gets (slept 2 s1) = S (gets s)) as G by done.
  rewrite <- G in Hrep.
  rewrite (load_once_success (slept 2 s1) st items cmds Hrep Hst Hv).
  cbn [fst snd _commands gets sleeps]. repeat split; try done.
  - by rewrite G.
  - change (sleeps (slept 2 s1)) with (sleeps s1 ++ [2])%list. by rewrite S1.
Qed.

(** [execute_command] on a client that has not loaded its catalog fetches
    it first; when the fetch fails the failure is what the call raises, and
    nothing is posted. *)
Theorem execute_needs_catalog (s : State) (n : string) (params : option dict)
    (e : Exn) :
  _commands s = None -> _command_map s = None ->
  snd (_load_commands server s) = Raise e ->
  snd (execute_command server n params s) = Raise e
  /\ posts (fst (execute_command server n params s)) = posts s.
Proof.
  intros Hc Hm Hload.
  pose proof (load_commands_net server s) as [_ P].
  unfold execute_command, command_map, commands. unfold_m. rewrite Hm, Hc.
  destruct (_load_commands server s) as [s1 [[]|e1]]; cbn [fst snd] in *;
    [done|].
  by injection Hload as ->.
Qed.

End More.

(** ** Decoding a catalog record *)

(** A [Command] dumped to a dictionary and validated again is the command
    itself. *)
Theorem model_dump_round_trip (cmd : Command) :
  model_validate (model_dump cmd) = Ret cmd.
Proof. by destruct cmd. Qed.

(** ** Types of declared parameters *)

Lemma mapping_NoneType (t : string) :
  is_NoneType (mapping t) = true <-> t = "null".
Proof.
  unfold mapping. split.
  - repeat (match goal with
            | |- context [String.eqb ?a ?b] => destruct (String.eqb_spec a b)
            end; try done).
  - by intros ->.
Qed.

Lemma type_of_list (items : list json) :
  json_type_to_py_type (JArr items)
  = let types := map json_type_to_py_type items in
    if existsb is_NoneType types then
      match remove_NoneType types with
      | [t] => TOptional t
      | [] => TAny
      | types' => TUnion types'
      end
    else match types with [] => TAny | _ => TUnion types end.
Proof. reflexivity. Qed.

(** A type given as a list of names: one name beside "null" gives the
    optional of that name's type, in either order; two names beside "null"
    give the union of the two, in which "null" is no longer a member; a list
    without "null" gives the union of all. *)
Theorem type_lists (t1 t2 : string) :
  t1 <> "null" -> t2 <> "null" ->
  json_type_to_py_type (JArr [JStr t1; JStr "null"]) = TOptional (mapping t1)
  /\ json_type_to_py_type (JArr [JStr "null"; JStr t1]) = TOptional (mapping t1)
  /\ json_type_to_py_type (JArr [JStr t1; JStr t2; JStr "null"])
     = TUnion [mapping t1; mapping t2]
  /\ json_type_to_py_type (JArr [JStr t1; JStr t2])
     = TUnion [mapping t1; mapping t2].
Proof.
  intros H1 H2.
  assert (is_NoneType (mapping t1) = false) as N1.
  { destruct (is_NoneType (mapping t1)) eqn:E; [|done].
    by apply mapping_NoneType in E. }
  assert (is_NoneType (mapping t2) = false) as N2.
  { destruct (is_NoneType (mapping t2)) eqn:E; [|done].
    by apply mapping_NoneType in E. }
  assert (is_NoneType (mapping "null") = true) as N0 by done.
  rewrite !type_of_list. cbn [map].
  change (json_type_to_py_type (JStr t1)) with (mapping t1).
  change (json_type_to_py_type (JStr t2)) with (mapping t2).
  change (json_type_to_py_type (JStr "null")) with (mapping "null").
  cbn [existsb remove_NoneType]. rewrite N0, N1, N2. cbn [orb].
  rewrite ?N0, ?N1, ?N2. done.
Qed.

Section Tools.
Variable server : Server.
Variable validates : PyType -> json -> option json.
Variable py_str : json -> string.

(** ** Coherence of the cache *)

Lemma command_map_coherent (s : State) :
  coherent s -> coherent (fst (command_map server s)).
Proof.
  unfold coherent, command_map, commands. unfold_m.
  destruct (_command_map s) as [m|] eqn:Hm; cbn; [by rewrite Hm|]. intros _.
  destruct (_commands s) as [l|] eqn:Hc; cbn.
  - rewrite Hc. cbn. eauto.
  - destruct (load_commands_cache server s) as [(R & C & M)|([e R] & C & M)];
      destruct (_load_commands server s) as [s1 [[]|e1]]; cbn [fst snd] in *;
      try done.
    + destruct (_commands s1) as [l|] eqn:Hc1; [|done]. cbn. eauto.
    + by rewrite M, Hm.
Qed.

Lemma execute_coherent (s : State) (n : string) (params : option dict) :
  coherent s -> coherent (fst (execute_command server n params s)).
Proof.
  intros H. apply command_map_coherent in H.
  unfold execute_command, bind.
  destruct (command_map server s) as [s1 [m|e]]; cbn [fst] in *; [|done].
  destruct (m !! n); [|done].
  unfold_m. cbn.
  destruct (on_post server _ _) as [e|st body|st msg]; cbn.
  - by destruct e as [k msg|st]; cbn; [|destruct (st =? 404)%nat; cbn].
  - destruct (is_success st); cbn.
    + destruct body as [[]|]; cbn; try done.
      by destruct (dict_get "result" _); cbn.
    + by destruct (st =? 404)%nat; cbn.
  - by destruct (is_success st); cbn; [|destruct (st =? 404)%nat; cbn].
Qed.

Lemma perform_coherent (c : Call) (s : State) :
  coherent s -> coherent (perform server validates py_str c s).
Proof.
  intros H. destruct c as [| |n params| |tool args]; cbn [perform].
  - unfold commands. unfold_m.
    destruct (_commands s) as [l|] eqn:Hc; cbn; [done|].
    destruct (load_commands_cache server s) as [(R & C & M)|([e R] & C & M)];
      destruct (_load_commands server s) as [s1 [[]|e1]]; cbn [fst snd] in *;
      try done.
    + unfold coherent. by rewrite M.
    + unfold coherent in *. rewrite M.
      destruct (_command_map s) as [m|]; [|done].
      destruct H as (cmds & Hcs & _). congruence.
  - by apply command_map_coherent.
  - by apply execute_coherent.
  - unfold get_tools, commands. unfold_m.
    destruct (_commands s) as [l|] eqn:Hc; cbn.
    + rewrite Hc. by cbn.
    + destruct (load_commands_cache server s) as [(R & C & M)|([e R] & C & M)];
        destruct (_load_commands server s) as [s1 [[]|e1]]; cbn [fst snd] in *;
        try done.
      * destruct (_commands s1); cbn; unfold coherent; by rewrite M.
      * unfold coherent in *. rewrite M.
        destruct (_command_map s) as [m|]; [|done].
        destruct H as (cmds & Hcs & _). congruence.
  - unfold invoke, tool_func, bind, lift.
    destruct (validate_args validates (args_schema tool) args) as [kw|e];
      [|done].
    pose proof (execute_coherent s (tool_name tool) (Some kw) H) as H'.
    by destruct (execute_command server (tool_name tool) (Some kw) s)
      as [s1 [r|e]].
Qed.

(** Whatever a client is used for from its creation on, its cache stays
    coherent: the command dictionary is never one of a catalog other than the
    cached one. *)
Theorem cache_stays_coherent (calls : list Call) :
  coherent (perform_all server validates py_str calls init).
Proof.
  assert (forall s, coherent s ->
            coherent (perform_all server validates py_str calls s)) as H.
  { induction calls as [|c calls IH]; intros s Hs; [done|].
    apply (IH (perform server validates py_str c s)).
    by apply perform_coherent. }
  by apply H.
Qed.

(** ** Synthesized tools *)

Lemma commands_returns_cache (s s1 : State) (v : option (list Command)) :
  commands server s = (s1, Ret v) -> v = _commands s1.
Proof.
  unfold commands. unfold_m.
  destruct (_commands s) eqn:Hc; cbn.
  - by intros [= <- <-].
  - destruct (_load_commands server s) as [s' [[]|e]]; cbn; [|done].
    by intros [= <- <-].
Qed.

Lemma make_tool_labels (cmd : Command) (tool : StructuredTool) :
  make_tool cmd = Ret tool ->
  tool_name tool = name cmd /\ tool_description tool = description cmd.
Proof.
  unfold make_tool. destruct (schema_fields cmd); cbn; [|done].
  by intros [= <-].
Qed.

Lemma make_tools_labels (cmds : list Command) (tools : list StructuredTool) :
  res_map make_tool cmds = Ret tools ->
  map tool_name tools = map name cmds
  /\ map tool_description tools = map description cmds.
Proof.
  revert tools. induction cmds as [|cmd cmds IH]; intros tools; cbn.
  - by intros [= <-].
  - destruct (make_tool cmd) as [t|e] eqn:E; cbn; [|done].
    destruct (res_map make_tool cmds) as [ts|e]; cbn; [|done].
    intros [= <-]. cbn [map].
    destruct (make_tool_labels cmd t E) as [Hn Hd].
    destruct (IH ts eq_refl) as [Hns Hds].
    by rewrite Hn, Hd, Hns, Hds.
Qed.

(** When [get_tools] returns, it returns one tool per cached command, in
    the catalog's order, each with the command's name and description. *)
Theorem get_tools_mirrors_catalog (s : State) (tools : list StructuredTool) :
  snd (get_tools server s) = Ret tools ->
  exists cmds,
    _commands (fst (get_tools server s)) = Some cmds
    /\ map tool_name tools = map name cmds
    /\ map tool_description tools = map description cmds.
Proof.
  unfold get_tools, bind.
  destruct (commands server s) as [s1 [v|e]] eqn:E; cbn; [|done].
  apply commands_returns_cache in E. subst v.
  destruct (_commands s1) as [l|] eqn:Hc; unfold lift, raise; cbn; [|done].
  intros H. exists l. split; [done|]. by apply make_tools_labels.
Qed.

(** A command that declares no properties gets a schema without fields, and
    its tool, whatever arguments it is invoked with, posts an empty
    [parameters] object. *)
Theorem parameterless_tool (s : State) (cmds : list Command) (cmd : Command)
    (args : dict) :
  populated s cmds -> In cmd cmds ->
  has_parameters cmd = false ->
  exists tool,
    make_tool cmd = Ret tool /\ args_schema tool = []
    /\ posts (fst (invoke server validates py_str tool args s))
       = (posts s ++ [JObj [("command", JStr (name cmd));
                            ("parameters", JObj [])]])%list.
Proof.
  intros Hpop Hin Hno.
  exists {| tool_name := name cmd; tool_description := description cmd;
            args_schema := [] |}.
  split; [unfold make_tool, schema_fields; by rewrite Hno|]. split; [done|].
  destruct (build_map_known cmds cmd Hin) as [c' Hc'].
  pose proof (execute_known server s cmds c' (name cmd) (Some []) Hpop Hc')
    as (Hp & _).
  unfold invoke, tool_func, bind, lift, validate_args. cbn.
  by destruct (execute_command server (name cmd) (Some []) s) as [s1 [r|e]].
Qed.

(** A tool invoked with arguments its schema validates, on a loaded client
    whose server answers with a result: one payload is posted, the tool's
    name with the keyword arguments made of the validated model, and the
    result comes back as text.  The keyword arguments hold, for a field the
    caller supplied, the value as validation gives it back, which need not
    be the value supplied; for an omitted field, its declared default; and
    nothing under a name that is no field. *)
Theorem invoke_executes (s : State) (cmds : list Command) (cmd : Command)
    (tool : StructuredTool) (args kwargs : dict) (st : nat) (entries : dict)
    (r : json) :
  populated s cmds -> In cmd cmds ->
  make_tool cmd = Ret tool ->
  NoDup (map fst (args_schema tool)) ->
  validate_args validates (args_schema tool) args = Ret kwargs ->
  on_post server (length (posts s))
    (JObj [("command", JStr (name cmd)); ("parameters", JObj kwargs)])
    = Response st (Some (JObj entries)) ->
  is_success st = true ->
  dict_get "result" entries = Some r ->
  snd (invoke server validates py_str tool args s) = Ret (py_str r)
  /\ posts (fst (invoke server validates py_str tool args s))
     = (posts s ++ [JObj [("command", JStr (name cmd));
                          ("parameters", JObj kwargs)]])%list
  /\ (forall k fi v, In (k, fi) (args_schema tool) ->
        dict_get k args = Some v ->
        dict_get k kwargs = validates (annotation fi) v
        /\ validates (annotation fi) v <> None)
  /\ (forall k fi d, In (k, fi) (args_schema tool) ->
        dict_get k args = None -> field_default fi = DefaultValue d ->
        dict_get k kwargs = if synthetic_name k then None else Some d)
  /\ (forall k, ~ In k (map fst (args_schema tool)) ->
        dict_get k kwargs = None).
Proof.
  intros Hpop Hin Hmk Hnd Hval Hrep Hst Hr.
  destruct (make_tool_labels cmd tool Hmk) as [Hname _].
  destruct (build_map_known cmds cmd Hin) as [c' Hc'].
  destruct (execute_known_run server s cmds c' (name cmd) (Some kwargs) Hpop Hc')
    as (s1 & _ & Hp1 & _ & Hrun).
  assert (snd (execute_command server (name cmd) (Some kwargs) s) = Ret r) as Hres.
  { rewrite Hrun. unfold payload_of. rewrite or_empty_some.
    unfold_m. cbn. rewrite Hp1, Hrep. cbn. rewrite Hst. cbn. by rewrite Hr. }
  split; [|split; [by apply (invoke_posts server validates py_str cmds)|]].
  { unfold invoke, tool_func, bind, lift. rewrite Hval, Hname.
    destruct (execute_command server (name cmd) (Some kwargs) s) as [s2 [r'|e]];
      cbn [fst snd] in *; [|done].
    by injection Hres as ->. }
  split; [|split].
  - intros k fi v Hfld Ha.
    destruct (handed_on_get validates _ _ _ k Hval Hnd) as [_ Hget].
    pose proof (validate_args_values validates _ _ _ _ Hval Hfld) as Hsome.
    rewrite (Hget _ Hfld), Ha. unfold field_value in *. cbn [fst snd] in *.
    by rewrite Ha in *.
  - intros k fi d Hfld Ha Hd.
    destruct (handed_on_get validates _ _ _ k Hval Hnd) as [_ Hget].
    rewrite (Hget _ Hfld), Ha. unfold field_value. cbn [fst snd].
    by rewrite Ha, Hd.
  - intros k Hk.
    by destruct (handed_on_get validates _ _ _ k Hval Hnd) as [-> _].
Qed.

(** A declared parameter that is not required and declares a default may be
    left out: its field carries the default, and whenever the tool accepts
    some arguments it accepts the same arguments without that field, hands on
    the default in its place (unless the field is called [args] or [kwargs],
    which langchain-core leaves out), changes nothing else, and posts that. *)
Theorem declared_default_optional (cmd : Command) (tool : StructuredTool)
    (props info : dict) (required : list string) (f : string) (d : json) :
  make_tool cmd = Ret tool ->
  dict_get "properties" (parameters cmd) = Some (JObj props) ->
  required_set (parameters cmd) = Ret required ->
  NoDup (map fst props) ->
  In (f, JObj info) props ->
  in_required f required = false ->
  dict_get "default" info = Some d ->
  (exists fi, In (f, fi) (args_schema tool)
              /\ field_default fi = DefaultValue d)
  /\ forall args args' kwargs,
       dict_get f args' = None ->
       (forall k, k <> f -> dict_get k args' = dict_get k args) ->
       validate_args validates (args_schema tool) args = Ret kwargs ->
       exists kwargs',
         validate_args validates (args_schema tool) args' = Ret kwargs'
         /\ dict_get f kwargs' = (if synthetic_name f then None else Some d)
         /\ (forall k, k <> f -> dict_get k kwargs' = dict_get k kwargs)
         /\ forall s cmds, populated s cmds -> In cmd cmds ->
              posts (fst (invoke server validates py_str tool args' s))
              = (posts s ++ [JObj [("command", JStr (name cmd));
                                   ("parameters", JObj kwargs')]])%list.
Proof.
  intros Hm Hp Hr Hnd Hin Hreq Hdef.
  destruct (declared_field cmd tool props required f (JObj info) Hm Hp Hr Hin)
    as (fi & Hfi & Hsch).
  cbn in Hfi. rewrite Hreq, Hdef in Hfi. injection Hfi as Hfi.
  destruct (tool_names cmd tool props Hm Hp) as [Hname Hnames].
  assert (NoDup (map fst (args_schema tool))) as Hnd'.
  { rewrite Hnames; [done|]. intros ->. destruct Hin. }
  split; [exists fi; split; [done | by rewrite <- Hfi]|].
  intros args args' kwargs Ha' Hsame Hval.
  destruct (field_replaced validates (args_schema tool) f fi args args' kwargs
              d Hnd' Hsch) as (kwargs' & Hval' & Hget & Hrest);
    [|done|done|].
  { unfold field_value. cbn [fst snd]. by rewrite Ha', <- Hfi. }
  rewrite Ha' in Hget.
  exists kwargs'. split; [done|]. split; [done|]. split; [done|].
  intros s cmds Hpop Hcmd.
  by apply (invoke_posts server validates py_str cmds).
Qed.

End Tools.

(** ** The statements at concrete servers *)

Import Examples MoreExamples.

Lemma pick_in_catalog : In pick_cmd [pick_cmd; search_cmd].
Proof. left. reflexivity. Defined.

Lemma command_map_entries_witness :
  build_map [pick_cmd; search_cmd] !! "pick" = Some pick_cmd
  /\ In pick_cmd [pick_cmd; search_cmd] /\ name pick_cmd = "pick".
Proof.
  assert (build_map [pick_cmd; search_cmd] !! "pick" = Some pick_cmd) as H
    by reflexivity.
  split; [exact H|].
  exact (proj1 (command_map_entries [pick_cmd; search_cmd] "pick" pick_cmd) H).
Defined.

Lemma execute_returns_result_witness :
  populated loaded [pick_cmd; search_cmd]
  /\ is_success 200 = true
  /\ snd (execute_command good_server "pick" (Some [("choice", JStr "a")]) loaded)
     = Ret (JStr "done")
  /\ posts (fst (execute_command good_server "pick"
                   (Some [("choice", JStr "a")]) loaded))
     = (posts loaded ++ [JObj [("command", JStr "pick");
                               ("parameters", JObj [("choice", JStr "a")])]])%list.
Proof.
  split; [exact loaded_populated|]. split; [reflexivity|].
  exact (execute_returns_result good_server loaded [pick_cmd; search_cmd]
           pick_cmd [("choice", JStr "a")] 200 [("result", JStr "done")]
           (JStr "done") loaded_populated pick_in_catalog eq_refl eq_refl eq_refl).
Defined.

Lemma execute_status_errors_witness :
  populated loaded [pick_cmd; search_cmd]
  /\ is_success 404 = false /\ is_success 500 = false
  /\ snd (execute_command (answering 404 None) "pick" None loaded)
     = Raise (Exc CommandNotFoundError
                "Command execution failed - not found: pick")
  /\ snd (execute_command (answering 500 None) "pick" None loaded)
     = Raise (Exc MCPError "Command execution failed: 500").
Proof.
  split; [exact loaded_populated|]. split; [reflexivity|]. split; [reflexivity|].
  split.
  - exact (execute_status_errors (answering 404 None) loaded
             [pick_cmd; search_cmd] pick_cmd None 404 None
             loaded_populated pick_in_catalog eq_refl eq_refl).
  - exact (execute_status_errors (answering 500 None) loaded
             [pick_cmd; search_cmd] pick_cmd None 500 None
             loaded_populated pick_in_catalog eq_refl eq_refl).
Defined.

Lemma execute_other_failures_pass_witness :
  populated loaded [pick_cmd; search_cmd]
  /\ snd (execute_command unreachable_server "pick" None loaded) = Raise refused
  /\ snd (execute_command (answering 200 None) "pick" None loaded)
     = Raise (Exc ValueError "Expecting value: line 1 column 1 (char 0)")
  /\ snd (execute_command (garbling 200 "Extra data: line 1 column 4 (char 3)")
            "pick" None loaded)
     = Raise (Exc ValueError "Extra data: line 1 column 4 (char 3)")
  /\ snd (execute_command (answering 200 (Some (JObj []))) "pick" None loaded)
     = Raise (Exc KeyError "'result'").
Proof.
  split; [exact loaded_populated|]. split; [|split; [|split]].
  - exact (proj1 (execute_other_failures_pass unreachable_server loaded
                    [pick_cmd; search_cmd] pick_cmd None
                    loaded_populated pick_in_catalog)
             ConnectError "All connection attempts failed" eq_refl).
  - exact (proj1 (proj2 (execute_other_failures_pass (answering 200 None) loaded
                           [pick_cmd; search_cmd] pick_cmd None
                           loaded_populated pick_in_catalog))
             200 eq_refl eq_refl).
  - exact (proj1 (proj2 (proj2 (execute_other_failures_pass
                           (garbling 200 "Extra data: line 1 column 4 (char 3)")
                           loaded [pick_cmd; search_cmd] pick_cmd None
                           loaded_populated pick_in_catalog)))
             200 "Extra data: line 1 column 4 (char 3)" eq_refl eq_refl).
  - exact (proj2 (proj2 (proj2 (execute_other_failures_pass
                           (answering 200 (Some (JObj []))) loaded
                           [pick_cmd; search_cmd] pick_cmd None
                           loaded_populated pick_in_catalog)))
             200 [] eq_refl eq_refl eq_refl).
Defined.

Lemma failed_fetch_caches_nothing_witness :
  snd (_load_commands unreachable_server init) = Raise refused
  /\ _commands (fst (_load_commands unreachable_server init)) = None
  /\ _command_map (fst (_load_commands unreachable_server init)) = None.
Proof.
  assert (snd (_load_commands unreachable_server init) = Raise refused) as H
    by reflexivity.
  split; [exact H|].
  exact (failed_fetch_caches_nothing unreachable_server init refused H).
Defined.

Lemma catalog_parses :
  res_map model_validate catalog_items = Ret [pick_cmd; search_cmd].
Proof. reflexivity. Defined.

Lemma fetch_caches_catalog_witness :
  on_get good_server (gets init) = Response 200 (Some (JArr catalog_items))
  /\ snd (_load_commands good_server init) = Ret tt
  /\ _commands (fst (_load_commands good_server init))
     = Some [pick_cmd; search_cmd]
  /\ _command_map (fst (_load_commands good_server init)) = None
  /\ gets (fst (_load_commands good_server init)) = 1
  /\ sleeps (fst (_load_commands good_server init)) = [].
Proof.
  split; [reflexivity|].
  exact (fetch_caches_catalog good_server init 200 catalog_items
           [pick_cmd; search_cmd] eq_refl eq_refl catalog_parses).
Defined.

Lemma fetch_recovers_on_retry_witness :
  on_get flaky_server (gets init) = NetFail refused
  /\ retry_if_exception_type refused = true
  /\ snd (_load_commands flaky_server init) = Ret tt
  /\ _commands (fst (_load_commands flaky_server init))
     = Some [pick_cmd; search_cmd]
  /\ gets (fst (_load_commands flaky_server init)) = 2
  /\ sleeps (fst (_load_commands flaky_server init)) = [2].
Proof.
  split; [reflexivity|]. split; [reflexivity|].
  exact (fetch_recovers_on_retry flaky_server init refused 200 catalog_items
           [pick_cmd; search_cmd] eq_refl eq_refl eq_refl eq_refl catalog_parses).
Defined.

Lemma execute_needs_catalog_witness :
  snd (_load_commands unreachable_server init) = Raise refused
  /\ snd (execute_command unreachable_server "pick" None init) = Raise refused
  /\ posts (fst (execute_command unreachable_server "pick" None init)) = [].
Proof.
  assert (snd (_load_commands unreachable_server init) = Raise refused) as H
    by reflexivity.
  split; [exact H|].
  exact (execute_needs_catalog unreachable_server init "pick" None refused
           eq_refl eq_refl H).
Defined.

Lemma type_lists_witness :
  "string" <> "null" /\ "number" <> "null"
  /\ json_type_to_py_type (JArr [JStr "string"; JStr "null"]) = TOptional TStr
  /\ json_type_to_py_type (JArr [JStr "string"; JStr "number"; JStr "null"])
     = TUnion [TStr; TFloat].
Proof.
  assert ("string" <> "null") as H1 by discriminate.
  assert ("number" <> "null") as H2 by discriminate.
  split; [exact H1|]. split; [exact H2|].
  destruct (type_lists "string" "number" H1 H2) as (A & _ & B & _).
  split; [exact A | exact B].
Defined.

Lemma get_tools_mirrors_catalog_witness :
  snd (get_tools good_server init) = Ret [pick_tool; search_tool]
  /\ exists cmds,
       _commands (fst (get_tools good_server init)) = Some cmds
       /\ map tool_name [pick_tool; search_tool] = map name cmds
       /\ map tool_description [pick_tool; search_tool] = map description cmds.
Proof.
  assert (snd (get_tools good_server init) = Ret [pick_tool; search_tool]) as H
    by reflexivity.
  split; [exact H|].
  exact (get_tools_mirrors_catalog good_server init [pick_tool; search_tool] H).
Defined.

Lemma ping_populated : populated ping_state [ping_cmd].
Proof. split; [reflexivity | left; reflexivity]. Defined.

Lemma parameterless_tool_witness :
  populated ping_state [ping_cmd]
  /\ has_parameters ping_cmd = false
  /\ exists tool,
       make_tool ping_cmd = Ret tool /\ args_schema tool = []
       /\ posts (fst (invoke good_server json_validates text_of tool
                        [("unexpected", JInt 1)] ping_state))
          = ([] ++ [JObj [("command", JStr "no_params_command");
                          ("parameters", JObj [])]])%list.
Proof.
  split; [exact ping_populated|]. split; [reflexivity|].
  exact (parameterless_tool good_server json_validates text_of ping_state
           [ping_cmd] ping_cmd [("unexpected", JInt 1)] ping_populated
           (or_introl eq_refl) eq_refl).
Defined.

Lemma search_in_catalog : In search_cmd [pick_cmd; search_cmd].
Proof. right. left. reflexivity. Defined.

Lemma search_names_differ : NoDup (map fst (args_schema search_tool)).
Proof.
  cbn. repeat (apply NoDup_cons_2;
                 [rewrite list_elem_of_In; cbn; intuition discriminate|]).
  apply NoDup_nil_2.
Qed.

Lemma search_props_differ : NoDup (map fst search_props).
Proof. exact search_names_differ. Qed.

Lemma invoke_executes_witness :
  populated loaded [pick_cmd; search_cmd]
  /\ make_tool search_cmd = Ret search_tool
  /\ NoDup (map fst (args_schema search_tool))
  /\ validate_args json_validates (args_schema search_tool)
       [("limit", JStr "5"); ("query", JStr "x"); ("extra", JInt 1)]
     = Ret [("query", JStr "x"); ("limit", JInt 5); ("lang", JStr "en")]
  /\ is_success 200 = true
  /\ snd (invoke good_server json_validates text_of search_tool
            [("limit", JStr "5"); ("query", JStr "x"); ("extra", JInt 1)] loaded)
     = Ret "done"
  /\ posts (fst (invoke good_server json_validates text_of search_tool
                   [("limit", JStr "5"); ("query", JStr "x"); ("extra", JInt 1)]
                   loaded))
     = (posts loaded
        ++ [JObj [("command", JStr "web_search");
                  ("parameters",
                   JObj [("query", JStr "x"); ("limit", JInt 5);
                         ("lang", JStr "en")])]])%list.
Proof.
  split; [exact loaded_populated|]. split; [reflexivity|].
  split; [exact search_names_differ|]. split; [reflexivity|].
  split; [reflexivity|].
  destruct (invoke_executes good_server json_validates text_of loaded
              [pick_cmd; search_cmd] search_cmd search_tool
              [("limit", JStr "5"); ("query", JStr "x"); ("extra", JInt 1)]
              [("query", JStr "x"); ("limit", JInt 5); ("lang", JStr "en")]
              200 [("result", JStr "done")] (JStr "done")
              loaded_populated search_in_catalog eq_refl search_names_differ
              eq_refl eq_refl eq_refl eq_refl) as (Hres & Hposts & _).
  split; [exact Hres | exact Hposts].
Defined.

Lemma declared_default_optional_witness :
  make_tool search_cmd = Ret search_tool
  /\ NoDup (map fst search_props)
  /\ In ("lang", JObj lang_info) search_props
  /\ in_required "lang" ["query"] = false
  /\ dict_get "lang" [("query", JStr "x"); ("limit", JInt 5)] = None
  /\ validate_args json_validates (args_schema search_tool)
       [("query", JStr "x"); ("limit", JInt 5); ("lang", JStr "fr")]
     = Ret [("query", JStr "x"); ("limit", JInt 5); ("lang", JStr "fr")]
  /\ exists kwargs',
       validate_args json_validates (args_schema search_tool)
         [("query", JStr "x"); ("limit", JInt 5)] = Ret kwargs'
       /\ dict_get "lang" kwargs' = Some (JStr "en").
Proof.
  assert (In ("lang", JObj lang_info) search_props) as Hin
    by (right; right; left; reflexivity).
  assert (forall k, k <> "lang" ->
            dict_get k [("query", JStr "x"); ("limit", JInt 5)]
            = dict_get k [("query", JStr "x"); ("limit", JInt 5);
                          ("lang", JStr "fr")]) as Hsame.
  { intros k Hk. cbn [dict_get].
    destruct (String.eqb "query" k); [done|].
    destruct (String.eqb "limit" k); [done|].
    destruct (String.eqb_spec "lang" k); [congruence | done]. }
  split; [reflexivity|]. split; [exact search_props_differ|].
  split; [exact Hin|]. split; [reflexivity|]. split; [reflexivity|].
  split; [reflexivity|].
  destruct (proj2 (declared_default_optional good_server json_validates text_of
                     search_cmd search_tool
                     search_props lang_info ["query"] "lang" (JStr "en")
                     eq_refl eq_refl eq_refl search_props_differ Hin
                     eq_refl eq_refl)
              [("query", JStr "x"); ("limit", JInt 5); ("lang", JStr "fr")]
              [("query", JStr "x"); ("limit", JInt 5)]
              [("query", JStr "x"); ("limit", JInt 5); ("lang", JStr "fr")]
              eq_refl Hsame eq_refl) as (kwargs' & Hv & Hd & _).
  exists kwargs'. split; [exact Hv | exact Hd].
Defined.

End MCPMoreFacts.

(** * Facts about the supervisor graph *)

Module GraphFacts.
Import Py PyStr PyStrFacts Graph.

(** C7, as the code has it.  The answer, stripped and lowered, is searched
    for "researcher", "developer", "tester" and "finish" in that order and
    the first that occurs is the decision, in whatever case and with
    whatever text around it the answer spells it; when none occurs the
    decision is "researcher".  In every case exactly one entry is appended
    to the steps, "Routed to " followed by the decision. *)
Theorem supervisor_routing (text : string) (state : AgentState) :
  let raw := lower (strip text) in
  exists next,
    _supervisor_node (Ret text) state
    = Ret {| query := query state;
             steps := steps state ++ ["Routed to " +:+ next];
             current_task := next;
             result := result state |}
    /\ (occurs "researcher" raw -> next = "researcher")
    /\ (~ occurs "researcher" raw -> occurs "developer" raw -> next = "developer")
    /\ (~ occurs "researcher" raw -> ~ occurs "developer" raw ->
        occurs "tester" raw -> next = "tester")
    /\ (~ occurs "researcher" raw -> ~ occurs "developer" raw ->
        ~ occurs "tester" raw -> occurs "finish" raw -> next = "finish")
    /\ (~ occurs "researcher" raw -> ~ occurs "developer" raw ->
        ~ occurs "tester" raw -> ~ occurs "finish" raw -> next = "researcher")
    /\ (forall tok pre w post,
          In tok ["researcher"; "developer"; "tester"; "finish"] ->
          text = pre +:+ w +:+ post -> lower w = tok -> occurs tok raw).
Proof.
  intros raw. exists (next_agent_of raw). split; [reflexivity|].
  unfold next_agent_of.
  destruct (contains "researcher" raw) eqn:R;
    [apply contains_spec in R | apply contains_false in R];
  (destruct (contains "developer" raw) eqn:D;
    [apply contains_spec in D | apply contains_false in D]);
  (destruct (contains "tester" raw) eqn:T;
    [apply contains_spec in T | apply contains_false in T]);
  (destruct (contains "finish" raw) eqn:F;
    [apply contains_spec in F | apply contains_false in F]);
  repeat (split; [try done; by intros|]);
  intros tok pre w post Hin -> Hw;
  (apply lowered_word_occurs; [| |exact Hw]);
  destruct Hin as [<-|[<-|[<-|[<-|[]]]]]; done.
Qed.

(** C7, refuted as stated: for an answer that names none of the four, the
    entry appended is "Routed to researcher" and the resulting state is the
    one an answer of "researcher" gives; no entry records the fallback. *)
Lemma unmatched_answer_leaves_plain_entry :
  _supervisor_node (Ret "I cannot decide") (initial_state "q")
  = Ret {| query := "q"; steps := ["Routed to researcher"];
           current_task := "researcher"; result := EmptyString |}
  /\ _supervisor_node (Ret "I cannot decide") (initial_state "q")
     = _supervisor_node (Ret "researcher") (initial_state "q").
Proof. split; reflexivity. Qed.

Lemma supervisor_routing_witness :
  In "developer" ["researcher"; "developer"; "tester"; "finish"]
  /\ lower "DevelOPER" = "developer"
  /\ occurs "developer" (lower (strip "  Next: the DevelOPER agent. "))
  /\ _supervisor_node (Ret "  Next: the DevelOPER agent. ") (initial_state "q")
     = Ret {| query := "q"; steps := ["Routed to developer"];
              current_task := "developer"; result := EmptyString |}.
Proof.
  assert (In "developer" ["researcher"; "developer"; "tester"; "finish"])
    as Hin by (right; left; reflexivity).
  destruct (supervisor_routing "  Next: the DevelOPER agent. " (initial_state "q"))
    as (next & Hnode & _ & _ & _ & _ & _ & Hocc).
  pose proof (Hocc "developer" "  Next: the " "DevelOPER" " agent. "
                Hin eq_refl eq_refl) as Hdev.
  split; [exact Hin|]. split; [reflexivity|]. split; [exact Hdev|].
  reflexivity.
Defined.

Lemma supervisor_outcome (answer : Res string) (state : AgentState) :
  match _supervisor_node answer state with
  | Ret state' =>
      (exists entry, steps state' = (steps state ++ [entry])%list)
      /\ query state' = query state /\ result state' = result state
  | Raise e => answer = Raise e /\ is_class OutputParserException e = false
  end.
Proof.
  destruct answer as [text|e]; cbn.
  - eauto.
  - destruct (is_class OutputParserException e) eqn:E; cbn; eauto.
Qed.

Lemma agent_outcome (name : string) (answer : Res string) (state : AgentState) :
  (exists entry, steps (agent_node name answer state) = (steps state ++ [entry])%list)
  /\ query (agent_node name answer state) = query state
  /\ current_task (agent_node name answer state) = current_task state.
Proof. destruct answer; cbn; eauto. Qed.

Section Runs.
Variable oracle : Oracle.

Lemma drive_zero (tick : nat) (node : string) (state : AgentState) :
  drive oracle 0 tick node state
  = (state, Raise (Exc GraphRecursionError "Recursion limit reached")).
Proof. reflexivity. Qed.

Lemma drive_at_supervisor (fuel tick : nat) (state : AgentState) :
  drive oracle (S fuel) tick SUPERVISOR_NODE state
  = match _supervisor_node
            (route_answer oracle tick (query state)
               (join newline (steps state))) state with
    | Raise e => (state, Raise e)
    | Ret state' =>
        match branch_destination (route state') with
        | Raise e => (state', Raise e)
        | Ret dest =>
            if String.eqb dest END then (state', Ret tt)
            else drive oracle fuel (S tick) dest state'
        end
    end.
Proof. reflexivity. Qed.

Lemma drive_at_agent (fuel tick : nat) (node : string) (state : AgentState) :
  String.eqb node SUPERVISOR_NODE = false ->
  drive oracle (S fuel) tick node state
  = drive oracle fuel (S tick) SUPERVISOR_NODE
      (agent_node node (agent_answer oracle tick node (query state)) state).
Proof. intros H. cbn [drive]. by rewrite H. Qed.


(** *** Agent failures and the boundary of [run] *)


(** *** The iteration bound *)

Hypothesis always_researcher :
  forall tick q trace, route_answer oracle tick q trace = Ret "researcher".

Lemma supervisor_step (state : AgentState) (tick : nat) :
  _supervisor_node
    (route_answer oracle tick (query state) (join newline (steps state))) state
  = Ret {| query := query state;
           steps := steps state ++ ["Routed to researcher"];
           current_task := "researcher";
           result := result state |}.
Proof. by rewrite always_researcher. Qed.

(** What an agent node records as the result depends on the answer
    alone. *)
Lemma agent_node_result (name : string) (answer : Res string)
    (state state' : AgentState) :
  result (agent_node name answer state) = result (agent_node name answer state').
Proof. by destruct answer. Qed.

Lemma route_goes_on (state : AgentState) :
  current_task state = "researcher" ->
  length (steps state) <= MAX_ITERATIONS ->
  route state = "researcher".
Proof.
  intros Ht Hl. unfold route. rewrite Ht.
  change (String.eqb "researcher" (value FINISH)) with false. cbv iota.
  assert ((MAX_ITERATIONS <? length (steps state))%nat = false) as ->
    by (apply Nat.ltb_ge; lia).
  reflexivity.
Qed.

Lemma route_cuts_off (state : AgentState) :
  current_task state = "researcher" ->
  MAX_ITERATIONS < length (steps state) ->
  route state = END.
Proof.
  intros Ht Hl. unfold route. rewrite Ht.
  change (String.eqb "researcher" (value FINISH)) with false. cbv iota.
  assert ((MAX_ITERATIONS <? length (steps state))%nat = true) as ->
    by (apply Nat.ltb_lt; lia).
  reflexivity.
Qed.

(** One supervisor step of the run, by what [route] returns after it. *)
Lemma drive_supervisor (fuel tick : nat) (state : AgentState) :
  let state1 := {| query := query state;
                   steps := steps state ++ ["Routed to researcher"];
                   current_task := "researcher";
                   result := result state |} in
  drive oracle (S fuel) tick SUPERVISOR_NODE state
  = match branch_destination (route state1) with
    | Raise e => (state1, Raise e)
    | Ret dest =>
        if String.eqb dest END then (state1, Ret tt)
        else drive oracle fuel (S tick) dest state1
    end.
Proof.
  cbv zeta. cbn [drive].
  change (String.eqb SUPERVISOR_NODE SUPERVISOR_NODE) with true. cbv iota.
  by rewrite supervisor_step.
Qed.

(** With [rounds] agent rounds to go before the trace holds 20 entries,
    the run stops at the supervisor step that makes it 21. *)
Lemma drive_to_cutoff (rounds : nat) :
  forall fuel tick state,
    length (steps state) + 2 * rounds = MAX_ITERATIONS ->
    2 * rounds + 1 <= fuel ->
    let stop := drive oracle fuel tick SUPERVISOR_NODE state in
    length (steps (fst stop)) = MAX_ITERATIONS + 1
    /\ route (fst stop) = END
    /\ snd stop = Raise (Exc KeyError "'__end__'")
    /\ query (fst stop) = query state
    /\ result (fst stop)
       = match rounds with
         | O => result state
         | S _ =>
             result (agent_node "researcher"
                       (agent_answer oracle (tick + 2 * rounds - 1)
                          "researcher" (query state)) state)
         end.
Proof.
  induction rounds as [|rounds IH]; intros fuel tick state Hlen Hfuel;
    cbv zeta.
  - destruct fuel as [|fuel]; [lia|]. rewrite drive_supervisor.
    set (state1 := {| query := query state;
                      steps := steps state ++ ["Routed to researcher"];
                      current_task := "researcher";
                      result := result state |}).
    assert (length (steps state1) = MAX_ITERATIONS + 1) as Hlen1
      by (unfold state1; cbn [steps]; rewrite length_app; cbn [length]; lia).
    assert (route state1 = END) as HR
      by (apply route_cuts_off; [done | lia]).
    rewrite HR. by cbn.
  - destruct fuel as [|[|fuel]]; [lia|lia|]. rewrite drive_supervisor.
    set (state1 := {| query := query state;
                      steps := steps state ++ ["Routed to researcher"];
                      current_task := "researcher";
                      result := result state |}).
    assert (length (steps state1) = length (steps state) + 1) as Hlen1
      by (unfold state1; cbn [steps]; rewrite length_app; cbn [length]; lia).
    assert (route state1 = "researcher") as HR
      by (apply route_goes_on; [done | lia]).
    rewrite HR.
    change (branch_destination "researcher") with (@Ret string "researcher").
    cbv iota.
    change (String.eqb "researcher" END) with false. cbv iota.
    cbn [drive].
    change (String.eqb "researcher" SUPERVISOR_NODE) with false. cbv iota.
    change (query state1) with (query state).
    set (state2 := agent_node "researcher"
                     (agent_answer oracle (S tick) "researcher" (query state))
                     state1).
    assert (length (steps state2) = length (steps state) + 2) as Hlen2.
    { unfold state2, agent_node.
      destruct (agent_answer _ _ _ _); cbn [steps];
        rewrite length_app; cbn [length]; lia. }
    assert (query state2 = query state) as Hq2
      by (unfold state2, agent_node; by destruct (agent_answer _ _ _ _)).
    destruct (IH fuel (S (S tick)) state2) as (L & R & O & Q & Res);
      [lia | lia |].
    repeat split; try done; [congruence|].
    rewrite Res. destruct rounds as [|rounds].
    + replace (tick + 2 * 1 - 1) with (S tick) by lia.
      apply agent_node_result.
    + rewrite Hq2.
      replace (S (S tick) + 2 * S rounds - 1) with (tick + 2 * S (S rounds) - 1)
        by lia.
      apply agent_node_result.
Qed.

(** C8, on the code.  When the router always answers "researcher" the
    run reaches the cutoff with exactly [MAX_ITERATIONS + 1] entries in
    the trace, [route] returns [END], which [path_map] does not hold as a
    key; the lookup raises and [run] returns the error text, not the
    result the last agent step recorded. *)
Theorem always_researcher_cutoff (q : string) :
  let stop := drive oracle recursion_limit 0 SUPERVISOR_NODE (initial_state q) in
  length (steps (fst stop)) = MAX_ITERATIONS + 1
  /\ route (fst stop) = END
  /\ snd stop = Raise (Exc KeyError "'__end__'")
  /\ result (fst stop)
     = result (agent_node "researcher"
                 (agent_answer oracle 19 "researcher" q) (initial_state q))
  /\ run oracle q = Ret "Error during workflow execution: '__end__'".
Proof.
  destruct (drive_to_cutoff 10 recursion_limit 0 (initial_state q))
    as (L & R & O & Q & Res); [done | unfold recursion_limit; lia |].
  cbv zeta. repeat split; try done.
  unfold run, invoke.
  destruct (drive oracle recursion_limit 0 SUPERVISOR_NODE (initial_state q))
    as [st out]. cbn [snd] in O. by rewrite O.
Qed.
End Runs.

Lemma always_researcher_cutoff_witness :
  (forall tick q trace,
     route_answer Examples.researcher_forever tick q trace = Ret "researcher")
  /\ length (steps (fst (drive Examples.researcher_forever recursion_limit 0
                           SUPERVISOR_NODE (initial_state "q")))) = 21
  /\ result (fst (drive Examples.researcher_forever recursion_limit 0
                    SUPERVISOR_NODE (initial_state "q"))) = "found"
  /\ run Examples.researcher_forever "q"
     = Ret "Error during workflow execution: '__end__'".
Proof.
  assert (forall tick q trace,
            route_answer Examples.researcher_forever tick q trace
            = Ret "researcher") as H by reflexivity.
  destruct (always_researcher_cutoff Examples.researcher_forever H "q")
    as (L & _ & _ & Res & Run).
  split; [exact H|]. split; [exact L|]. split; [exact Res | exact Run].
Defined.
End GraphFacts.

(** * Further facts about the supervisor graph *)

Module GraphMoreFacts.
Import Py PyStr PyStrFacts Graph GraphFacts.

#[local] Open Scope list_scope.

(** ** Trace entries *)

Lemma length_append (s t : string) :
  String.length (s +:+ t) = String.length s + String.length t.
Proof.
  induction s as [|a s IH]; [done|].
  rewrite app_cons. cbn [String.length]. by rewrite IH.
Qed.

Lemma length_take (n : nat) (s : string) :
  String.length (take n s) = Nat.min n (String.length s).
Proof.
  revert s. induction n as [|n IH]; intros [|a s]; cbn; try done.
  by rewrite IH.
Qed.

Lemma is_ascii_app (s t : string) :
  is_ascii (s +:+ t) = is_ascii s && is_ascii t.
Proof.
  induction s as [|a s IH]; [done|].
  rewrite app_cons. cbn [is_ascii]. by rewrite IH, andb_assoc.
Qed.

Lemma is_ascii_take (n : nat) (s : string) :
  is_ascii s = true -> is_ascii (take n s) = true.
Proof.
  revert s. induction n as [|n IH]; intros [|a s]; cbn [take is_ascii];
    try done.
  intros H. apply andb_true_iff in H as [-> H]. by apply IH.
Qed.


(** The text an agent step puts into the trace, for a result in ASCII: a
    result of at most 100 characters is shown whole; a longer one is cut to
    its first 100 characters followed by three dots, 103 characters in all,
    and is still in ASCII. *)
Theorem truncated_cases (res : string) :
  is_ascii res = true ->
  (String.length res <= 100 -> truncated res = res)
  /\ (100 < String.length res ->
      truncated res = take 100 res +:+ "..."
      /\ String.length (truncated res) = 103)
  /\ String.length (truncated res) <= 103
  /\ is_ascii (truncated res) = true.
Proof.
  intros Ha. unfold truncated.
  destruct (100 <? String.length res)%nat eqn:E.
  - apply Nat.ltb_lt in E. split; [lia|].
    assert (String.length (take 100 res +:+ "...") = 103) as L.
    { rewrite length_append, length_take. cbn [String.length]. lia. }
    split; [done|]. split; [lia|].
    rewrite is_ascii_app, (is_ascii_take 100 res Ha). done.
  - apply Nat.ltb_ge in E. split; [done|]. split; [lia|]. split; [lia | done].
Qed.


(** ** The routing function *)

Lemma path_get_values (task : string) :
  task <> value FINISH ->
  match path_get task path_map with
  | Some node => node = task /\ In task ["researcher"; "developer"; "tester"]
  | None => ~ In task ["researcher"; "developer"; "tester"]
  end.
Proof.
  intros Hf. unfold path_map. cbn [path_get value].
  destruct (String.eqb_spec "researcher" task) as [<-|H1];
    [split; [done | by left]|].
  destruct (String.eqb_spec "developer" task) as [<-|H2];
    [split; [done | right; by left]|].
  destruct (String.eqb_spec "tester" task) as [<-|H3];
    [split; [done | right; right; by left]|].
  destruct (String.eqb_spec "finish" task) as [<-|H4]; [done|].
  intros [?|[?|[?|[]]]]; done.
Qed.

(** [route] ends the run exactly when the task is "finish" or the trace
    holds more than [MAX_ITERATIONS] entries; otherwise it names the task's
    agent, and the researcher for a task that names none. *)
Theorem route_cases (state : AgentState) :
  (route state = END <->
     current_task state = value FINISH
     \/ MAX_ITERATIONS < length (steps state))
  /\ (route state <> END ->
      In (route state) ["researcher"; "developer"; "tester"]
      /\ (In (current_task state) ["researcher"; "developer"; "tester"] ->
          route state = current_task state)
      /\ (~ In (current_task state) ["researcher"; "developer"; "tester"] ->
          route state = "researcher")).
Proof.
  unfold route.
  destruct (String.eqb_spec (current_task state) (value FINISH)) as [Hf|Hf].
  { split; [split; [by left | done] | done]. }
  destruct (MAX_ITERATIONS <? length (steps state))%nat eqn:Hl.
  { apply Nat.ltb_lt in Hl. split; [split; [by right | done] | done]. }
  apply Nat.ltb_ge in Hl.
  pose proof (path_get_values (current_task state) Hf) as Hp.
  destruct (path_get (current_task state) path_map) as [node|].
  - destruct Hp as [-> Hin]. split.
    + split; [|intros [?|?]; [done | lia]].
      intros HE. rewrite HE in Hin. by destruct Hin as [?|[?|[?|[]]]].
    + intros _. split; [done|]. split; done.
  - split.
    + split; [done | intros [?|?]; [done | lia]].
    + intros _. split; [by left|]. split; done.
Qed.

Lemma branch_destination_values (r dest : string) :
  branch_destination r = Ret dest ->
  In dest ["researcher"; "developer"; "tester"] /\ r = dest
  \/ dest = END /\ r = value FINISH.
Proof.
  unfold branch_destination, path_map. cbn [path_get value].
  destruct (String.eqb_spec "researcher" r) as [<-|H1];
    [intros [= <-]; left; split; [by left | done]|].
  destruct (String.eqb_spec "developer" r) as [<-|H2];
    [intros [= <-]; left; split; [right; by left | done]|].
  destruct (String.eqb_spec "tester" r) as [<-|H3];
    [intros [= <-]; left; split; [right; right; by left | done]|].
  destruct (String.eqb_spec "finish" r) as [<-|H4]; [|done].
  intros [= <-]. by right.
Qed.

Lemma route_never_finish (state : AgentState) : route state <> value FINISH.
Proof.
  destruct (route_cases state) as [_ H]. intros E.
  destruct H as (Hin & _); [by rewrite E|].
  rewrite E in Hin. by destruct Hin as [?|[?|[?|[]]]].
Qed.

(** What [route] returns leads to an agent or to the [KeyError]: the
    destination is never [END]. *)
Lemma destination_is_agent (state : AgentState) (dest : string) :
  branch_destination (route state) = Ret dest ->
  In dest ["researcher"; "developer"; "tester"]
  /\ String.eqb dest END = false /\ String.eqb dest SUPERVISOR_NODE = false.
Proof.
  intros H. destruct (branch_destination_values _ _ H) as [[Hin _]|[_ Hf]].
  - split; [done|]. by destruct Hin as [<-|[<-|[<-|[]]]].
  - by destruct (route_never_finish state).
Qed.

Section Runs.
Variable oracle : Oracle.

(** During a run the trace only grows at its end and the query is never
    touched: the state the run stops in holds the starting trace as a prefix
    and the same query. *)
Theorem trace_only_grows (fuel tick : nat) (node : string) (state : AgentState) :
  (exists added,
     steps (fst (drive oracle fuel tick node state)) = steps state ++ added)
  /\ query (fst (drive oracle fuel tick node state)) = query state.
Proof.
  revert tick node state.
  induction fuel as [|fuel IH]; intros tick node state.
  { rewrite drive_zero. split; [exists []; by rewrite app_nil_r | done]. }
  destruct (String.eqb node SUPERVISOR_NODE) eqn:Hn.
  - apply String.eqb_eq in Hn. subst node. rewrite drive_at_supervisor.
    pose proof (supervisor_outcome
                  (route_answer oracle tick (query state)
                     (join newline (steps state))) state) as Hs.
    destruct (_supervisor_node _ state) as [state'|e]; cbn [fst];
      [|split; [exists []; by rewrite app_nil_r | done]].
    destruct Hs as ([entry Hs] & Hq & _).
    destruct (branch_destination (route state')) as [dest|e]; cbn [fst];
      [|split; [by exists [entry] | done]].
    destruct (String.eqb dest END); cbn [fst];
      [split; [by exists [entry] | done]|].
    destruct (IH (S tick) dest state') as ([added Ha] & Hq').
    split; [|congruence].
    exists (entry :: added). by rewrite Ha, Hs, <- app_assoc.
  - rewrite (drive_at_agent _ _ _ _ _ Hn).
    set (state' := agent_node node _ state).
    destruct (agent_outcome node (agent_answer oracle tick node (query state)) state)
      as ([entry Hs] & Hq & _).
    destruct (IH (S tick) SUPERVISOR_NODE state') as ([added Ha] & Hq').
    split; [|unfold state' in *; congruence].
    exists (entry :: added). unfold state' in *. by rewrite Ha, Hs, <- app_assoc.
Qed.

(** No run ends at [END]: [route] signals the end with [END], which
    [path_map] cannot resolve, so every run stops with an exception, its own
    [KeyError] or one raised earlier. *)
Lemma drive_never_completes (fuel tick : nat) (node : string)
    (state : AgentState) :
  snd (drive oracle fuel tick node state) <> Ret tt.
Proof.
  revert tick node state.
  induction fuel as [|fuel IH]; intros tick node state; [done|].
  destruct (String.eqb node SUPERVISOR_NODE) eqn:Hn.
  - apply String.eqb_eq in Hn. subst node. rewrite drive_at_supervisor.
    destruct (_supervisor_node _ state) as [state'|e]; [|done].
    destruct (branch_destination (route state')) as [dest|e] eqn:Hd; [|done].
    destruct (destination_is_agent state' dest Hd) as (_ & -> & _).
    apply IH.
  - rewrite (drive_at_agent _ _ _ _ _ Hn). apply IH.
Qed.

(** Whatever the model answers, [run] returns the text of a failure: the
    graph's run never yields a final state, so the result an agent recorded is
    never what [run] returns. *)
Theorem run_returns_error_text (q : string) :
  exists e,
    invoke oracle (initial_state q) = Raise e
    /\ run oracle q = Ret ("Error during workflow execution: " +:+ exn_str e).
Proof.
  unfold run, invoke.
  pose proof (drive_never_completes recursion_limit 0 SUPERVISOR_NODE
                (initial_state q)) as H.
  destruct (drive oracle recursion_limit 0 SUPERVISOR_NODE (initial_state q))
    as [state [[]|e]]; [done|].
  by exists e.
Qed.

(** An exception in the routing step that is not a parsing failure stops the
    run where it stands, and [run] reports it in its text; at the first step
    no agent has run and nothing is in the trace. *)
Theorem routing_failure_aborts (fuel tick : nat) (state : AgentState) (e : Exn)
    (q : string) :
  is_class OutputParserException e = false ->
  (route_answer oracle tick (query state) (join newline (steps state)) = Raise e ->
   drive oracle (S fuel) tick SUPERVISOR_NODE state = (state, Raise e))
  /\ (route_answer oracle 0 q EmptyString = Raise e ->
      run oracle q = Ret ("Error during workflow execution: " +:+ exn_str e)).
Proof.
  intros He. split.
  - intros Ha. rewrite drive_at_supervisor, Ha. cbn [_supervisor_node].
    by rewrite He.
  - intros Ha. unfold run, invoke.
    assert (drive oracle recursion_limit 0 SUPERVISOR_NODE (initial_state q)
            = (initial_state q, Raise e)) as ->; [|reflexivity].
    change recursion_limit with (S 24). rewrite drive_at_supervisor.
    cbn [initial_state query steps join]. rewrite Ha. cbn [_supervisor_node].
    by rewrite He.
Qed.

(** A parsing failure in the routing step is absorbed: the trace gets the
    fallback entry and, below the iteration bound, the researcher runs next
    and hands back to the supervisor. *)
Theorem parsing_failure_routes_to_researcher (fuel tick : nat)
    (state : AgentState) (e : Exn) :
  is_class OutputParserException e = true ->
  route_answer oracle tick (query state) (join newline (steps state)) = Raise e ->
  length (steps state) < MAX_ITERATIONS ->
  drive oracle (S (S fuel)) tick SUPERVISOR_NODE state
  = drive oracle fuel (S (S tick)) SUPERVISOR_NODE
      (agent_node "researcher"
         (agent_answer oracle (S tick) "researcher" (query state))
         {| query := query state;
            steps := steps state ++ ["Fallback to researcher due to parsing error"];
            current_task := "researcher";
            result := result state |}).
Proof.
  intros He Ha Hl. rewrite drive_at_supervisor, Ha. cbn [_supervisor_node].
  rewrite He.
  set (state1 := {| query := query state;
                    steps := steps state ++ ["Fallback to researcher due to parsing error"];
                    current_task := value RESEARCHER;
                    result := result state |}).
  assert (route state1 = "researcher") as ->.
  { unfold route. cbn [current_task steps state1 value].
    change (String.eqb "researcher" "finish") with false. cbv iota.
    rewrite length_app. cbn [length].
    assert ((MAX_ITERATIONS <? length (steps state) + 1)%nat = false) as ->
      by (apply Nat.ltb_ge; lia).
    reflexivity. }
  change (branch_destination "researcher") with (@Ret string "researcher").
  cbv iota. change (String.eqb "researcher" END) with false. cbv iota.
  by rewrite drive_at_agent.
Qed.

(** With [rounds] agent rounds left below the bound, the supersteps still
    needed are at most [2 * rounds + 1]. *)
Lemma drive_within_limits (rounds : nat) :
  forall fuel fuel' tick state,
    length (steps state) + 2 * rounds = MAX_ITERATIONS ->
    2 * rounds + 1 <= fuel -> 2 * rounds + 1 <= fuel' ->
    drive oracle fuel tick SUPERVISOR_NODE state
    = drive oracle fuel' tick SUPERVISOR_NODE state
    /\ length (steps (fst (drive oracle fuel tick SUPERVISOR_NODE state)))
       <= MAX_ITERATIONS + 1.
Proof.
  induction rounds as [|rounds IH]; intros fuel fuel' tick state Hlen Hf Hf'.
  - destruct fuel as [|fuel]; [lia|]. destruct fuel' as [|fuel']; [lia|].
    rewrite !drive_at_supervisor.
    pose proof (supervisor_outcome
                  (route_answer oracle tick (query state)
                     (join newline (steps state))) state) as Hs.
    destruct (_supervisor_node _ state) as [state'|e]; cbn [fst];
      [|split; [done | lia]].
    destruct Hs as ([entry Hs] & _).
    assert (length (steps state') = MAX_ITERATIONS + 1) as Hl'
      by (rewrite Hs, length_app; cbn [length]; lia).
    assert (route state' = END) as ->
      by (apply (proj1 (route_cases state')); right; lia).
    change (branch_destination END) with (@Raise string (Exc KeyError "'__end__'")).
    cbv iota. cbn [fst]. split; [done | lia].
  - destruct fuel as [|[|fuel]]; [lia|lia|].
    destruct fuel' as [|[|fuel']]; [lia|lia|].
    rewrite !drive_at_supervisor.
    pose proof (supervisor_outcome
                  (route_answer oracle tick (query state)
                     (join newline (steps state))) state) as Hs.
    destruct (_supervisor_node _ state) as [state'|e]; cbn [fst];
      [|split; [done | lia]].
    destruct Hs as ([entry Hs] & Hq & _).
    assert (length (steps state') = length (steps state) + 1) as Hl'
      by (rewrite Hs, length_app; cbn [length]; lia).
    destruct (branch_destination (route state')) as [dest|e] eqn:Hd; cbn [fst];
      [|split; [done | lia]].
    destruct (destination_is_agent state' dest Hd) as (_ & -> & Hsup).
    rewrite !(drive_at_agent _ _ _ _ _ Hsup).
    set (state2 := agent_node dest _ state').
    destruct (agent_outcome dest (agent_answer oracle (S tick) dest (query state'))
                state') as ([entry2 Hs2] & _).
    assert (length (steps state2) = length (steps state) + 2) as Hl2
      by (unfold state2; rewrite Hs2, length_app; cbn [length]; lia).
    apply IH; lia.
Qed.

(** The iteration bound at work for every model: a run from the initial
    state stops with at most [MAX_ITERATIONS + 1] entries in its trace, and
    langgraph's own recursion limit is never what stops it: a larger limit
    changes nothing. *)
Theorem run_within_limits (q : string) (more : nat) :
  length (steps (fst (drive oracle recursion_limit 0 SUPERVISOR_NODE
                        (initial_state q)))) <= MAX_ITERATIONS + 1
  /\ drive oracle (recursion_limit + more) 0 SUPERVISOR_NODE (initial_state q)
     = drive oracle recursion_limit 0 SUPERVISOR_NODE (initial_state q).
Proof.
  destruct (drive_within_limits 10 recursion_limit (recursion_limit + more) 0
              (initial_state q)) as [E L];
    [reflexivity | unfold recursion_limit; lia | unfold recursion_limit; lia |].
  split; [exact L | symmetry; exact E].
Qed.

End Runs.

(** ** The statements at concrete inputs *)

Import Examples MoreExamples.

Lemma truncated_cases_witness :
  is_ascii "found" = true
  /\ String.length "found" <= 100 /\ truncated "found" = "found".
Proof.
  assert (String.length "found" <= 100) as H by (cbn; lia).
  split; [reflexivity|]. split; [exact H|].
  exact (proj1 (truncated_cases "found" eq_refl) H).
Defined.


Lemma route_cases_witness :
  route routed_to_developer <> END
  /\ In (current_task routed_to_developer) ["researcher"; "developer"; "tester"]
  /\ route routed_to_developer = "developer".
Proof.
  assert (route routed_to_developer <> END) as H by discriminate.
  assert (In (current_task routed_to_developer)
            ["researcher"; "developer"; "tester"]) as Hin
    by (right; left; reflexivity).
  split; [exact H|]. split; [exact Hin|].
  exact (proj1 (proj2 (proj2 (route_cases routed_to_developer) H)) Hin).
Defined.

Lemma routing_failure_aborts_witness :
  is_class OutputParserException broken = false
  /\ route_answer router_down 0 "q" EmptyString = Raise broken
  /\ run router_down "q"
     = Ret "Error during workflow execution: model unavailable".
Proof.
  split; [reflexivity|]. split; [reflexivity|].
  exact (proj2 (routing_failure_aborts router_down 0 0 (initial_state "q")
                  broken "q" eq_refl) eq_refl).
Defined.

Lemma parsing_failure_routes_to_researcher_witness :
  is_class OutputParserException unparsable = true
  /\ length (steps (initial_state "q")) < MAX_ITERATIONS
  /\ drive parse_failing 2 0 SUPERVISOR_NODE (initial_state "q")
     = drive parse_failing 0 2 SUPERVISOR_NODE
         {| query := "q";
            steps := ["Fallback to researcher due to parsing error";
                      "researcher result: found"];
            current_task := "researcher";
            result := "found" |}.
Proof.
  assert (length (steps (initial_state "q")) < MAX_ITERATIONS) as Hl
    by (cbn; unfold MAX_ITERATIONS; lia).
  split; [reflexivity|]. split; [exact Hl|].
  exact (parsing_failure_routes_to_researcher parse_failing 0 0
           (initial_state "q") unparsable eq_refl eq_refl Hl).
Defined.

End GraphMoreFacts.

(** * Facts about the command server, alone and behind the client *)

Module CommandServerFacts.
Import Py MCP MCPMore MCPFacts MCPMoreFacts CommandServer ServerExamples.

#[local] Open Scope list_scope.

(** ** The safety visitor *)

(** Induction on a tree with the hypothesis for every child. *)
Fixpoint Ast_induction (P : Ast -> Prop)
    (HImport : P Import) (HImportFrom : P ImportFrom)
    (HCall : forall func rest, P func -> Forall P rest -> P (Call func rest))
    (HName : forall id, P (Name id))
    (HNode : forall children, Forall P children -> P (Node children))
    (t : Ast) : P t :=
  let rec := Ast_induction P HImport HImportFrom HCall HName HNode in
  let all :=
    fix all (l : list Ast) : Forall P l :=
      match l with
      | [] => @List.Forall_nil Ast P
      | x :: l' => @List.Forall_cons Ast P x l' (rec x) (all l')
      end in
  match t with
  | Import => HImport
  | ImportFrom => HImportFrom
  | Call func rest => HCall func rest (rec func) (all rest)
  | Name id => HName id
  | Node children => HNode children (all children)
  end.

Section VisitorFacts.
Variable overflow : Stack.

(** The visitor on one node, with [generic_visit] by its own name. *)
Lemma visit_eq (path : list Ast) (node : Ast) :
  visit overflow path node
  = match overflow (node :: path) with
    | Some msg => Raise (Exc RuntimeError msg)
    | None =>
        match node with
        | Import | ImportFrom =>
            Raise (Exc ValueError "Imports are not allowed")
        | Call func rest =>
            match func with
            | Name id =>
                if banned id
                then Raise (Exc ValueError
                              ("Call to '" +:+ id +:+ "' is not allowed"))
                else visit_all overflow (node :: path) (func :: rest)
            | _ => visit_all overflow (node :: path) (func :: rest)
            end
        | Name _ => Ret tt
        | Node children => visit_all overflow (node :: path) children
        end
    end.
Proof.
  assert (forall l,
            (fix generic_visit (children : list Ast) : Res unit :=
               match children with
               | [] => Ret tt
               | child :: children' =>
                   res_bind (visit overflow (node :: path) child)
                            (fun _ => generic_visit children')
               end) l = visit_all overflow (node :: path) l) as H.
  { induction l as [|c cs IH]; [done|]. cbn [visit_all]. by rewrite IH. }
  destruct node as [| |func rest|id|children]; cbn [visit];
    destruct (overflow _); try done; by rewrite ?H.
Qed.

Lemma visit_all_judged (path : list Ast) (children : list Ast) :
  Forall (fun t => forall p, judged overflow p t) children ->
  (visit_all overflow path children = Ret tt
   /\ forall c, In c children -> ~ Forbidden c)
  \/ ((exists msg, visit_all overflow path children = Raise (Exc ValueError msg))
      /\ exists c, In c children /\ Forbidden c)
  \/ (exists msg chain,
        visit_all overflow path children = Raise (Exc RuntimeError msg)
        /\ overflow chain = Some msg).
Proof.
  induction 1 as [|c cs Hc _ IH]; cbn [visit_all].
  - left. split; [done | intros c []].
  - destruct (Hc path) as [[Hv Hn]|[[[msg Hv] Hf]|(msg & chain & Hv & Ho)]];
      rewrite Hv; cbn [res_bind].
    + destruct IH as [[Hvs Hns]|[[Hvs (c' & Hin & Hf)]|Hover]].
      * left. split; [done|]. intros c' [<-|Hin]; [done | by apply Hns].
      * right. left. split; [done|]. exists c'. split; [by right | done].
      * right. by right.
    + right. left. split; [by exists msg|]. exists c. split; [by left | done].
    + right. right. by exists msg, chain.
Qed.

Lemma call_forbidden_inv (func : Ast) (rest : list Ast) :
  Forbidden (Call func rest) ->
  callee_banned func = true \/ Forbidden func
  \/ exists arg, In arg rest /\ Forbidden arg.
Proof.
  intros H. inversion H; subst.
  - by left.
  - right. by left.
  - right. right. by exists arg.
Qed.

Lemma visit_call_cases (path : list Ast) (func : Ast) (rest : list Ast) :
  overflow (Call func rest :: path) = None ->
  (callee_banned func = false ->
   visit overflow path (Call func rest)
   = visit_all overflow (Call func rest :: path) (func :: rest))
  /\ (callee_banned func = true ->
      (exists msg, visit overflow path (Call func rest)
                   = Raise (Exc ValueError msg))
      /\ exists id, func = Name id /\ banned id = true).
Proof.
  intros Ho. rewrite visit_eq, Ho.
  destruct func as [| |f r|id|cs]; cbn [callee_banned]; split; try done.
  - by intros ->.
  - intros Hb. rewrite Hb. split; [by eexists | by exists id].
Qed.

Lemma every_tree_judged (t : Ast) : forall path, judged overflow path t.
Proof.
  induction t as [| |func rest IHf IHr|id|children IH] using Ast_induction;
    intros path.
  - unfold judged. rewrite visit_eq.
    destruct (overflow (Import :: path)) as [msg|] eqn:Ho.
    + right. right. by exists msg, (Import :: path).
    + right. left. split; [by eexists | constructor].
  - unfold judged. rewrite visit_eq.
    destruct (overflow (ImportFrom :: path)) as [msg|] eqn:Ho.
    + right. right. by exists msg, (ImportFrom :: path).
    + right. left. split; [by eexists | constructor].
  - destruct (overflow (Call func rest :: path)) as [msg|] eqn:Ho.
    { right. right. exists msg, (Call func rest :: path).
      by rewrite visit_eq, Ho. }
    assert (Forall (fun t => forall p, judged overflow p t) (func :: rest))
      as Hall by (by constructor).
    pose proof (visit_all_judged (Call func rest :: path) (func :: rest) Hall)
      as Hj.
    destruct (visit_call_cases path func rest Ho) as [Hok Hbanned].
    destruct (callee_banned func) eqn:Hb.
    + destruct (Hbanned eq_refl) as [Hv (id & -> & Hid)].
      right. left. split; [done | by apply forbidden_call].
    + unfold judged. rewrite (Hok eq_refl).
      destruct Hj as [[Hv Hn]|[[Hv (c & Hin & Hf)]|Hover]].
      * left. split; [done|]. intros Hbad.
        destruct (call_forbidden_inv _ _ Hbad) as [Hc|[Hf|(arg & Hin & Hf)]].
        -- congruence.
        -- by apply (Hn func (or_introl eq_refl)).
        -- by apply (Hn arg (or_intror Hin)).
      * right. left. split; [done|]. destruct Hin as [<-|Hin].
        -- by apply forbidden_in_callee.
        -- by apply (forbidden_in_argument _ c).
      * right. by right.
  - unfold judged. rewrite visit_eq.
    destruct (overflow (Name id :: path)) as [msg|] eqn:Ho.
    + right. right. by exists msg, (Name id :: path).
    + left. split; [done|]. intros Hbad. inversion Hbad.
  - unfold judged. rewrite visit_eq.
    destruct (overflow (Node children :: path)) as [msg|] eqn:Ho.
    { right. right. by exists msg, (Node children :: path). }
    destruct (visit_all_judged (Node children :: path) children IH)
      as [[Hv Hn]|[[Hv (c & Hin & Hf)]|Hover]].
    + left. split; [done|]. intros Hbad. inversion Hbad; subst.
      by apply (Hn child).
    + right. left. split; [done|]. by apply (forbidden_in_child c).
    + right. by right.
Qed.

End VisitorFacts.

(** The visitor is sound at every depth of the stack: a tree it passes
    holds no import statement and no call with a banned callee name, a tree
    on which it raises [ValueError] holds one, and it raises nothing but
    [ValueError] and the [RecursionError] of an exhausted stack.  Where the
    stack is never exhausted it refuses exactly the trees that hold an import
    or such a call; a banned name that is only mentioned, or is reached
    through an attribute or an alias, is not refused. *)
Theorem visitor_refuses_exactly (overflow : Stack) (path : list Ast) (t : Ast) :
  (visit overflow path t = Ret tt -> ~ Forbidden t)
  /\ (forall msg, visit overflow path t = Raise (Exc ValueError msg) ->
        Forbidden t)
  /\ (forall e, visit overflow path t = Raise e ->
        exists msg,
          e = Exc ValueError msg
          \/ (e = Exc RuntimeError msg /\ exists chain, overflow chain = Some msg))
  /\ ((forall chain, overflow chain = None) ->
      ((exists msg, visit overflow path t = Raise (Exc ValueError msg))
       <-> Forbidden t)
      /\ (visit overflow path t = Ret tt <-> ~ Forbidden t)).
Proof.
  destruct (every_tree_judged overflow t path)
    as [[Hv Hn]|[[[msg Hv] Hf]|(msg & chain & Hv & Ho)]]; rewrite Hv.
  - split; [done|]. split; [done|]. split; [done|]. intros _.
    split; split; try done. intros [msg Hm]. congruence.
  - split; [done|]. split; [done|]. split.
    + intros e [= <-]. exists msg. by left.
    + intros _. split; split; try done. by exists msg.
  - split; [done|]. split; [done|]. split.
    + intros e [= <-]. exists msg. right. split; [done | by exists chain].
    + intros Hdeep. by rewrite Hdeep in Ho.
Qed.

(** ** The execute handler *)

(** Code in which there is an import or a banned call is never compiled or
    run: the answer is the same whatever [compile] and [exec] would do with
    the tree, and [sys.stdout] is left alone.  The answer is status 400 with
    a detail that starts with [Invalid code: ] when the visitor gets to what
    is forbidden, and status 500 with the text of the [RecursionError] when
    the stack is exhausted first. *)
Theorem unsafe_code_refused (host : Host) (redirected : bool) (params : dict)
    (code : json) (tree : Ast) :
  dict_get "code" params = Some code ->
  ast_parse host code = Done tree ->
  Forbidden tree ->
  exists status detail,
    (forall compile' exec',
       execute (with_runner host compile' exec') redirected "code_execution"
         params
       = (http_exception status detail, redirected))
    /\ ((status = 400
         /\ exists msg, detail = "Invalid code: " +:+ msg
                        /\ visit (stack host) [] tree
                           = Raise (Exc ValueError msg))
        \/ (status = 500 /\ exists chain, stack host chain = Some detail)).
Proof.
  intros Hcode Hparse Hbad.
  destruct (every_tree_judged (stack host) tree [])
    as [[_ Hn]|[[[msg Hv] _]|(msg & chain & Hv & Ho)]]; [done| |].
  - exists 400, ("Invalid code: " +:+ msg). split.
    + intros compile' exec'. unfold execute.
      cbn [String.eqb Ascii.eqb Bool.eqb with_runner ast_parse stack].
      by rewrite Hcode, Hparse, Hv.
    + left. split; [done | by exists msg].
  - exists 500, msg. split.
    + intros compile' exec'. unfold execute.
      cbn [String.eqb Ascii.eqb Bool.eqb with_runner ast_parse stack].
      by rewrite Hcode, Hparse, Hv.
    + right. split; [done | by exists chain].
Qed.

(** What one request does to the stream. *)
Lemma post_execute_stream (host : Host) (redirected : bool) (payload : json) :
  (forall touched, fails_running host payload touched ->
     snd (post_execute host redirected payload)
     = match touched with Some kept => kept | None => true end)
  /\ ((forall touched, ~ fails_running host payload touched) ->
      snd (post_execute host redirected payload) = redirected).
Proof.
  split.
  - intros touched (entries & params & code & tree & kind & msg & -> & Hc & Hp
                    & Hcode & Hparse & Hv & Hcomp & Hexec).
    unfold post_execute, execute. rewrite Hc, Hp.
    cbn [String.eqb Ascii.eqb Bool.eqb].
    by rewrite Hcode, Hparse, Hv, Hcomp, Hexec.
  - intros Hnone. unfold post_execute, execute.
    destruct payload as [| | | | | |entries]; try done.
    destruct (dict_get "command" entries) as [[| | | |command| |]|] eqn:Hc;
      try done.
    destruct (dict_get "parameters" entries) as [[| | | | | |params]|] eqn:Hp;
      try done.
    destruct (String.eqb command "web_search") eqn:Hw.
    { destruct (dict_get "query" params) as [q|]; [|done].
      by destruct (search_run host q). }
    destruct (String.eqb command "code_execution") eqn:He; [|done].
    apply String.eqb_eq in He. subst command.
    destruct (dict_get "code" params) as [code|] eqn:Hcode; [|done].
    destruct (ast_parse host code) as [tree|] eqn:Hparse; [|done].
    destruct (visit (stack host) [] tree) as [[]|] eqn:Hv; [|done].
    destruct (compile_tree host tree) as [[]|] eqn:Hcomp; [|done].
    destruct (exec_code host tree) as [[out|kind msg] touched] eqn:Hexec;
      [done|].
    destruct (Hnone touched).
    exists entries, params, code, tree, kind, msg. repeat split; done.
Qed.

Lemma serve_app (host : Host) (redirected : bool) (first later : list json) :
  snd (serve host redirected (first ++ later))
  = snd (serve host (snd (serve host redirected first)) later).
Proof.
  revert redirected. induction first as [|payload first IH]; intros redirected;
    [done|].
  cbn [app serve].
  destruct (post_execute host redirected payload) as [reply redirected'].
  specialize (IH redirected').
  destruct (serve host redirected' (first ++ later)) as [replies final].
  destruct (serve host redirected' first) as [replies' final'].
  exact IH.
Qed.

Lemma serve_quiet (host : Host) (redirected : bool) (requests : list json) :
  (forall payload touched,
     In payload requests -> ~ fails_running host payload touched) ->
  snd (serve host redirected requests) = redirected.
Proof.
  revert redirected. induction requests as [|payload later IH];
    intros redirected Hquiet; [done|].
  cbn [serve].
  destruct (post_execute_stream host redirected payload) as [_ Hsame].
  destruct (post_execute host redirected payload) as [reply redirected'].
  cbn [snd] in Hsame. rewrite Hsame in *.
  - specialize (IH redirected).
    destruct (serve host redirected later) as [replies final]. apply IH.
    intros p t Hin. apply Hquiet. by right.
  - intros t. apply Hquiet. by left.
Qed.

(** Only a run that fails changes what [sys.stdout] is: a list of requests
    none of which is code that raises while it runs leaves the stream as it
    was.  After code that raised while it ran the stream is what the program
    itself left there, and the capture buffer when the program did not assign
    it, since the line that puts the saved stream back is skipped; and it
    stays so through every later request until another run fails. *)
Theorem stdout_redirected_by_failed_run (host : Host) (redirected : bool)
    (requests : list json) :
  ((forall payload touched,
      In payload requests -> ~ fails_running host payload touched) ->
   snd (serve host redirected requests) = redirected)
  /\ (forall before payload after touched,
        requests = before ++ payload :: after ->
        fails_running host payload touched ->
        (forall p t, In p after -> ~ fails_running host p t) ->
        snd (serve host redirected requests)
        = match touched with Some kept => kept | None => true end).
Proof.
  split; [apply serve_quiet|].
  intros before payload after touched -> Hfail Hquiet.
  rewrite serve_app. cbn [serve].
  destruct (post_execute_stream host (snd (serve host redirected before))
              payload) as [Hset _].
  specialize (Hset touched Hfail).
  destruct (post_execute host (snd (serve host redirected before)) payload)
    as [reply redirected'].
  cbn [snd] in Hset. subst redirected'.
  pose proof (serve_quiet host
                (match touched with Some kept => kept | None => true end)
                after Hquiet) as Hafter.
  by destruct (serve host _ after) as [replies final].
Qed.

(** The statuses of the handler: 200 with an object that holds [result],
    400, 500, and 404 for exactly the commands that are neither of the
    two. *)
Lemma execute_statuses (host : Host) (redirected : bool) (command : string)
    (params : dict) :
  exists status entries,
    fst (execute host redirected command params)
    = Response status (Some (JObj entries))
    /\ ((status = 200 /\ exists text, entries = [("result", JStr text)])
        \/ status = 400 \/ status = 500
        \/ (status = 404 /\ command <> "web_search"
            /\ command <> "code_execution")).
Proof.
  unfold execute.
  destruct (String.eqb command "web_search") eqn:Hw.
  { destruct (dict_get "query" params) as [q|]; [|by eauto 10].
    destruct (search_run host q); cbn; eauto 10. }
  destruct (String.eqb command "code_execution") eqn:He.
  { destruct (dict_get "code" params) as [code|]; [|by eauto 10].
    destruct (ast_parse host code) as [tree|[]]; cbn; eauto 10.
    destruct (visit (stack host) [] tree) as [[]|e]; cbn;
      [|destruct (kind_of e); cbn; eauto 10].
    destruct (compile_tree host tree) as [|[]]; cbn; eauto 10.
    destruct (ended (exec_code host tree)) as [|[]]; cbn; eauto 10. }
  apply String.eqb_neq in Hw, He. cbn. eauto 10.
Qed.

(** ** The client against this server *)

Lemma post_payload (host : Host) (k : nat) (n : string)
    (params : option dict) :
  on_post (as_server host) k (payload_of n params)
  = fst (execute host false n (or_empty params)).
Proof. reflexivity. Qed.

Lemma served_names (n : string) (c : Command) :
  build_map served !! n = Some c -> n = "web_search" \/ n = "code_execution".
Proof.
  intros H. destruct (foldl_insert_sound served ∅ n c H) as [[Hin Hn]|Hm].
  - destruct Hin as [<-|[<-|[]]]; subst n; [by left | by right].
  - by rewrite lookup_empty in Hm.
Qed.

(** What [execute_command] gives for a command of the catalog, by the
    reply of the server. *)
Lemma execute_by_reply (server : Server) (s : State) (cmds : list Command)
    (c : Command) (n : string) (params : option dict) (st : nat)
    (entries : dict) :
  populated s cmds -> build_map cmds !! n = Some c ->
  on_post server (length (posts s)) (payload_of n params)
    = Response st (Some (JObj entries)) ->
  snd (execute_command server n params s)
  = if is_success st then
      match dict_get "result" entries with
      | Some r => Ret r
      | None => Raise (Exc KeyError "'result'")
      end
    else if (st =? 404)%nat then
      Raise (Exc CommandNotFoundError
               ("Command execution failed - not found: " +:+ n))
    else Raise (Exc MCPError ("Command execution failed: " +:+ pretty st)).
Proof.
  intros Hpop Hn Hrep.
  destruct (execute_known_run server s cmds c n params Hpop Hn)
    as (s1 & _ & Hp & _ & ->).
  unfold_m. cbn. rewrite Hp, Hrep. cbn.
  destruct (is_success st); cbn.
  - by destruct (dict_get "result" entries).
  - by destruct (st =? 404)%nat.
Qed.

(** Through a client that holds this server's catalog the handler's 404 is
    never met: [execute_command] raises [CommandNotFoundError] only for a
    name that is neither command, with the client's own message, and without
    having posted anything. *)
Theorem not_found_only_client_side (host : Host) (s : State) (n : string)
    (params : option dict) (msg : string) :
  populated s served ->
  snd (execute_command (as_server host) n params s)
    = Raise (Exc CommandNotFoundError msg) ->
  n <> "web_search" /\ n <> "code_execution"
  /\ msg = "Command not found: " +:+ n
  /\ posts (fst (execute_command (as_server host) n params s)) = posts s.
Proof.
  intros Hpop Hraise.
  destruct (build_map served !! n) as [c|] eqn:Hn.
  - exfalso. pose proof (served_names n c Hn) as Hname.
    destruct (execute_statuses host false n (or_empty params))
      as (st & entries & Hrep & Hst).
    rewrite <- (post_payload host (length (posts s))) in Hrep.
    rewrite (execute_by_reply _ s served c n params st entries Hpop Hn Hrep)
      in Hraise.
    destruct Hst as [[-> [text ->]]|[->|[->|(-> & Hw & He)]]]; cbn in Hraise;
      try done.
    by destruct Hname.
  - destruct (command_map_populated (as_server host) s served Hpop)
      as (s1 & E & _ & Hp & _).
    revert Hraise. unfold execute_command, bind. rewrite E, Hn. cbn.
    intros [= <-]. repeat split; try done.
    + intros ->. by vm_compute in Hn.
    + intros ->. by vm_compute in Hn.
Qed.

(** Code in which there is an import or a banned call, sent through a
    client that holds this server's catalog, comes back as [MCPError] with
    the status alone, 400 when the visitor got to what is forbidden and 500
    when the stack was exhausted first: what the visitor objected to does not
    reach the caller. *)
Theorem unsafe_code_through_client (host : Host) (s : State) (params : dict)
    (code : json) (tree : Ast) :
  populated s served ->
  dict_get "code" params = Some code ->
  ast_parse host code = Done tree ->
  Forbidden tree ->
  (snd (execute_command (as_server host) "code_execution" (Some params) s)
   = Raise (Exc MCPError "Command execution failed: 400")
   /\ exists msg, visit (stack host) [] tree = Raise (Exc ValueError msg))
  \/ (snd (execute_command (as_server host) "code_execution" (Some params) s)
      = Raise (Exc MCPError "Command execution failed: 500")
      /\ exists chain msg, stack host chain = Some msg).
Proof.
  intros Hpop Hcode Hparse Hbad.
  assert (build_map served !! "code_execution" = Some code_execution_cmd)
    as Hc by reflexivity.
  destruct (every_tree_judged (stack host) tree [])
    as [[_ Hn]|[[[msg Hv] _]|(msg & chain & Hv & Ho)]]; [done| |].
  - left. split; [|by exists msg].
    rewrite (execute_by_reply _ s served code_execution_cmd "code_execution"
               (Some params) 400 [("detail", JStr ("Invalid code: " +:+ msg))]
               Hpop Hc); [reflexivity|].
    rewrite post_payload, or_empty_some. unfold execute.
    cbn [String.eqb Ascii.eqb Bool.eqb]. by rewrite Hcode, Hparse, Hv.
  - right. split; [|by exists chain, msg].
    rewrite (execute_by_reply _ s served code_execution_cmd "code_execution"
               (Some params) 500 [("detail", JStr msg)] Hpop Hc);
      [reflexivity|].
    rewrite post_payload, or_empty_some. unfold execute.
    cbn [String.eqb Ascii.eqb Bool.eqb]. by rewrite Hcode, Hparse, Hv.
Qed.

(** ** Concrete instances *)

Lemma eval_call_forbidden : Forbidden eval_call.
Proof.
  apply (forbidden_in_child (Node [Call (Name "eval") [Name "x"]]));
    [by left|].
  apply (forbidden_in_child (Call (Name "eval") [Name "x"])); [by left|].
  by apply forbidden_call.
Qed.

Lemma fetched_populated : populated fetched served.
Proof. split; [reflexivity | by left]. Qed.

Lemma unsafe_code_refused_witness :
  dict_get "code" [("code", JStr "eval(x)")] = Some (JStr "eval(x)")
  /\ ast_parse small_host (JStr "eval(x)") = Done eval_call
  /\ Forbidden eval_call
  /\ (exists status detail,
       (forall compile' exec',
          execute (with_runner small_host compile' exec') false
            "code_execution" [("code", JStr "eval(x)")]
          = (http_exception status detail, false))
       /\ ((status = 400
            /\ exists msg, detail = "Invalid code: " +:+ msg
                           /\ visit (stack small_host) [] eval_call
                              = Raise (Exc ValueError msg))
           \/ (status = 500
               /\ exists chain, stack small_host chain = Some detail)))
  /\ execute small_host false "code_execution" [("code", JStr "eval(x)")]
     = (http_exception 400 "Invalid code: Call to 'eval' is not allowed", false)
  /\ execute shallow_host false "code_execution" [("code", JStr "eval(x)")]
     = (http_exception 500 "maximum recursion depth exceeded", false).
Proof.
  split; [reflexivity|]. split; [reflexivity|].
  split; [exact eval_call_forbidden|].
  split; [|split; reflexivity].
  exact (unsafe_code_refused small_host false [("code", JStr "eval(x)")]
           (JStr "eval(x)") eval_call eq_refl eq_refl eval_call_forbidden).
Defined.

Lemma division_fails_running :
  fails_running small_host (run_request "1/0") None.
Proof.
  exists [("command", JStr "code_execution");
          ("parameters", JObj [("code", JStr "1/0")])],
         [("code", JStr "1/0")], (JStr "1/0"), dividing, OtherFailure,
         "division by zero".
  repeat split; reflexivity.
Qed.

Lemma restoring_fails_running :
  fails_running small_host (run_request "restore(); 1/0") (Some false).
Proof.
  exists [("command", JStr "code_execution");
          ("parameters", JObj [("code", JStr "restore(); 1/0")])],
         [("code", JStr "restore(); 1/0")], (JStr "restore(); 1/0"),
         restoring, OtherFailure, "division by zero".
  repeat split; reflexivity.
Qed.

Lemma printing_runs (p : json) (touched : option bool) :
  In p [run_request "print(1)"] -> ~ fails_running small_host p touched.
Proof.
  intros [<-|[]] (entries & params & code & tree & kind & msg & Heq & Hc & Hp
                  & Hcode & Hparse & Hv & Hcomp & Hexec).
  injection Heq as <-. cbn in Hc, Hp. injection Hp as <-.
  cbn in Hcode. injection Hcode as <-. cbn in Hparse. injection Hparse as <-.
  discriminate Hexec.
Qed.

Lemma stdout_redirected_by_failed_run_witness :
  fails_running small_host (run_request "1/0") None
  /\ (forall p t, In p [run_request "print(1)"] ->
                  ~ fails_running small_host p t)
  /\ snd (serve small_host false
            [run_request "print(1)"; run_request "1/0"; run_request "print(1)"])
     = true
  /\ fails_running small_host (run_request "restore(); 1/0") (Some false)
  /\ snd (serve small_host true
            [run_request "restore(); 1/0"; run_request "print(1)"])
     = false
  /\ snd (serve small_host false
            [run_request "print(1)"; run_request "print(1)"])
     = false.
Proof.
  split; [exact division_fails_running|]. split; [exact printing_runs|].
  split; [|split; [exact restoring_fails_running|split]].
  - exact (proj2 (stdout_redirected_by_failed_run small_host false
                    [run_request "print(1)"; run_request "1/0";
                     run_request "print(1)"])
             [run_request "print(1)"] (run_request "1/0")
             [run_request "print(1)"] None eq_refl division_fails_running
             printing_runs).
  - exact (proj2 (stdout_redirected_by_failed_run small_host true
                    [run_request "restore(); 1/0"; run_request "print(1)"])
             [] (run_request "restore(); 1/0")
             [run_request "print(1)"] (Some false) eq_refl
             restoring_fails_running printing_runs).
  - reflexivity.
Defined.

Lemma not_found_only_client_side_witness :
  populated fetched served
  /\ snd (execute_command (as_server small_host) "shell" None fetched)
     = Raise (Exc CommandNotFoundError "Command not found: shell")
  /\ "shell" <> "web_search" /\ "shell" <> "code_execution"
  /\ "Command not found: shell" = "Command not found: " +:+ "shell"
  /\ posts (fst (execute_command (as_server small_host) "shell" None fetched))
     = posts fetched.
Proof.
  split; [exact fetched_populated|]. split; [reflexivity|].
  exact (not_found_only_client_side small_host fetched "shell" None
           "Command not found: shell" fetched_populated eq_refl).
Defined.

Lemma unsafe_code_through_client_witness :
  populated fetched served
  /\ dict_get "code" [("code", JStr "eval(x)")] = Some (JStr "eval(x)")
  /\ ast_parse small_host (JStr "eval(x)") = Done eval_call
  /\ Forbidden eval_call
  /\ ((snd (execute_command (as_server small_host) "code_execution"
              (Some [("code", JStr "eval(x)")]) fetched)
       = Raise (Exc MCPError "Command execution failed: 400")
       /\ exists msg, visit (stack small_host) [] eval_call
                      = Raise (Exc ValueError msg))
      \/ (snd (execute_command (as_server small_host) "code_execution"
                 (Some [("code", JStr "eval(x)")]) fetched)
          = Raise (Exc MCPError "Command execution failed: 500")
          /\ exists chain msg, stack small_host chain = Some msg)).
Proof.
  split; [exact fetched_populated|]. split; [reflexivity|].
  split; [reflexivity|]. split; [exact eval_call_forbidden|].
  exact (unsafe_code_through_client small_host fetched
           [("code", JStr "eval(x)")] (JStr "eval(x)") eval_call
           fetched_populated eq_refl eq_refl eval_call_forbidden).
Defined.

End CommandServerFacts.

(** * Facts about the assistant's route *)

Module ApiFacts.
Import Py MCP PyStr PyStrFacts Api ServerExamples.

(** A text whose lowered form splits in two splits the same way. *)
Lemma lower_split (s a b : string) :
  lower s = a +:+ b -> exists sa sb, s = sa +:+ sb /\ lower sa = a /\ lower sb = b.
Proof.
  revert s. induction a as [|x a IH]; intros s H.
  - by exists EmptyString, s.
  - destruct s as [|y s]; [done|]. rewrite app_cons in H. cbn [lower] in H.
    injection H as Hx Hs. destruct (IH s Hs) as (sa & sb & -> & Ha & Hb).
    exists (String y sa), sb. cbn [lower]. by rewrite Hx, Ha.
Qed.

(** ["error" in result.lower()] says that the answer holds the word in some
    mix of capitals and small letters. *)
Lemma contains_error (result : string) :
  contains "error" (lower result) = true <-> mentions_error result.
Proof.
  rewrite contains_spec. split.
  - intros (pre' & post' & H).
    destruct (lower_split result pre' ("error" +:+ post') H)
      as (pre & rest & -> & _ & Hrest).
    destruct (lower_split rest "error" post' Hrest) as (w & post & -> & Hw & _).
    by exists pre, w, post.
  - intros (pre & w & post & -> & Hw). rewrite !lower_app, Hw.
    by exists (lower pre), (lower post).
Qed.

(** The route over the workflow that [get_workflow] builds answers every
    query with status 500: [Workflow.run] returns text, [await] on text
    raises [TypeError], and the [except] clause reports it.  The answer the
    workflow computed is not sent. *)
Theorem assist_always_fails (oracle : Graph.Oracle) (query : string) :
  assist_workflow oracle query
  = assist_failure "object str can't be used in 'await' expression" query.
Proof.
  unfold assist_workflow, assist, Graph.run.
  by destruct (Graph.invoke oracle (Graph.initial_state query)).
Qed.

(** With a workflow whose [run] can be awaited, an answer that holds the
    word [error] in any mix of capitals and small letters is sent as a
    failure, status 500 with the answer as its message; an answer that does
    not, and does not start with [Workflow execution failed], is sent as the
    result with status 200. *)
Theorem answer_mentioning_error_rejected (run : string -> Res Returned)
    (query result : string) :
  run query = Ret (Awaitable (Ret result)) ->
  (mentions_error result -> assist run query = assist_failure result query)
  /\ (~ mentions_error result ->
      String.prefix "Workflow execution failed" result = false ->
      assist run query = assist_response result).
Proof.
  intros Hrun. unfold assist. rewrite Hrun. cbn [res_bind await].
  unfold looks_failed. split.
  - intros Hm. apply contains_error in Hm. rewrite Hm, orb_true_r. done.
  - intros Hm Hp. rewrite Hp.
    destruct (contains "error" (lower result)) eqn:Hc; [|done].
    by apply contains_error in Hc.
Qed.

Lemma answer_mentioning_error_rejected_witness :
  answering_with "No Errors found" "check my code"
    = Ret (Awaitable (Ret "No Errors found"))
  /\ mentions_error "No Errors found"
  /\ assist (answering_with "No Errors found") "check my code"
     = assist_failure "No Errors found" "check my code"
  /\ answering_with "All tests pass" "check my code"
     = Ret (Awaitable (Ret "All tests pass"))
  /\ ~ mentions_error "All tests pass"
  /\ String.prefix "Workflow execution failed" "All tests pass" = false
  /\ assist (answering_with "All tests pass") "check my code"
     = assist_response "All tests pass".
Proof.
  assert (mentions_error "No Errors found") as Hm
    by (by exists "No ", "Error", "s found").
  assert (~ mentions_error "All tests pass") as Hn
    by (intros H; by apply contains_error in H).
  split; [reflexivity|]. split; [exact Hm|].
  split.
  { exact (proj1 (answer_mentioning_error_rejected
                    (answering_with "No Errors found") "check my code"
                    "No Errors found" eq_refl) Hm). }
  split; [reflexivity|]. split; [exact Hn|]. split; [reflexivity|].
  exact (proj2 (answer_mentioning_error_rejected
                  (answering_with "All tests pass") "check my code"
                  "All tests pass" eq_refl) Hn eq_refl).
Defined.

End ApiFacts.
